(** * Camera Presets on the Home Screen: the positioning state engine

    A shallow embedding of [Camera_Presets_On_Homescreen.js] (version 1-0-2)
    and the properties of its selection encoding, its settle monitor, its
    suppression gate and its event handlers.

    Conventions of the embedding.
    - A JS string is a [string] holding its UTF-8 bytes.  The separators
      [~] and [:], the digits and the keywords of the encoding are ASCII,
      so splitting and searching see the same pieces as the UTF-16 original.
    - A JS object used as a record of named fields is a [gmap string JsVal];
      reading an absent field yields [JUndef].  The objects have no
      prototype: the program reads the fields Type, Feature, CameraId,
      PresetId and PresetName only, and a statement that ranges over field
      names leaves out those of [Object.prototype].
    - Every xapi command is an entry of the effect trace; whether the device
      accepts or rejects it is read from a [World], over which every theorem
      is quantified.
    - Time is counted in milliseconds; [setTimeout] registers a due time. *)

From stdpp Require Import gmap strings list sorting.
From Stdlib Require Import ZArith Ascii DecimalString Lia.

Local Open Scope string_scope.
Local Open Scope nat_scope.
Local Open Scope list_scope.

(** ** JavaScript values *)

(** The numbers of the program come from [Number(text)] and are only ever
    printed back by a template literal, tested for truth or handed to a
    command.  [Int z] is the double that equals the integer [z] exactly
    (magnitude at most 2^53; minus zero is identified with zero, both print
    as [0]).  [Dbl lit] is the double nearest to the value of the numeric
    literal [lit] when that value is not such an integer. *)
Inductive JsNum : Type :=
  | Int (z : Z)
  | Dbl (lit : string).

Inductive JsVal : Type :=
  | JUndef
  | JNum (n : JsNum)
  | JStr (s : string).

(** Printing and truth of the doubles that are not small integers is
    IEEE-754 arithmetic, which is outside this development: both are taken
    as given. *)
Class Doubles : Type := {
  double_text : string -> string;
  double_truthy : string -> bool
}.

(** An instance for evaluating the program on inputs free of such doubles. *)
Definition literal_doubles : Doubles :=
  {| double_text := fun lit => lit; double_truthy := fun _ => true |}.

(** Property read [o.k]. *)
Definition get (o : gmap string JsVal) (k : string) : JsVal :=
  default JUndef (o !! k).

(** [v === 'text'] *)
Definition is_str (v : JsVal) (text : string) : bool :=
  match v with
  | JStr s => String.eqb s text
  | _ => false
  end.

(** [v == undefined] *)
Definition is_undefined (v : JsVal) : bool :=
  match v with
  | JUndef => true
  | _ => false
  end.

Definition show_int (z : Z) : string :=
  NilZero.string_of_int (Z.to_int z).

Section Values.
Context {D : Doubles}.

(** ToBoolean *)
Definition truthy (v : JsVal) : bool :=
  match v with
  | JUndef => false
  | JNum (Int z) => negb (z =? 0)%Z
  | JNum (Dbl lit) => double_truthy lit
  | JStr s => negb (String.eqb s "")
  end.

(** ToString, as applied by a template literal [`${v}`]. *)
Definition to_string (v : JsVal) : string :=
  match v with
  | JUndef => "undefined"
  | JNum (Int z) => show_int z
  | JNum (Dbl lit) => double_text lit
  | JStr s => s
  end.
End Values.

(** ** Strings *)

Definition chars (s : string) : list ascii := String.list_ascii_of_string s.
Definition text (l : list ascii) : string := String.string_of_list_ascii l.

(** [hay.includes(needle)] *)
Fixpoint includes (needle hay : string) : bool :=
  String.prefix needle hay ||
  match hay with
  | EmptyString => false
  | String _ rest => includes needle rest
  end.

(** [s.split(sep)] for a one-character separator: never empty. *)
Fixpoint split_chars (sep : ascii) (l : list ascii) : list (list ascii) :=
  match l with
  | [] => [[]]
  | c :: rest =>
      if Ascii.eqb c sep then [] :: split_chars sep rest
      else match split_chars sep rest with
           | [] => [[c]]
           | piece :: pieces => (c :: piece) :: pieces
           end
  end.

Definition split (sep : ascii) (s : string) : list string :=
  map text (split_chars sep (chars s)).

Definition lower_char (c : ascii) : ascii :=
  let n := nat_of_ascii c in
  if (65 <=? n)%nat && (n <=? 90)%nat then ascii_of_nat (n + 32) else c.

(** [s.toLowerCase()].  Only ASCII letters are mapped; no other character
    lowers to an ASCII letter of the words compared below. *)
Definition toLowerCase (s : string) : string :=
  text (map lower_char (chars s)).

(** ** [Number(text)] and [isNaN(text)]

    The StringNumericLiteral grammar of ECMAScript: optional white space
    around a signed decimal literal (with optional fraction and exponent),
    [Infinity], or an unsigned hexadecimal, octal or binary integer; the
    empty text denotes zero.  Anything else is NaN. *)

Definition code (c : ascii) : nat := nat_of_ascii c.

(** The white space and line terminators of ECMAScript, as UTF-8 byte
    sequences: TAB, LF, VT, FF, CR, SP, U+00A0, U+1680, U+2000..U+200A,
    U+2028, U+2029, U+202F, U+205F, U+3000 and U+FEFF. *)
Definition blank1 (a : nat) : bool :=
  ((9 <=? a) && (a <=? 13)) || (a =? 32).

Definition blank2 (a b : nat) : bool :=
  (a =? 194) && (b =? 160).

Definition blank3 (a b c : nat) : bool :=
  ((a =? 225) && (b =? 154) && (c =? 128))
  || ((a =? 226) && (b =? 128)
      && (((128 <=? c) && (c <=? 138)) || (c =? 168) || (c =? 169) || (c =? 175)))
  || ((a =? 226) && (b =? 129) && (c =? 159))
  || ((a =? 227) && (b =? 128) && (c =? 128))
  || ((a =? 239) && (b =? 187) && (c =? 191)).

Fixpoint strip_leading (l : list ascii) : list ascii :=
  match l with
  | a :: l1 =>
      if blank1 (code a) then strip_leading l1
      else match l1 with
           | b :: l2 =>
               if blank2 (code a) (code b) then strip_leading l2
               else match l2 with
                    | c :: l3 =>
                        if blank3 (code a) (code b) (code c)
                        then strip_leading l3 else l
                    | [] => l
                    end
           | [] => l
           end
  | [] => []
  end.

(** The same from the far end, on the reversed text. *)
Fixpoint strip_trailing_rev (l : list ascii) : list ascii :=
  match l with
  | a :: l1 =>
      if blank1 (code a) then strip_trailing_rev l1
      else match l1 with
           | b :: l2 =>
               if blank2 (code b) (code a) then strip_trailing_rev l2
               else match l2 with
                    | c :: l3 =>
                        if blank3 (code c) (code b) (code a)
                        then strip_trailing_rev l3 else l
                    | [] => l
                    end
           | [] => l
           end
  | [] => []
  end.

Definition trim (l : list ascii) : list ascii :=
  rev (strip_trailing_rev (rev (strip_leading l))).

(** Value of a digit in radix up to 16, if it is one. *)
Definition digit_value (c : ascii) : option Z :=
  let n := code c in
  if (48 <=? n) && (n <=? 57) then Some (Z.of_nat (n - 48))
  else if (97 <=? n) && (n <=? 102) then Some (Z.of_nat (n - 87))
  else if (65 <=? n) && (n <=? 70) then Some (Z.of_nat (n - 55))
  else None.

Definition is_digit (radix : Z) (c : ascii) : bool :=
  match digit_value c with
  | Some d => (d <? radix)%Z
  | None => false
  end.

(** Longest prefix of digits, and what follows it. *)
Fixpoint span_digits (radix : Z) (l : list ascii) : list ascii * list ascii :=
  match l with
  | c :: rest =>
      if is_digit radix c
      then let '(ds, tl) := span_digits radix rest in (c :: ds, tl)
      else ([], l)
  | [] => ([], [])
  end.

Definition digits_value (radix : Z) (ds : list ascii) : Z :=
  fold_left (fun acc c => (acc * radix + default 0 (digit_value c))%Z) ds 0%Z.

Definition max_exact : Z := 2 ^ 53.

(** The double of an integer value: exact up to 2^53. *)
Definition of_integer (lit : string) (negative : bool) (z : Z) : JsNum :=
  if (z <=? max_exact)%Z then Int (if negative then - z else z) else Dbl lit.

(** The value [m * 10^e] when it is an integer that can be told without
    computing an astronomically large power. *)
Definition scaled_integer (ndigits : nat) (m e : Z) : option Z :=
  if (m =? 0)%Z then Some 0%Z
  else if (0 <=? e)%Z then
    (if (e <=? 16)%Z then Some (m * 10 ^ e)%Z else None)
  else
    let k := (- e)%Z in
    if (k <=? Z.of_nat ndigits)%Z
    then (if (m mod 10 ^ k =? 0)%Z then Some (m / 10 ^ k)%Z else None)
    else None.

(** [0x..], [0o..], [0b..] *)
Definition radix_literal (lit : string) (l : list ascii) : option JsNum :=
  match l with
  | z :: x :: ds =>
      let radix :=
        if negb (code z =? 48) then None
        else if (code x =? 120) || (code x =? 88) then Some 16%Z
        else if (code x =? 111) || (code x =? 79) then Some 8%Z
        else if (code x =? 98) || (code x =? 66) then Some 2%Z
        else None in
      match radix with
      | Some r =>
          match ds, span_digits r ds with
          | _ :: _, (_, []) => Some (of_integer lit false (digits_value r ds))
          | _, _ => None
          end
      | None => None
      end
  | _ => None
  end.

(** The exponent part [e], [e+] or [e-] followed by digits, to the end. *)
Definition exponent_part (l : list ascii) : option Z :=
  match l with
  | [] => Some 0%Z
  | e :: rest =>
      if (code e =? 101) || (code e =? 69) then
        let '(negative, ds) :=
          match rest with
          | s :: rest' =>
              if code s =? 45 then (true, rest')
              else if code s =? 43 then (false, rest')
              else (false, rest)
          | [] => (false, rest)
          end in
        match ds, span_digits 10 ds with
        | _ :: _, (_, []) =>
            let v := digits_value 10 ds in
            Some (if negative then - v else v)%Z
        | _, _ => None
        end
      else None
  end.

Definition unsigned_decimal (lit : string) (negative : bool)
    (l : list ascii) : option JsNum :=
  if String.eqb (text l) "Infinity" then Some (Dbl lit)
  else
    let '(ip, r1) := span_digits 10 l in
    let '(fp, r2) :=
      match r1 with
      | dot :: r =>
          if code dot =? 46 then span_digits 10 r else ([], r1)
      | [] => ([], r1)
      end in
    match (ip ++ fp)%list with
    | [] => None
    | ds =>
        match exponent_part r2 with
        | Some ex =>
            let m := digits_value 10 ds in
            match scaled_integer (length ds) m (ex - Z.of_nat (length fp)) with
            | Some z => Some (of_integer lit negative z)
            | None => Some (Dbl lit)
            end
        | None => None
        end
    end.

(** [Number(v)] of a string, [None] standing for NaN; so [isNaN(v)] is
    [to_number v = None]. *)
Definition to_number (v : string) : option JsNum :=
  let l := trim (chars v) in
  let lit := text l in
  match l with
  | [] => Some (Int 0)
  | s :: rest =>
      match radix_literal lit l with
      | Some n => Some n
      | None =>
          if code s =? 45 then unsigned_decimal lit true rest
          else if code s =? 43 then unsigned_decimal lit false rest
          else unsigned_decimal lit false l
      end
  end.

(** [isNaN(value) ? value : Number(value)], for the second piece of a
    split, which is [undefined] when there is none. *)
Definition coerce (value : option string) : JsVal :=
  match value with
  | None => JUndef
  | Some v =>
      match to_number v with
      | None => JStr v
      | Some n => JNum n
      end
  end.

(** ** Commands and console output *)

Inductive Level : Type := LError | LWarn | LLog | LInfo | LDebug.

(** The xapi commands the program issues, with the arguments it passes. *)
Inductive Cmd : Type :=
  | Cameras_SpeakerTrack_Activate
  | Cameras_SpeakerTrack_Deactivate
  | Cameras_SpeakerTrack_Frames_Activate
  | Cameras_SpeakerTrack_Frames_Deactivate
  | Cameras_PresenterTrack_Set (Mode : string)
  | Camera_Preset_Activate (PresetId : JsVal)
  | Camera_Preset_List
  | Camera_Preset_Show (PresetId : JsVal)
  | Video_Input_SetMainVideoSource (ConnectorId : JsVal)
  | Widget_SetValue (WidgetId Value : string)
  | Widget_UnsetValue (WidgetId : string)
  | Message_Prompt_Display (Option1 : JsVal).

Inductive Effect : Type :=
  | Call (c : Cmd)
  | Console (level : Level) (message : string).

(** ** The selection encoding *)

Definition is_separator (c : ascii) : bool :=
  (code c =? 126) || (code c =? 58).

(** Longest run of characters other than [~] and [:], and what follows. *)
Fixpoint span_plain (l : list ascii) : list ascii * list ascii :=
  match l with
  | c :: rest =>
      if is_separator c then ([], l)
      else let '(run, tl) := span_plain rest in (c :: run, tl)
  | [] => ([], [])
  end.

(** A match of [(?:([^~:]+):([^~:]+))(?:~|$)+] starting here.  Both runs
    are greedy; a shorter key would be followed by a plain character
    instead of [:], and a shorter value by a plain character instead of
    [~] or the end, so backtracking finds nothing more. *)
Definition match_here (l : list ascii) : bool :=
  match span_plain l with
  | (_ :: _, colon :: after) =>
      (code colon =? 58) &&
      match span_plain after with
      | (_ :: _, []) => true
      | (_ :: _, next :: _) => code next =? 126
      | ([], _) => false
      end
  | _ => false
  end.

(** [regex.test(data)] on a fresh global regex: a match anywhere. *)
Fixpoint match_anywhere (l : list ascii) : bool :=
  match_here l ||
  match l with
  | _ :: rest => match_anywhere rest
  | [] => false
  end.

Definition regex_test (data : string) : bool := match_anywhere (chars data).

(** [const [key, value] = element.split(':')] and the assignment
    [response[key] = isNaN(value) ? value : Number(value)]. *)
Definition assign_pair (response : gmap string JsVal) (element : string)
    : gmap string JsVal :=
  let pieces := split ":" element in
  let key := default "" (head pieces) in
  let value := head (tail pieces) in
  <[key := coerce value]> response.

Definition error_object : gmap string JsVal := {["Type" := JStr "Error"]}.

(** [parseKeyValuePairs(data)]: the console output and the object returned. *)
Definition parseKeyValuePairs (data : string)
    : list Effect * gmap string JsVal :=
  if negb (regex_test data) then
    ([Console LError "Unable to parse data key value pair || Malformed String"],
     error_object)
  else
    ([], fold_left assign_pair (split "~" data) ∅).

Definition decode (data : string) : gmap string JsVal :=
  snd (parseKeyValuePairs data).

Section Encoding.
Context {D : Doubles}.

(** The value rebuilt from a remembered selection
    ([Subscribe.WidgetAction], case ['Manual']):
<<
    let value = ``;
    switch (lastPresetSelection.Type) {
      case 'Automatic': value = `Type:Automatic~Feature:${...Feature}`
      case 'Preset': value = `Type:Preset~CameraId:${...}~PresetId:${...}~PresetName:${...}`
    }
>> *)
Definition encode (selection : gmap string JsVal) : string :=
  if is_str (get selection "Type") "Automatic" then
    "Type:Automatic~Feature:" +:+ to_string (get selection "Feature")
  else if is_str (get selection "Type") "Preset" then
    "Type:Preset~CameraId:" +:+ to_string (get selection "CameraId")
    +:+ "~PresetId:" +:+ to_string (get selection "PresetId")
    +:+ "~PresetName:" +:+ to_string (get selection "PresetName")
  else "".
End Encoding.

(** ** The settle monitor: [monitorCameraStoppedPosition]

    The promise, its two timers and its subscription are followed one
    millisecond at a time.  In each millisecond the timers that are due
    fire first and the position updates of that millisecond are delivered
    after them.  When both timers are due in the same millisecond the
    order in which the runtime fires them is left open ([failsafe_first]). *)

Record Tick : Type := { Pan : JsVal; Tilt : JsVal; Zoom : JsVal }.

Inductive Outcome : Type :=
  | TimedOut   (* resolve(`Monitor Timed Out`) *)
  | Stopped.   (* resolve(`Camera [${cameraId}] Stopped`) *)

(** What the monitor does, in the order it does it. *)
Inductive MonitorAction : Type :=
  | ClearDebounce
  | ClearFailsafe
  | Unsubscribe
  | Resolve (o : Outcome).

Record Monitor : Type := {
  failsafe_run : option nat;    (* failsafeDebounce.run: due time if pending *)
  debounce_run : option nat;    (* debounce.run: due time if pending *)
  subscribed : bool;            (* the Position feedback is registered *)
  resolution : option (Outcome * nat);  (* how and when the promise settled *)
  actions : list MonitorAction  (* latest first *)
}.

Definition failsafeDebounceTime_for_MainSourceSetOnCameraRampStop : nat := 2500.
Definition debounce_length : nat := 250.

(** [resolve(o)]: only the first call settles the promise. *)
Definition settle (o : Outcome) (now : nat) (r : option (Outcome * nat))
    : option (Outcome * nat) :=
  match r with
  | Some _ => r
  | None => Some (o, now)
  end.

(** The state when the promise executor returns, at time 0. *)
Definition monitor_start : Monitor :=
  {| failsafe_run := Some failsafeDebounceTime_for_MainSourceSetOnCameraRampStop;
     debounce_run := None;
     subscribed := true;
     resolution := None;
     actions := [] |}.

(** The failsafe callback: [clearTimeout(debounce.run); resolve(...)]. *)
Definition fire_failsafe (now : nat) (m : Monitor) : Monitor :=
  {| failsafe_run := None;
     debounce_run := None;
     subscribed := subscribed m;
     resolution := settle TimedOut now (resolution m);
     actions := Resolve TimedOut :: ClearDebounce :: actions m |}.

(** The debounce callback: [clearTimeout(failsafeDebounce.run)], the
    unsubscribe function (replaced by a no-op once called), [resolve(...)]. *)
Definition fire_debounce (now : nat) (m : Monitor) : Monitor :=
  {| failsafe_run := None;
     debounce_run := None;
     subscribed := false;
     resolution := settle Stopped now (resolution m);
     actions :=
       Resolve Stopped ::
       (if subscribed m then [Unsubscribe] else []) ++
       ClearFailsafe :: actions m |}.

Definition is_due (timer : option nat) (now : nat) : bool :=
  match timer with
  | Some due => due <=? now
  | None => false
  end.

Definition fire_due (failsafe_first : bool) (now : nat) (m : Monitor) : Monitor :=
  match is_due (failsafe_run m) now, is_due (debounce_run m) now with
  | true, true =>
      if failsafe_first then fire_failsafe now m else fire_debounce now m
  | true, false => fire_failsafe now m
  | false, true => fire_debounce now m
  | false, false => m
  end.

Section Settle.
Context {D : Doubles}.

(** [(!Pan && !Tilt) && !Zoom] *)
Definition at_rest (k : Tick) : bool :=
  (negb (truthy (Pan k)) && negb (truthy (Tilt k))) && negb (truthy (Zoom k)).

(** The Position callback. *)
Definition on_position (now : nat) (m : Monitor) (k : Tick) : Monitor :=
  if negb (subscribed m) then m
  else if at_rest k then m
  else
    {| failsafe_run := failsafe_run m;
       debounce_run := Some (now + debounce_length);
       subscribed := subscribed m;
       resolution := resolution m;
       actions := ClearDebounce :: actions m |}.

Definition millisecond (failsafe_first : bool) (now : nat)
    (updates : list Tick) (m : Monitor) : Monitor :=
  fold_left (on_position now) updates (fire_due failsafe_first now m).

(** The monitor after the milliseconds [0 .. now] since it was started,
    [position cameraId t] being the updates of
    [xapi.Status.Cameras.Camera[cameraId].Position] in millisecond [t]. *)
Fixpoint monitorCameraStoppedPosition (failsafe_first : bool)
    (position : JsVal -> nat -> list Tick) (cameraId : JsVal) (now : nat)
    : Monitor :=
  match now with
  | 0 => fold_left (on_position 0) (position cameraId 0) monitor_start
  | S before =>
      millisecond failsafe_first now (position cameraId now)
        (monitorCameraStoppedPosition failsafe_first position cameraId before)
  end.
End Settle.

(** ** The macro's state and its surroundings *)

Record PresetRecord : Type := {
  p_CameraId : JsVal;
  p_PresetId : JsVal;
  p_Name : string;
  p_DefaultPosition : string
}.

(** [config.Features] *)
Record Features : Type := {
  ShowTrackingOptions : bool;
  OnCallSetDefaultPreset : bool;
  MainSourceSetOnCameraRampStop : bool
}.

Definition default_features : Features :=
  {| ShowTrackingOptions := false;
     OnCallSetDefaultPreset := true;
     MainSourceSetOnCameraRampStop := true |}.

(** Everything the device decides: the configuration it was given, which
    commands it accepts (knowing what was issued before), its preset
    catalog, the position updates of each camera in each millisecond, and
    the order of two timers due together. *)
Record World : Type := {
  features : Features;
  accepts : list Effect -> Cmd -> bool;
  presets : list PresetRecord;
  shown_name : JsVal -> JsVal;
  position : JsVal -> nat -> list Tick;
  failsafe_first : bool;
  hasSpeakertrack : bool;
  hasFrames : bool;
  hasPresenterTrack : bool
}.

Record State : Type := {
  presetPositioningBypass : bool;
  presetPositioningBypassHandler : option nat;  (* '' or a timer handle *)
  lastPresetSelection : gmap string JsVal;      (* '' reads like no field *)
  availableCameraPresets : list PresetRecord;
  manualPromptDismiss : JsVal;   (* config...ManualPrompt.Dismiss *)
  timers : list (nat * nat);     (* pending gate timers: handle, due time *)
  next_handle : nat;
  now : nat;
  trace : list Effect            (* latest first *)
}.

Definition init_state : State :=
  {| presetPositioningBypass := false;
     presetPositioningBypassHandler := None;
     lastPresetSelection := ∅;
     availableCameraPresets := [];
     manualPromptDismiss := JStr "Dismiss";
     timers := [];
     next_handle := 0;
     now := 0;
     trace := [] |}.

Definition with_bypass (b : bool) (s : State) : State :=
  {| presetPositioningBypass := b;
     presetPositioningBypassHandler := presetPositioningBypassHandler s;
     lastPresetSelection := lastPresetSelection s;
     availableCameraPresets := availableCameraPresets s;
     manualPromptDismiss := manualPromptDismiss s;
     timers := timers s; next_handle := next_handle s; now := now s;
     trace := trace s |}.

Definition with_selection (sel : gmap string JsVal) (s : State) : State :=
  {| presetPositioningBypass := presetPositioningBypass s;
     presetPositioningBypassHandler := presetPositioningBypassHandler s;
     lastPresetSelection := sel;
     availableCameraPresets := availableCameraPresets s;
     manualPromptDismiss := manualPromptDismiss s;
     timers := timers s; next_handle := next_handle s; now := now s;
     trace := trace s |}.

Definition with_presets (l : list PresetRecord) (s : State) : State :=
  {| presetPositioningBypass := presetPositioningBypass s;
     presetPositioningBypassHandler := presetPositioningBypassHandler s;
     lastPresetSelection := lastPresetSelection s;
     availableCameraPresets := l;
     manualPromptDismiss := manualPromptDismiss s;
     timers := timers s; next_handle := next_handle s; now := now s;
     trace := trace s |}.

Definition with_dismiss (v : JsVal) (s : State) : State :=
  {| presetPositioningBypass := presetPositioningBypass s;
     presetPositioningBypassHandler := presetPositioningBypassHandler s;
     lastPresetSelection := lastPresetSelection s;
     availableCameraPresets := availableCameraPresets s;
     manualPromptDismiss := v;
     timers := timers s; next_handle := next_handle s; now := now s;
     trace := trace s |}.

Definition emit (e : Effect) (s : State) : State :=
  {| presetPositioningBypass := presetPositioningBypass s;
     presetPositioningBypassHandler := presetPositioningBypassHandler s;
     lastPresetSelection := lastPresetSelection s;
     availableCameraPresets := availableCameraPresets s;
     manualPromptDismiss := manualPromptDismiss s;
     timers := timers s; next_handle := next_handle s; now := now s;
     trace := e :: trace s |}.

(** [clearTimeout(presetPositioningBypassHandler)]: the variable keeps the
    stale handle. *)
Definition cancel (s : State) : State :=
  {| presetPositioningBypass := presetPositioningBypass s;
     presetPositioningBypassHandler := presetPositioningBypassHandler s;
     lastPresetSelection := lastPresetSelection s;
     availableCameraPresets := availableCameraPresets s;
     manualPromptDismiss := manualPromptDismiss s;
     timers :=
       match presetPositioningBypassHandler s with
       | Some h => List.filter (fun t => negb (fst t =? h)) (timers s)
       | None => timers s
       end;
     next_handle := next_handle s; now := now s;
     trace := trace s |}.

(** [presetPositioningBypassHandler = setTimeout(() => {
      presetPositioningBypass = false }, delay)] *)
Definition schedule_close (delay : nat) (s : State) : State :=
  {| presetPositioningBypass := presetPositioningBypass s;
     presetPositioningBypassHandler := Some (next_handle s);
     lastPresetSelection := lastPresetSelection s;
     availableCameraPresets := availableCameraPresets s;
     manualPromptDismiss := manualPromptDismiss s;
     timers := (next_handle s, now s + delay) :: timers s;
     next_handle := S (next_handle s); now := now s;
     trace := trace s |}.

Definition pending (deadline : nat) (t : nat * nat) : bool := deadline <? snd t.

(** [ms] milliseconds go by: every gate timer that falls due fires, and each
    of them sets [presetPositioningBypass = false]. *)
Definition elapse (ms : nat) (s : State) : State :=
  let later := now s + ms in
  {| presetPositioningBypass :=
       if forallb (pending later) (timers s)
       then presetPositioningBypass s else false;
     presetPositioningBypassHandler := presetPositioningBypassHandler s;
     lastPresetSelection := lastPresetSelection s;
     availableCameraPresets := availableCameraPresets s;
     manualPromptDismiss := manualPromptDismiss s;
     timers := List.filter (pending later) (timers s);
     next_handle := next_handle s; now := later;
     trace := trace s |}.

(** ** Calls that may throw or never settle *)

Inductive Result (A : Type) : Type :=
  | Returned (a : A)
  | Threw          (* an exception, or a rejected promise *)
  | Pending.       (* an awaited promise that never settles *)
Arguments Returned {A} a.
Arguments Threw {A}.
Arguments Pending {A}.

Definition M (A : Type) : Type := State -> Result A * State.

#[export] Instance M_ret : MRet M := fun A a s => (Returned a, s).

#[export] Instance M_bind : MBind M := fun A B k m s =>
  match m s with
  | (Returned a, s') => k a s'
  | (Threw, s') => (Threw, s')
  | (Pending, s') => (Pending, s')
  end.

Definition update (f : State -> State) : M unit := fun s => (Returned tt, f s).
Definition throw {A : Type} : M A := fun s => (Threw, s).

(** [try { body } catch (e) { handler }] *)
Definition try_catch {A : Type} (body handler : M A) : M A := fun s =>
  match body s with
  | (Threw, s') => handler s'
  | other => other
  end.

Definition console (level : Level) (message : string) : M unit :=
  update (emit (Console level message)).

(** [handleError(error, context, type)]: the level is [type] when it is one
    of log, warn, debug, info, and error otherwise. *)
Definition handleError (context : string) (type : string) : M unit :=
  let t := toLowerCase type in
  console
    (if String.eqb t "log" then LLog
     else if String.eqb t "warn" then LWarn
     else if String.eqb t "debug" then LDebug
     else if String.eqb t "info" then LInfo
     else LError)
    context.

Definition final {A : Type} (r : Result A * State) : State := snd r.
Definition outcome {A : Type} (r : Result A * State) : Result A := fst r.

(** The commands among some effects (latest first), oldest first. *)
Definition commands (effects : list Effect) : list Cmd :=
  omap (fun e => match e with Call c => Some c | Console _ _ => None end)
       (rev effects).

(** The commands issued so far, oldest first. *)
Definition calls (s : State) : list Cmd := commands (trace s).

(** Several effects, latest first. *)
Definition emits (effects : list Effect) (s : State) : State :=
  fold_right emit s effects.

Definition presets_widget : string := "camPresets~PresetList~Presets".

Section Macro.
Context {D : Doubles}.
Variable W : World.

(** Issue a command; the answer tells whether its promise resolved. *)
Definition xapi (c : Cmd) : M bool := fun s =>
  (Returned (accepts W (trace s) c), emit (Call c) s).

(** [await xapi.Command...(...)] with no handler: a rejection throws. *)
Definition await (c : Cmd) : M unit :=
  ok ← xapi c; if ok : bool then mret tt else throw.

(** [xapi.Command...(...).catch(handler)] *)
Definition catching (c : Cmd) (handler : M unit) : M unit :=
  ok ← xapi c; if ok : bool then mret tt else handler.

(** A command whose promise is dropped. *)
Definition fire (c : Cmd) : M unit := _ ← xapi c; mret tt.

(** [await monitorCameraStoppedPosition(cameraId)]: the wait lasts until
    the monitor's promise settles, and the clock moves on by as much. *)
Definition await_monitor (cameraId : JsVal) : M Outcome := fun s =>
  match resolution
          (monitorCameraStoppedPosition (failsafe_first W)
             (fun cam t => position W cam (now s + t)) cameraId
             failsafeDebounceTime_for_MainSourceSetOnCameraRampStop) with
  | Some (o, t) => (Returned o, elapse t s)
  | None => (Pending, s)
  end.

(** The three best-effort deactivations that open both activation
    functions. *)
Definition deactivate_tracking : M unit :=
  catching Cameras_SpeakerTrack_Deactivate
    (handleError "Failed to Deactivate Speakertrack" "debug");;
  catching Cameras_SpeakerTrack_Frames_Deactivate
    (handleError "Failed to Deactivate Frames" "debug");;
  catching (Cameras_PresenterTrack_Set "Off")
    (handleError "Failed to Deactivate Presentertrack" "debug").

Definition wait_for_settle (cameraId : JsVal) : M unit :=
  if MainSourceSetOnCameraRampStop (features W) then
    console LDebug "Waiting for Camera Position to Set";;
    _ ← await_monitor cameraId;
    console LDebug "Camera Position Monitoring Stopped"
  else mret tt.

Definition activateCameraPreset (presetInfo : gmap string JsVal) : M unit :=
  update cancel;;
  update (with_bypass true);;
  deactivate_tracking;;
  (if is_undefined (get presetInfo "CameraId")
      || is_undefined (get presetInfo "PresetId")
   then throw else mret tt);;
  console LDebug "Setting Preset";;
  fire (Camera_Preset_Activate (get presetInfo "PresetId"));;
  wait_for_settle (get presetInfo "CameraId");;
  console LDebug "Setting MainSource for Camera Preset";;
  await (Video_Input_SetMainVideoSource (get presetInfo "CameraId"));;
  console LLog "Camera Preset Activated";;
  update (schedule_close
            (failsafeDebounceTime_for_MainSourceSetOnCameraRampStop + 500)).

Definition is_default (p : PresetRecord) : bool :=
  String.eqb (toLowerCase (p_DefaultPosition p)) "true".

(** The [for] loop of [activateDefaultCameraPreset]: the first default
    preset is activated and ends the loop; the answer is [defaultFound]. *)
Fixpoint activate_first_default (l : list PresetRecord) : M bool :=
  match l with
  | [] => mret false
  | p :: rest =>
      if is_default p then
        console LDebug "Default Camera Preset Found, setting preset position";;
        await (Camera_Preset_Activate (p_PresetId p));;
        wait_for_settle (p_CameraId p);;
        console LDebug "Setting MainSource for Default Camera Preset";;
        await (Video_Input_SetMainVideoSource (p_CameraId p));;
        console LLog "Default Camera Preset Activated";;
        mret true
      else activate_first_default rest
  end.

Definition activateDefaultCameraPreset : M unit :=
  update cancel;;
  update (with_bypass true);;
  deactivate_tracking;;
  await Camera_Preset_List;;
  update (with_presets (presets W));;
  defaultFound ← activate_first_default (presets W);
  (if defaultFound : bool then mret tt
   else console LWarn "Unable to find Default Camera Preset");;
  update (schedule_close
            (failsafeDebounceTime_for_MainSourceSetOnCameraRampStop + 100)).
End Macro.

(** ** The subscriptions: [Subscribe] and the handlers added by [init] *)

Inductive Event : Type :=
  | WidgetAction (WidgetId Type_ Value : string)
  | CameraPresetActivated (PresetId CameraId : JsVal)
  | CameraPosition (k : Tick)
  | TrackingStatus (element status : string)
  | CallStatus (Status : string)
  | Elapsed (ms : nat).

Definition manual_object : gmap string JsVal :=
  <["Feature" := JStr "Manual"]> {["Type" := JStr "Automatic"]}.

Definition gate_margin_short : nat :=
  failsafeDebounceTime_for_MainSourceSetOnCameraRampStop + 100.
Definition gate_margin_long : nat :=
  failsafeDebounceTime_for_MainSourceSetOnCameraRampStop + 500.

Section Handlers.
Context {D : Doubles}.
Variable W : World.

(** [buildUserInterface] leaves in [availableCameraTrackingFeatures] the
    tracking features the device reports available, when the
    configuration asks for them. *)
Definition availableCameraTrackingFeatures : list string :=
  if ShowTrackingOptions (features W) then
    (if hasSpeakertrack W then ["Speaker"] else []) ++
    (if hasFrames W then ["Frames"] else []) ++
    (if hasPresenterTrack W then ["Presenter"] else [])
  else [].

(** [switch (data.Feature)] inside the [try] of [WidgetAction]. *)
Definition activate_feature (data : gmap string JsVal) : M unit :=
  let feature := get data "Feature" in
  if is_str feature "Presenter" then
    await W (Cameras_PresenterTrack_Set "Follow");;
    await W Cameras_SpeakerTrack_Deactivate;;
    await W Cameras_SpeakerTrack_Frames_Deactivate
  else if is_str feature "Speaker" then
    await W (Cameras_PresenterTrack_Set "Off");;
    await W Cameras_SpeakerTrack_Activate;;
    await W Cameras_SpeakerTrack_Frames_Deactivate
  else if is_str feature "Frames" then
    await W (Cameras_PresenterTrack_Set "Off");;
    await W Cameras_SpeakerTrack_Activate;;
    await W Cameras_SpeakerTrack_Frames_Activate
  else if is_str feature "Manual" then
    (* params is config...ManualPrompt itself: its Dismiss entry is moved
       to Option.1 and deleted, for this and every later prompt *)
    dismiss ← (fun s => (Returned (manualPromptDismiss s), s));
    update (with_dismiss JUndef);;
    fire W (Message_Prompt_Display dismiss);;
    console LLog "Manual Selection detected, prompting user on Manual Control";;
    value ← (fun s => (Returned (encode (lastPresetSelection s)), s));
    catching W (Widget_SetValue presets_widget value)
      (fire W (Widget_UnsetValue presets_widget);;
       handleError "Failed to Set Widget Value. Cause: WidgetAction>data.Feature Manual" "debug")
  else mret tt.

Definition on_WidgetAction (WidgetId Type_ Value : string) : M unit :=
  if String.eqb Type_ "released" && String.eqb WidgetId presets_widget then
    let parsed := parseKeyValuePairs Value in
    let data := snd parsed in
    update (emits (fst parsed));;
    (if negb (includes "Manual" Value)
     then update (with_selection data) else mret tt);;
    if is_str (get data "Type") "Automatic" then
      update cancel;;
      update (with_bypass true);;
      (if negb (is_str (get data "Feature") "Manual")
       then console LLog "Activating tracking" else mret tt);;
      try_catch (activate_feature data)
        (fire W (Widget_UnsetValue presets_widget);;
         handleError "Failed to activate tracking" "error");;
      update (schedule_close gate_margin_short)
    else if is_str (get data "Type") "Preset" then
      activateCameraPreset W data
    else mret tt
  else mret tt.

Definition on_CameraPresetActivated (PresetId CameraId : JsVal) : M unit :=
  update cancel;;
  update (with_bypass true);;
  await W (Camera_Preset_Show PresetId);;
  catching W
    (Widget_SetValue presets_widget
       ("Type:Preset~CameraId:" +:+ to_string CameraId
        +:+ "~PresetId:" +:+ to_string PresetId
        +:+ "~PresetName:" +:+ to_string (shown_name W PresetId)))
    (handleError "Failed to Set Preset Widget Value on External Preset Selection" "debug");;
  update (schedule_close gate_margin_long).

Definition on_CameraPosition (k : Tick) : M unit := fun s =>
  if negb (presetPositioningBypass s) then
    if (truthy (Pan k) || truthy (Tilt k)) || truthy (Zoom k) then
      (update (with_selection manual_object);;
       catching W (Widget_SetValue presets_widget "Type:Automatic~Feature:Manual")
         (fire W (Widget_UnsetValue presets_widget);;
          handleError "Failed to Set Widget Value. Cause: CameraPosition change" "error")) s
    else (Returned tt, s)
  else (Returned tt, s).

(** The status handlers [init] registers for each element of
    [availableCameraTrackingFeatures]: Presenter reacts to [follow],
    Speaker and Frames to [active]. *)
Definition on_TrackingStatus (element status : string) : M unit :=
  if bool_decide (element ∈ availableCameraTrackingFeatures)
     && String.eqb (toLowerCase status)
          (if String.eqb element "Presenter" then "follow" else "active")
  then
    update cancel;;
    update (with_bypass true);;
    catching W
      (Widget_SetValue presets_widget ("Type:Automatic~Feature:" +:+ element))
      (handleError "Failed to Set Widget Value. Cause: Status Subscription" "debug");;
    update (schedule_close gate_margin_long)
  else mret tt.

(** [Subscribe.CallConnected], present when [OnCallSetDefaultPreset]. *)
Definition on_CallStatus (Status : string) : M unit :=
  if OnCallSetDefaultPreset (features W)
     && (String.eqb Status "Connected" || String.eqb Status "Connecting")
  then activateDefaultCameraPreset W
  else mret tt.

Definition handle (e : Event) : M unit :=
  match e with
  | WidgetAction w t v => on_WidgetAction w t v
  | CameraPresetActivated p c => on_CameraPresetActivated p c
  | CameraPosition k => on_CameraPosition k
  | TrackingStatus el st => on_TrackingStatus el st
  | CallStatus st => on_CallStatus st
  | Elapsed ms => update (elapse ms)
  end.

(** Events are taken one after the other; a handler that throws or never
    settles leaves the state it had reached. *)
Definition run (events : list Event) (s : State) : State :=
  fold_left (fun st e => final (handle e st)) events s.
End Handlers.

(** ** Sample devices and inputs *)

(** A device with the default configuration, the given catalog and verdict
    on each command, and cameras that report no position at all. *)
Definition still_world (ok : Cmd -> bool) (catalog : list PresetRecord) : World :=
  {| features := default_features;
     accepts := fun _ c => ok c;
     presets := catalog;
     shown_name := fun _ => JStr "Room";
     position := fun _ _ => [];
     failsafe_first := true;
     hasSpeakertrack := true;
     hasFrames := true;
     hasPresenterTrack := true |}.

Definition obliging : Cmd -> bool := fun _ => true.

Definition moving_tick : Tick :=
  {| Pan := JNum (Int 5); Tilt := JNum (Int 0); Zoom := JUndef |}.

Definition zero_tick : Tick :=
  {| Pan := JNum (Int 0); Tilt := JNum (Int 0); Zoom := JNum (Int 0) |}.

Definition manual_payload : string := "Type:Automatic~Feature:Manual".

(** Position feeds: one movement in millisecond 10 and nothing else; and
    nothing at all. *)
Definition nudge : JsVal -> nat -> list Tick :=
  fun _ t => if t =? 10 then [moving_tick] else [].

Definition silence : JsVal -> nat -> list Tick := fun _ _ => [].

(** An all-zero update in every millisecond, for ever. *)
Definition zeros : JsVal -> nat -> list Tick := fun _ _ => [zero_tick].

(** A device that refuses to switch the main video source. *)
Definition no_source_switch : Cmd -> bool := fun c =>
  match c with
  | Video_Input_SetMainVideoSource _ => false
  | _ => true
  end.

(** A device that refuses every value pushed to a widget. *)
Definition no_widget_value : Cmd -> bool := fun c =>
  match c with
  | Widget_SetValue _ _ => false
  | _ => true
  end.

(** The commands that change what the cameras do. *)
Definition hardware_mutation (c : Cmd) : bool :=
  match c with
  | Cameras_SpeakerTrack_Activate
  | Cameras_SpeakerTrack_Deactivate
  | Cameras_SpeakerTrack_Frames_Activate
  | Cameras_SpeakerTrack_Frames_Deactivate
  | Cameras_PresenterTrack_Set _
  | Camera_Preset_Activate _
  | Video_Input_SetMainVideoSource _ => true
  | _ => false
  end.

Definition room_preset : PresetRecord :=
  {| p_CameraId := JStr "1"; p_PresetId := JStr "3"; p_Name := "Room";
     p_DefaultPosition := "False" |}.

(** ** Predicates used in the proofs *)

(** What is known of the monitor after millisecond [n]: while the promise
    is unsettled the failsafe is pending, the subscription is live and an
    armed idle timer lies ahead; once settled, it settled by the failsafe
    length, and a timeout settled exactly then. *)
Definition settle_inv (n : nat) (m : Monitor) : Prop :=
  match resolution m with
  | None =>
      n < failsafeDebounceTime_for_MainSourceSetOnCameraRampStop
      /\ failsafe_run m
         = Some failsafeDebounceTime_for_MainSourceSetOnCameraRampStop
      /\ subscribed m = true
      /\ (forall d, debounce_run m = Some d -> n < d)
      /\ ~ In Unsubscribe (actions m)
  | Some (o, t) =>
      t <= n
      /\ t <= failsafeDebounceTime_for_MainSourceSetOnCameraRampStop
      /\ (o = TimedOut ->
          t = failsafeDebounceTime_for_MainSourceSetOnCameraRampStop)
  end.

(** A computation that never changes the remembered selection. *)
Definition keeps_selection {A : Type} (m : M A) : Prop :=
  forall s, lastPresetSelection (final (m s)) = lastPresetSelection s.

Definition room_payload : string :=
  "Type:Preset~CameraId:1~PresetId:3~PresetName:Room".

(** ** Well-formed encoded selections

    The values the panel is built with ([buildUserInterface]): the type
    first, then the fields in their fixed order, every value a non-empty
    text free of [~] and [:]. *)

Definition plain_value (v : string) : bool :=
  negb (String.eqb v "") && forallb (fun c => negb (is_separator c)) (chars v).

Definition automatic_value (feature : string) : string :=
  "Type:Automatic~Feature:" +:+ feature.

Definition preset_value (cameraId presetId presetName : string) : string :=
  "Type:Preset~CameraId:" +:+ cameraId
  +:+ "~PresetId:" +:+ presetId
  +:+ "~PresetName:" +:+ presetName.

Inductive WellFormed : string -> Prop :=
  | wf_automatic (feature : string) :
      plain_value feature = true ->
      WellFormed (automatic_value feature)
  | wf_preset (cameraId presetId presetName : string) :
      plain_value cameraId = true ->
      plain_value presetId = true ->
      plain_value presetName = true ->
      WellFormed (preset_value cameraId presetId presetName).

(** The values of the key:value pairs of an encoded selection. *)
Definition values_of (s : string) : list string :=
  omap (fun element => head (tail (split ":" element))) (split "~" s).

(** A value that [isNaN(v) ? v : Number(v)] followed by a template literal
    gives back unchanged: a text that is not numeric, or the very text a
    number prints as. *)
Definition canonical `{D : Doubles} (v : string) : bool :=
  String.eqb (to_string (coerce (Some v))) v.

Definition padded_preset : string :=
  "Type:Preset~CameraId:2~PresetId:3~PresetName:007".

(** What the parser's regular expression looks for, stated without any
    matching strategy: somewhere in the text, a non-empty key and a
    non-empty value, both free of [~] and [:], joined by [:] and followed
    by [~] or by the end of the text. *)
Definition plain_run (l : list ascii) : Prop :=
  l <> [] /\ forallb (fun c => negb (is_separator c)) l = true.

Definition has_pair (l : list ascii) : Prop :=
  exists before key value after,
    l = before ++ key ++ ":"%char :: value ++ after
    /\ plain_run key /\ plain_run value
    /\ (after = [] \/ exists rest, after = "~"%char :: rest).

(** ** Truth of a value, read off the value

    What JavaScript counts as false: [undefined], the number zero, a double
    that is zero or not a number, and the empty text.  Everything else
    counts as true, and so does the text [0]. *)

Inductive Falsy `{D : Doubles} : JsVal -> Prop :=
  | falsy_undefined : Falsy JUndef
  | falsy_zero : Falsy (JNum (Int 0))
  | falsy_double (lit : string) :
      double_truthy lit = false -> Falsy (JNum (Dbl lit))
  | falsy_empty : Falsy (JStr "").

Inductive Truthy `{D : Doubles} : JsVal -> Prop :=
  | truthy_integer (z : Z) : z <> 0%Z -> Truthy (JNum (Int z))
  | truthy_double (lit : string) :
      double_truthy lit = true -> Truthy (JNum (Dbl lit))
  | truthy_text (s : string) : s <> "" -> Truthy (JStr s).

(** A position update none of whose components counts as true, and one
    with a component that does. *)
Definition all_falsy `{D : Doubles} (k : Tick) : Prop :=
  Falsy (Pan k) /\ Falsy (Tilt k) /\ Falsy (Zoom k).

Definition some_truthy `{D : Doubles} (k : Tick) : Prop :=
  Truthy (Pan k) \/ Truthy (Tilt k) \/ Truthy (Zoom k).

(** An all-zero update whose components are delivered as text. *)
Definition text_zero_tick : Tick :=
  {| Pan := JStr "0"; Tilt := JStr "0"; Zoom := JStr "0" |}.

(** One such update in millisecond 10 and nothing else. *)
Definition text_zero_once : JsVal -> nat -> list Tick :=
  fun _ t => if t =? 10 then [text_zero_tick] else [].



(** The camera reported, in millisecond [t], an update with a component
    that counts as true. *)
Definition moves `{D : Doubles} (position : JsVal -> nat -> list Tick)
    (cameraId : JsVal) (t : nat) : Prop :=
  exists k, In k (position cameraId t) /\ some_truthy k.

(** ** Further predicates on the settle monitor *)

(** How many times the monitor really unsubscribed. *)
Definition unsubscribes (l : list MonitorAction) : nat :=
  length (List.filter
            (fun a => match a with Unsubscribe => true | _ => false end) l).

(** The camera reported a movement in millisecond [t]. *)
Definition moved `{D : Doubles} (position : JsVal -> nat -> list Tick)
    (cameraId : JsVal) (t : nat) : Prop :=
  exists k, In k (position cameraId t) /\ at_rest k = false.

(** An armed idle timer was armed by a movement a full idle length before
    it is due; a wait resolved as stopped resolved an idle length after a
    movement and left neither timer nor subscription; the subscription is
    live until its one unsubscribe. *)
Definition settle_trace_inv `{D : Doubles}
    (position : JsVal -> nat -> list Tick) (cameraId : JsVal)
    (n : nat) (m : Monitor) : Prop :=
  (forall d, debounce_run m = Some d ->
     exists t0, t0 <= n /\ d = t0 + debounce_length
                /\ moved position cameraId t0)
  /\ (forall t, resolution m = Some (Stopped, t) ->
        (exists t0, t = t0 + debounce_length /\ moved position cameraId t0)
        /\ subscribed m = false
        /\ failsafe_run m = None
        /\ debounce_run m = None)
  /\ unsubscribes (actions m) = (if subscribed m then 0 else 1).

(** While the camera keeps moving: the promise is unsettled and the idle
    timer, if armed, was armed by the latest movement so far. *)
Definition restless_inv `{D : Doubles}
    (position : JsVal -> nat -> list Tick) (cameraId : JsVal)
    (n : nat) (m : Monitor) : Prop :=
  resolution m = None
  /\ (debounce_run m = None
      \/ exists t0, t0 <= n
                    /\ debounce_run m = Some (t0 + debounce_length)
                    /\ forall t, t0 < t <= n -> ~ moved position cameraId t).

(** ** Further sample inputs *)

(** A camera that reports movement in every millisecond. *)
Definition busy : JsVal -> nat -> list Tick := fun _ _ => [moving_tick].

Definition default_preset : PresetRecord :=
  {| p_CameraId := JStr "2"; p_PresetId := JStr "7"; p_Name := "Stage";
     p_DefaultPosition := "True" |}.

Definition second_default : PresetRecord :=
  {| p_CameraId := JStr "1"; p_PresetId := JStr "9"; p_Name := "Hall";
     p_DefaultPosition := "true" |}.

(** ** Further predicates on the macro's state *)

(** At most one close timer is pending, and it is the one the handler
    variable names. *)
Definition tidy (s : State) : Prop :=
  timers s = []
  \/ exists h due, timers s = [(h, due)]
                   /\ presetPositioningBypassHandler s = Some h.

Definition idle (s : State) : Prop := timers s = [].

(** A computation that takes any state satisfying [P] to one satisfying
    [Q], however it ends. *)
Definition triple {A : Type} (P : State -> Prop) (m : M A)
    (Q : State -> Prop) : Prop :=
  forall s, P s -> Q (final (m s)).

(** The three commands by which [WidgetAction] engages a tracking feature. *)
Definition feature_commands (feature : string) : list Cmd :=
  if String.eqb feature "Presenter" then
    [Cameras_PresenterTrack_Set "Follow";
     Cameras_SpeakerTrack_Deactivate;
     Cameras_SpeakerTrack_Frames_Deactivate]
  else if String.eqb feature "Speaker" then
    [Cameras_PresenterTrack_Set "Off";
     Cameras_SpeakerTrack_Activate;
     Cameras_SpeakerTrack_Frames_Deactivate]
  else if String.eqb feature "Frames" then
    [Cameras_PresenterTrack_Set "Off";
     Cameras_SpeakerTrack_Activate;
     Cameras_SpeakerTrack_Frames_Activate]
  else [].

(** The selection object of a preset. *)
Definition preset_object (cameraId presetId presetName : JsVal)
    : gmap string JsVal :=
  <["PresetName" := presetName]>
    (<["PresetId" := presetId]>
       (<["CameraId" := cameraId]> {["Type" := JStr "Preset"]})).

(** The key and the value [assign_pair] takes from an element. *)
Definition key_of (element : string) : string :=
  default "" (head (split ":" element)).

Definition value_of (element : string) : option string :=
  head (tail (split ":" element)).

(** The property names that [Object.prototype] defines (ECMAScript, annex B
    included).  The objects of this development are finite maps without a
    prototype: on a real object a read of one of these names finds the
    inherited member when the object has none of its own, and an assignment
    of a text or a number to [__proto__] creates no property. *)
Definition prototype_key (k : string) : bool :=
  existsb (String.eqb k)
    ["__proto__"; "constructor"; "hasOwnProperty"; "isPrototypeOf";
     "propertyIsEnumerable"; "toLocaleString"; "toString"; "valueOf";
     "__defineGetter__"; "__defineSetter__"; "__lookupGetter__";
     "__lookupSetter__"].

(** ** The subscription registry: [Subscribe], [StartSubscriptions], [init]

    [Subscribe] is an object of named functions.  What matters of a
    function is whether it is still the one that subscribes to the device
    or the replacement [StartSubscriptions] leaves behind, which only
    warns.  The names are ASCII, so the byte order of [String.le] is the
    order of [Array.prototype.sort]. *)

Inductive Starter : Type := Fresh | Spent.

#[global] Instance Starter_eq_dec : EqDecision Starter.
Proof. solve_decision. Defined.

Inductive Notice : Type :=
  | Started (name : string)
  | AlreadyActive (name : string)
  | SubscriptionsSet (Total_Subs : nat) (Active_Subs : string).

(** [Array.prototype.join]. *)
Fixpoint join (separator : string) (l : list string) : string :=
  match l with
  | [] => ""
  | [x] => x
  | x :: rest => x +:+ separator +:+ join separator rest
  end.

(** [Object.getOwnPropertyNames(Subscribe)] followed by [sort()]. *)
Definition sorted_names (reg : gmap string Starter) : list string :=
  merge_sort String.le (map_to_list reg).*1.

(** What calling the function under a name does: the original subscribes,
    the replacement warns. *)
Definition notice (reg : gmap string Starter) (element : string)
    : list Notice :=
  match reg !! element with
  | Some Fresh => [Started element]
  | Some Spent => [AlreadyActive element]
  | None => []
  end.

(** The body of the [forEach]: call the function under the name, then
    replace it.  Every name met is the registry's own, so the call finds a
    function. *)
Definition start_element (acc : gmap string Starter * list Notice)
    (element : string) : gmap string Starter * list Notice :=
  let '(reg, out) := acc in
  (<[element := Spent]> reg,
   out ++ notice reg element).

Definition StartSubscriptions (reg : gmap string Starter)
    : gmap string Starter * list Notice :=
  let subs := sorted_names reg in
  let '(reg', out) := fold_left start_element subs (reg, []) in
  (reg', out ++ [SubscriptionsSet (length subs) (join ", " subs)]).

(** The object literal [Subscribe]. *)
Definition Subscribe : gmap string Starter :=
  list_to_map
    [("WidgetAction", Fresh); ("CameraPresetActivated", Fresh);
     ("CameraPresetListUpdated", Fresh); ("CameraPosition", Fresh);
     ("AllConfigurations", Fresh)].

(** The [switch (element)] of [init]. *)
Definition tracking_subscription (element : string) : option string :=
  if String.eqb element "Presenter" then Some "CamerasPresenterTrackStatus"
  else if String.eqb element "Speaker" then Some "CamerasSpeakerTrackStatus"
  else if String.eqb element "Frames"
       then Some "CamerasSpeakerTrackFramesStatus"
  else None.

Definition register_tracking (reg : gmap string Starter) (element : string)
    : gmap string Starter :=
  match tracking_subscription element with
  | Some name => <[name := Fresh]> reg
  | None => reg
  end.

(** The registry [init] hands to [StartSubscriptions], given the tracking
    features [buildUserInterface] left. *)
Definition init_registry (W : World) (tracking : list string)
    : gmap string Starter :=
  fold_left register_tracking tracking
    (if OnCallSetDefaultPreset (features W)
     then <["CallConnected" := Fresh]> Subscribe
     else Subscribe).

Definition init_subscriptions (W : World) : list Notice :=
  snd (StartSubscriptions (init_registry W (availableCameraTrackingFeatures W))).

(** ** The panel: [buildUserInterface]

    The function reads the preset catalog and the availability of the
    three tracking features, updates [availableCameraTrackingFeatures] and
    saves one panel.  Its parts are followed here as functions of what it
    read; the text it saves is the panel's XML, byte for byte. *)

(** The texts and properties of [config.UserInterface.Panel]. *)
Record UserInterface : Type := {
  Properties_Color : string;
  Properties_Order : JsVal;
  Properties_Location : string;
  Properties_Icon : string;
  Text_Name : string;
  Page_Infobox : string;
  Modes_Presenter : string;
  Modes_Speaker : string;
  Modes_Frames : string;
  Modes_Manual : string;
  Preset_DefaultIndicator : string
}.

Definition config_UserInterface : UserInterface :=
  {| Properties_Color := "#1170CF";
     Properties_Order := JNum (Int 1);
     Properties_Location := "HomeScreenAndCallControls";
     Properties_Icon := "Camera";
     Text_Name := "Camera Presets";
     Page_Infobox := "Select a Camera Preset from the list below";
     Modes_Presenter := "Presenter 🔀";
     Modes_Speaker := "Speaker 🔀";
     Modes_Frames := "Frames 🔀";
     Modes_Manual := "Manual 🔧";
     Preset_DefaultIndicator := "✪" |}.

(** [Array.prototype.indexOf], for an item the array holds. *)
Fixpoint indexOf (item : string) (l : list string) : nat :=
  match l with
  | [] => 0
  | x :: rest => if String.eqb x item then 0 else S (indexOf item rest)
  end.

(** [l.filter((item, index) => whole.indexOf(item) === index)], where [l]
    is what is left of [whole] from [index] on. *)
Fixpoint first_occurrences (whole : list string) (index : nat)
    (l : list string) : list string :=
  match l with
  | [] => []
  | item :: rest =>
      if indexOf item whole =? index
      then item :: first_occurrences whole (S index) rest
      else first_occurrences whole (S index) rest
  end.

(** What the three [push]es append. *)
Definition pushed (W : World) : list string :=
  (if hasSpeakertrack W then ["Speaker"] else []) ++
  (if hasFrames W then ["Frames"] else []) ++
  (if hasPresenterTrack W then ["Presenter"] else []).

(** [availableCameraTrackingFeatures] after a build that found it as
    [before]. *)
Definition track_features (W : World) (before : list string) : list string :=
  if ShowTrackingOptions (features W) then
    let all := before ++ pushed W in
    first_occurrences all 0 all
  else before.

Definition nl : string := String (ascii_of_nat 10) "".

(** [String.prototype.replaceAll('#', '')]. *)
Definition strip_hash (s : string) : string :=
  text (List.filter (fun c => negb (Ascii.eqb c "#")) (chars s)).

Section Panel.
Context `{D : Doubles}.
Variable config : UserInterface.
Variable W : World.

(** One [<Value>] of the group. *)
Definition value_xml (key name : string) : string :=
  "<Value>" +:+ nl +:+
  "      <Key>" +:+ key +:+ "</Key>" +:+ nl +:+
  "      <Name>" +:+ name +:+ "</Name>" +:+ nl +:+
  "    </Value>".

Definition preset_key (preset : PresetRecord) : string :=
  "Type:Preset~CameraId:" +:+ to_string (p_CameraId preset)
  +:+ "~PresetId:" +:+ to_string (p_PresetId preset)
  +:+ "~PresetName:" +:+ p_Name preset.

Definition preset_label (preset : PresetRecord) : string :=
  p_Name preset
  +:+ (if String.eqb (toLowerCase (p_DefaultPosition preset)) "true"
       then " " +:+ Preset_DefaultIndicator config else "").

(** [presetGroupButtonXML], as the function grows it. *)
Definition presetGroupButtonXML : string :=
  let x := value_xml "Type:Automatic~Feature:Manual" (Modes_Manual config) in
  let x :=
    if ShowTrackingOptions (features W) then
      let x := if hasSpeakertrack W
               then x +:+ value_xml "Type:Automatic~Feature:Speaker"
                            (Modes_Speaker config)
               else x in
      let x := if hasFrames W
               then x +:+ value_xml "Type:Automatic~Feature:Frames"
                            (Modes_Frames config)
               else x in
      if hasPresenterTrack W
      then x +:+ value_xml "Type:Automatic~Feature:Presenter"
                   (Modes_Presenter config)
      else x
    else x in
  fold_left
    (fun x preset => x +:+ value_xml (preset_key preset) (preset_label preset))
    (presets W) x.

Definition group_row : string :=
  "<Row>" +:+ nl +:+
  "        <Name>Select Preset</Name>" +:+ nl +:+
  "        <Widget>" +:+ nl +:+
  "          <WidgetId>camPresets~PresetList~Presets</WidgetId>" +:+ nl +:+
  "          <Type>GroupButton</Type>" +:+ nl +:+
  "          <Options>size=4;columns=1</Options>" +:+ nl +:+
  "          <ValueSpace>" +:+ nl +:+
  "            " +:+ presetGroupButtonXML +:+ nl +:+
  "          </ValueSpace>" +:+ nl +:+
  "        </Widget>" +:+ nl +:+
  "      </Row>".

Definition text_row : string :=
  "<Row>" +:+ nl +:+
  "          <Name>Select Preset</Name>" +:+ nl +:+
  "            <Widget>" +:+ nl +:+
  "              <WidgetId>camPresets~PresetList~Presets</WidgetId>" +:+ nl +:+
  "              <Name>No Camera Presets found, create a few using the Native Camera Menu and they will populate here</Name>" +:+ nl +:+
  "              <Type>Text</Type>" +:+ nl +:+
  "              <Options>size=4;fontSize=normal;align=center</Options>" +:+ nl +:+
  "            </Widget>" +:+ nl +:+
  "        </Row>".

(** [presetRowXml], given the tracking features found before the build. *)
Definition presetRowXml (before : list string) : string :=
  let availableSelections :=
    length (presets W) + length (track_features W before) in
  if 1 <? availableSelections then group_row else text_row.

Definition panelXml (before : list string) : string :=
  "<Extensions>" +:+ nl +:+
  "  <Panel>" +:+ nl +:+
  "    <Order>" +:+ to_string (Properties_Order config) +:+ "</Order>" +:+ nl +:+
  "    <Origin>local</Origin>" +:+ nl +:+
  "    <Location>" +:+ Properties_Location config +:+ "</Location>" +:+ nl +:+
  "    <Icon>" +:+ Properties_Icon config +:+ "</Icon>" +:+ nl +:+
  "    <Color>#" +:+ strip_hash (Properties_Color config) +:+ "</Color>" +:+ nl +:+
  "    <Name>" +:+ Text_Name config +:+ "</Name>" +:+ nl +:+
  "    <ActivityType>Custom</ActivityType>" +:+ nl +:+
  "    <Page>" +:+ nl +:+
  "      <Name>Preset List</Name>" +:+ nl +:+
  "      <Row>" +:+ nl +:+
  "        <Name>Info</Name>" +:+ nl +:+
  "        <Widget>" +:+ nl +:+
  "          <WidgetId>camPresets~PresetList~Info</WidgetId>" +:+ nl +:+
  "          <Name>" +:+ Page_Infobox config +:+ "</Name>" +:+ nl +:+
  "          <Type>Text</Type>" +:+ nl +:+
  "          <Options>size=4;fontSize=normal;align=center</Options>" +:+ nl +:+
  "        </Widget>" +:+ nl +:+
  "      </Row>" +:+ nl +:+
  "      " +:+ presetRowXml before +:+ nl +:+
  "      <PageId>camPresets~PresetList</PageId>" +:+ nl +:+
  "      <Options>hideRowNames=1</Options>" +:+ nl +:+
  "    </Page>" +:+ nl +:+
  "  </Panel>" +:+ nl +:+
  "</Extensions>".
End Panel.

(** The entries of the group, in the order of the panel: Manual, the
    tracking features now available, the presets of the catalog. *)
Definition panel_entries `{D : Doubles} (config : UserInterface) (W : World)
    : list (string * string) :=
  [("Type:Automatic~Feature:Manual", Modes_Manual config)]
  ++ (if ShowTrackingOptions (features W) then
        (if hasSpeakertrack W
         then [("Type:Automatic~Feature:Speaker", Modes_Speaker config)]
         else [])
        ++ (if hasFrames W
            then [("Type:Automatic~Feature:Frames", Modes_Frames config)]
            else [])
        ++ (if hasPresenterTrack W
            then [("Type:Automatic~Feature:Presenter", Modes_Presenter config)]
            else [])
      else [])
  ++ map (fun preset => (preset_key preset, preset_label config preset))
       (presets W).

(** The [<Value>] elements of some entries, one after the other. *)
Definition values_xml (entries : list (string * string)) : string :=
  fold_right (fun entry rest => value_xml (fst entry) (snd entry) +:+ rest)
    "" entries.

(** A device with two presets, the second of them a default. *)
Definition two_presets : World :=
  still_world obliging [room_preset; default_preset].

(** * Properties *)

Lemma handleError_debug (context : string) :
  handleError context "debug" = console LDebug context.
Proof. reflexivity. Qed.

Lemma handleError_error (context : string) :
  handleError context "error" = console LError context.
Proof. reflexivity. Qed.

(** Unfolds the monadic plumbing down to state transformers. *)
Ltac monad_unfold :=
  rewrite ?handleError_debug, ?handleError_error;
  unfold catching, await, fire, xapi, console, update, throw, try_catch,
    mbind, M_bind, mret, M_ret, final, outcome in *.

Lemma commands_call (c : Cmd) (effects : list Effect) :
  commands (Call c :: effects) = commands effects ++ [c].
Proof.
  unfold commands. cbn [rev]. now rewrite omap_app.
Qed.

Lemma commands_console (level : Level) (message : string)
    (effects : list Effect) :
  commands (Console level message :: effects) = commands effects.
Proof.
  unfold commands. cbn [rev]. rewrite omap_app. cbn. apply app_nil_r.
Qed.

(** Reads the commands off a state built by the primitives. *)
Ltac read_calls :=
  unfold calls;
  cbn [trace emit emits fold_right with_selection with_bypass with_dismiss
       with_presets cancel schedule_close elapse];
  repeat (rewrite commands_call || rewrite commands_console);
  rewrite <- ?app_assoc;
  cbn [app].

(** ** The truth test against the values *)

Section Truth.
Context {D : Doubles}.

Lemma truthy_Truthy (v : JsVal) : truthy v = true <-> Truthy v.
Proof.
  split.
  - destruct v as [|[z|lit]|s]; cbn [truthy]; intros test.
    + discriminate test.
    + apply truthy_integer. intros ->. discriminate test.
    + now apply truthy_double.
    + apply truthy_text. intros ->. discriminate test.
  - intros [z nonzero | lit test | s nonempty]; cbn [truthy].
    + apply negb_true_iff. now apply Z.eqb_neq.
    + exact test.
    + apply negb_true_iff. now apply String.eqb_neq.
Qed.

Lemma truthy_Falsy (v : JsVal) : truthy v = false <-> Falsy v.
Proof.
  split.
  - destruct v as [|[z|lit]|s]; cbn [truthy]; intros test.
    + constructor.
    + apply negb_false_iff, Z.eqb_eq in test. subst z. constructor.
    + now constructor.
    + apply negb_false_iff, String.eqb_eq in test. subst s. constructor.
  - intros [| |lit test|]; cbn [truthy]; auto.
Qed.

Lemma at_rest_all_falsy (k : Tick) : at_rest k = true <-> all_falsy k.
Proof.
  unfold at_rest, all_falsy.
  rewrite <- !truthy_Falsy, !andb_true_iff, !negb_true_iff. tauto.
Qed.

Lemma at_rest_some_truthy (k : Tick) : at_rest k = false <-> some_truthy k.
Proof.
  unfold at_rest, some_truthy. rewrite <- !truthy_Truthy.
  destruct (truthy (Pan k)), (truthy (Tilt k)), (truthy (Zoom k)); cbn;
    intuition discriminate.
Qed.
End Truth.

(** ** Raw camera movement and the suppression gate *)

Section Movement.
Context {D : Doubles}.
Variable W : World.

Lemma on_CameraPosition_gated (s : State) (k : Tick) :
  presetPositioningBypass s = true ->
  on_CameraPosition W k s = (Returned tt, s).
Proof.
  intros gate. unfold on_CameraPosition. now rewrite gate.
Qed.

Lemma on_CameraPosition_at_rest (s : State) (k : Tick) :
  at_rest k = true ->
  on_CameraPosition W k s = (Returned tt, s).
Proof.
  unfold at_rest, on_CameraPosition. intros rest.
  destruct (truthy (Pan k)), (truthy (Tilt k)), (truthy (Zoom k));
    try discriminate rest.
  now destruct (presetPositioningBypass s).
Qed.

(** What a movement does when the gate is shut: Manual is recorded and
    pushed, and the control is unset when the push is rejected. *)
Lemma on_CameraPosition_moving (s : State) (k : Tick) :
  presetPositioningBypass s = false ->
  at_rest k = false ->
  on_CameraPosition W k s =
    (Returned tt,
     let pushed :=
       emit (Call (Widget_SetValue presets_widget "Type:Automatic~Feature:Manual"))
            (with_selection manual_object s) in
     if accepts W (trace s)
          (Widget_SetValue presets_widget "Type:Automatic~Feature:Manual")
     then pushed
     else emit (Console LError "Failed to Set Widget Value. Cause: CameraPosition change")
            (emit (Call (Widget_UnsetValue presets_widget)) pushed)).
Proof.
  unfold at_rest, on_CameraPosition. intros gate moving. rewrite gate.
  assert (truthy (Pan k) || truthy (Tilt k) || truthy (Zoom k) = true) as ->.
  { destruct (truthy (Pan k)), (truthy (Tilt k)), (truthy (Zoom k));
      try reflexivity; discriminate moving. }
  monad_unfold. cbn. now destruct (accepts W (trace s) _).
Qed.
End Movement.

(** C4.  While the suppression gate is active, no sequence of raw
    camera-movement events changes anything: the recorded selection stays
    what it was (it does not become Manual) and nothing is pushed to the
    control, the whole state, trace of commands included, being unchanged. *)
Theorem gate_suppresses_movement `{D : Doubles} (W : World) (s : State)
    (ticks : list Tick) :
  presetPositioningBypass s = true ->
  run W (map CameraPosition ticks) s = s.
Proof.
  intros gate. induction ticks as [|k ticks IH]; [reflexivity|].
  cbn [map run fold_left handle].
  rewrite on_CameraPosition_gated by exact gate. exact IH.
Qed.

Lemma gate_suppresses_movement_witness :
  run (D := literal_doubles)
      (still_world obliging [])
      (map CameraPosition [moving_tick; zero_tick; moving_tick])
      (with_bypass true init_state)
  = with_bypass true init_state.
Proof.
  apply gate_suppresses_movement. reflexivity.
Defined.

(** C10, as amended.  What makes a position update count is JavaScript
    truth, not the number zero.  An update whose Pan, Tilt and Zoom all count
    as false (the number zero, an absent component, the empty text) changes
    nothing at all, whatever the gate.  With the gate inactive, an update
    with a component that counts as true (a number other than zero, or any
    non-empty text, the text [0] included) records Manual and pushes it to
    the control, unsetting the control when the push is rejected.  And an
    update that changes anything found the gate inactive and carries such a
    component. *)
Theorem zero_tick_is_ignored `{D : Doubles} (W : World) (s : State) (k : Tick) :
  (all_falsy k -> handle W (CameraPosition k) s = (Returned tt, s))
  /\ (presetPositioningBypass s = false ->
      some_truthy k ->
      let r := handle W (CameraPosition k) s in
      outcome r = Returned tt
      /\ lastPresetSelection (final r) = manual_object
      /\ calls (final r)
         = calls s
           ++ Widget_SetValue presets_widget manual_payload
              :: (if accepts W (trace s)
                       (Widget_SetValue presets_widget manual_payload)
                  then [] else [Widget_UnsetValue presets_widget]))
  /\ (handle W (CameraPosition k) s <> (Returned tt, s) ->
      presetPositioningBypass s = false /\ some_truthy k).
Proof.
  split; [|split].
  - intros still. cbn [handle].
    now apply on_CameraPosition_at_rest, at_rest_all_falsy.
  - intros gate moving. cbn [handle].
    apply at_rest_some_truthy in moving.
    rewrite (on_CameraPosition_moving W s k gate moving).
    unfold outcome, final, manual_payload. cbn [fst snd].
    split; [reflexivity|].
    destruct (accepts W (trace s) _); (split; [reflexivity|]);
      now read_calls.
  - cbn [handle]. intros changed. split.
    + destruct (presetPositioningBypass s) eqn:gate; [|reflexivity].
      now rewrite on_CameraPosition_gated in changed.
    + apply at_rest_some_truthy. destruct (at_rest k) eqn:rest; [|reflexivity].
      now rewrite on_CameraPosition_at_rest in changed.
Qed.

Lemma zero_tick_is_ignored_witness :
  handle (D := literal_doubles) (still_world obliging [])
    (CameraPosition zero_tick) init_state
  = (Returned tt, init_state)
  /\ lastPresetSelection
       (final (handle (D := literal_doubles) (still_world obliging [])
                 (CameraPosition moving_tick) init_state))
     = manual_object.
Proof.
  destruct (zero_tick_is_ignored (D := literal_doubles)
              (still_world obliging []) init_state zero_tick)
    as (ignored & _ & _).
  destruct (zero_tick_is_ignored (D := literal_doubles)
              (still_world obliging []) init_state moving_tick)
    as (_ & recorded & _).
  split.
  - apply ignored. repeat split; apply falsy_zero.
  - apply recorded; [reflexivity|].
    left. apply truthy_integer. lia.
Defined.

(** C10, as stated, fails: an update whose Pan, Tilt and Zoom are all zero,
    delivered as text, reaches the handler with the gate inactive; it is
    taken for a movement, Manual is recorded and pushed to the control. *)
Lemma text_zero_tick_is_recorded :
  let r := handle (D := literal_doubles) (still_world obliging [])
             (CameraPosition text_zero_tick) init_state in
  lastPresetSelection (final r) = manual_object
  /\ calls (final r) = [Widget_SetValue presets_widget manual_payload]
  /\ r <> (Returned tt, init_state).
Proof.
  vm_compute. repeat split. discriminate.
Qed.

(** The handler's test is JavaScript truth, not a numeric comparison: a
    component absent from the update is at rest like the number zero, while
    a component delivered as the text [0] counts as movement. *)
Remark truthy_is_not_numeric :
  truthy (D := literal_doubles) JUndef = false
  /\ truthy (D := literal_doubles) (JNum (Int 0)) = false
  /\ truthy (D := literal_doubles) (JStr "0") = true.
Proof. repeat split. Qed.

(** ** The settle monitor *)

Section SettleFacts.
Context {D : Doubles}.

Lemma on_position_keeps (now : nat) (m : Monitor) (k : Tick) :
  resolution (on_position now m k) = resolution m
  /\ subscribed (on_position now m k) = subscribed m
  /\ failsafe_run (on_position now m k) = failsafe_run m
  /\ (In Unsubscribe (actions (on_position now m k))
      <-> In Unsubscribe (actions m)).
Proof.
  unfold on_position.
  destruct (subscribed m) eqn:sub, (at_rest k); cbn; repeat split; auto;
    try (intros [? | ?]; auto; discriminate).
Qed.

Lemma deliver_keeps (now : nat) (updates : list Tick) (m : Monitor) :
  let m' := fold_left (on_position now) updates m in
  resolution m' = resolution m
  /\ subscribed m' = subscribed m
  /\ failsafe_run m' = failsafe_run m
  /\ (In Unsubscribe (actions m') <-> In Unsubscribe (actions m)).
Proof.
  revert m. induction updates as [|k updates IH]; intros m; cbn.
  - repeat split; auto.
  - destruct (IH (on_position now m k)) as (r & sub & f & a).
    destruct (on_position_keeps now m k) as (r' & sub' & f' & a').
    repeat split; try congruence; intros ?; tauto.
Qed.

(** The idle timer is either left alone or re-armed a full length ahead. *)
Lemma deliver_debounce (now : nat) (updates : list Tick) (m : Monitor) :
  let m' := fold_left (on_position now) updates m in
  debounce_run m' = debounce_run m
  \/ debounce_run m' = Some (now + debounce_length).
Proof.
  revert m. induction updates as [|k updates IH]; intros m; cbn.
  - now left.
  - destruct (IH (on_position now m k)) as [same | armed]; [|now right].
    cbn in same. rewrite same. unfold on_position.
    destruct (subscribed m), (at_rest k); cbn; auto.
Qed.

Lemma deliver_at_rest (now : nat) (updates : list Tick) (m : Monitor) :
  (forall k, In k updates -> at_rest k = true) ->
  fold_left (on_position now) updates m = m.
Proof.
  revert m. induction updates as [|k updates IH]; intros m rest; cbn.
  - reflexivity.
  - assert (on_position now m k = m) as ->.
    { unfold on_position. rewrite (rest k) by now left.
      now destruct (subscribed m). }
    apply IH. intros k' ?. apply rest. now right.
Qed.

Lemma deliver_moving (now : nat) (updates : list Tick) (m : Monitor) :
  subscribed m = true ->
  (exists k, In k updates /\ at_rest k = false) ->
  debounce_run (fold_left (on_position now) updates m)
  = Some (now + debounce_length).
Proof.
  revert m. induction updates as [|k updates IH]; intros m sub (k' & isin & moving).
  - destruct isin.
  - cbn. destruct isin as [-> | isin].
    + destruct (deliver_debounce now updates (on_position now m k'))
        as [same | armed]; [|exact armed].
      cbn in same. rewrite same. unfold on_position.
      now rewrite sub, moving.
    + apply IH; [|now exists k'].
      now rewrite (proj1 (proj2 (on_position_keeps now m k))).
Qed.

Lemma fire_due_resolved (ff : bool) (now : nat) (m : Monitor)
    (r : Outcome * nat) :
  resolution m = Some r -> resolution (fire_due ff now m) = Some r.
Proof.
  intros res. unfold fire_due.
  destruct (is_due (failsafe_run m) now), (is_due (debounce_run m) now), ff;
    cbn; now rewrite ?res.
Qed.

Lemma millisecond_inv (ff : bool) (n : nat) (updates : list Tick)
    (m : Monitor) :
  settle_inv n m -> settle_inv (S n) (millisecond ff (S n) updates m).
Proof.
  unfold settle_inv, millisecond. intros inv.
  destruct (deliver_keeps (S n) updates (fire_due ff (S n) m))
    as (res & sub & fs & act).
  pose proof (deliver_debounce (S n) updates (fire_due ff (S n) m)) as deb.
  cbn in res, sub, fs, deb, act. rewrite res, sub, fs.
  destruct (resolution m) as [[o t]|] eqn:before.
  - rewrite (fire_due_resolved ff (S n) m (o, t) before).
    destruct inv as (? & ? & ?). repeat split; auto; lia.
  - destruct inv as (early & pending_fs & live & ahead & whole).
    unfold fire_due in *. rewrite pending_fs in *. cbn [is_due] in *.
    unfold failsafeDebounceTime_for_MainSourceSetOnCameraRampStop,
      debounce_length in *.
    destruct (Nat.leb_spec 2500 (S n)) as [due | notdue].
    + assert (S n = 2500) as now_eq by lia.
      destruct (is_due (debounce_run m) (S n)), ff; cbn; rewrite before;
        cbn; repeat split; try lia; congruence.
    + destruct (debounce_run m) as [d|] eqn:idle; cbn [is_due] in *.
      * specialize (ahead d eq_refl).
        destruct (Nat.leb_spec d (S n)) as [due | notdue'].
        -- cbn. rewrite before. cbn. repeat split; try lia. congruence.
        -- rewrite before, pending_fs, live.
           repeat split; try lia; [|tauto]. intros d' armed.
           destruct deb as [same | again]; rewrite armed in *.
           ++ rewrite idle in same. injection same as ->. lia.
           ++ injection again as ->. lia.
      * rewrite before, pending_fs, live.
        repeat split; try lia; [|tauto]. intros d' armed.
        destruct deb as [same | again]; rewrite armed in *.
        -- rewrite idle in same. discriminate.
        -- injection again as ->. lia.
Qed.

Variable ff : bool.
Variable position : JsVal -> nat -> list Tick.
Variable cameraId : JsVal.

Local Abbreviation monitor :=
  (monitorCameraStoppedPosition ff position cameraId).

Lemma monitor_inv (n : nat) : settle_inv n (monitor n).
Proof.
  induction n as [|n IH].
  - unfold settle_inv. cbn [monitorCameraStoppedPosition].
    destruct (deliver_keeps 0 (position cameraId 0) monitor_start)
      as (res & sub & fs & act).
    pose proof (deliver_debounce 0 (position cameraId 0) monitor_start) as deb.
    cbn in res, sub, fs, deb, act. rewrite res, sub, fs.
    unfold failsafeDebounceTime_for_MainSourceSetOnCameraRampStop,
      debounce_length in *.
    repeat split; try lia; [|tauto]. intros d armed.
    destruct deb as [same | again]; rewrite armed in *;
      [discriminate | injection again as ->; lia].
  - cbn [monitorCameraStoppedPosition]. now apply millisecond_inv.
Qed.

(** A settled promise stays as it settled. *)
Lemma monitor_stable (n extra : nat) (r : Outcome * nat) :
  resolution (monitor n) = Some r ->
  resolution (monitor (n + extra)) = Some r.
Proof.
  intros res. induction extra as [|extra IH].
  - now rewrite Nat.add_0_r.
  - rewrite Nat.add_succ_r. cbn [monitorCameraStoppedPosition].
    unfold millisecond.
    rewrite (proj1 (deliver_keeps _ _ _)).
    now apply fire_due_resolved.
Qed.

Lemma monitor_stable_le (n n' : nat) (r : Outcome * nat) :
  n <= n' ->
  resolution (monitor n) = Some r -> resolution (monitor n') = Some r.
Proof.
  intros le res. replace n' with (n + (n' - n)) by lia.
  now apply monitor_stable.
Qed.

Lemma monitor_resolves :
  exists o t,
    t <= failsafeDebounceTime_for_MainSourceSetOnCameraRampStop
    /\ resolution (monitor failsafeDebounceTime_for_MainSourceSetOnCameraRampStop)
       = Some (o, t).
Proof.
  pose proof (monitor_inv failsafeDebounceTime_for_MainSourceSetOnCameraRampStop)
    as inv.
  unfold settle_inv in inv.
  destruct (resolution (monitor _)) as [[o t]|].
  - exists o, t. split; [lia | reflexivity].
  - lia.
Qed.

Lemma monitor_last_step (n : nat) :
  exists m0,
    monitor n = fold_left (on_position n) (position cameraId n) m0
    /\ (n = 0 -> m0 = monitor_start)
    /\ (forall before, n = S before -> m0 = fire_due ff n (monitor before)).
Proof.
  destruct n as [|before].
  - exists monitor_start. repeat split; auto. discriminate.
  - exists (fire_due ff (S before) (monitor before)). repeat split.
    + discriminate.
    + now intros ? [= <-].
Qed.

(** With nothing but resting updates the monitor does not move before the
    failsafe, and is the failsafe's doing from then on. *)
Lemma monitor_at_rest_early (n : nat) :
  (forall t k, In k (position cameraId t) -> at_rest k = true) ->
  n < failsafeDebounceTime_for_MainSourceSetOnCameraRampStop ->
  monitor n = monitor_start.
Proof.
  intros rest. induction n as [|n IH]; intros early;
    cbn [monitorCameraStoppedPosition]; unfold millisecond;
    rewrite deliver_at_rest by apply rest; [reflexivity|].
  rewrite IH by lia. unfold fire_due, monitor_start. cbn [failsafe_run debounce_run is_due].
  now destruct (Nat.leb_spec failsafeDebounceTime_for_MainSourceSetOnCameraRampStop (S n));
    [lia|].
Qed.

Lemma monitor_at_rest_late (n : nat) :
  (forall t k, In k (position cameraId t) -> at_rest k = true) ->
  failsafeDebounceTime_for_MainSourceSetOnCameraRampStop <= n ->
  monitor n
  = fire_failsafe failsafeDebounceTime_for_MainSourceSetOnCameraRampStop
      monitor_start.
Proof.
  intros rest late.
  replace n with (failsafeDebounceTime_for_MainSourceSetOnCameraRampStop
                  + (n - failsafeDebounceTime_for_MainSourceSetOnCameraRampStop))
    by lia.
  generalize (n - failsafeDebounceTime_for_MainSourceSetOnCameraRampStop).
  intros extra. induction extra as [|extra IH].
  - rewrite Nat.add_0_r.
    change (monitor failsafeDebounceTime_for_MainSourceSetOnCameraRampStop)
      with (millisecond ff 2500 (position cameraId 2500) (monitor 2499)).
    unfold millisecond. rewrite deliver_at_rest by apply rest.
    rewrite monitor_at_rest_early by
      (auto; unfold failsafeDebounceTime_for_MainSourceSetOnCameraRampStop; lia).
    reflexivity.
  - rewrite Nat.add_succ_r. cbn [monitorCameraStoppedPosition].
    unfold millisecond. rewrite deliver_at_rest by apply rest.
    rewrite IH. reflexivity.
Qed.

(** A movement followed by a full idle length of rest, all of it before
    the failsafe, settles the promise as stopped. *)
Lemma monitor_stops (t0 : nat) :
  (exists k, In k (position cameraId t0) /\ at_rest k = false) ->
  (forall t k, t0 < t <= t0 + debounce_length ->
               In k (position cameraId t) -> at_rest k = true) ->
  t0 + debounce_length < failsafeDebounceTime_for_MainSourceSetOnCameraRampStop ->
  exists t, t <= t0 + debounce_length
            /\ resolution (monitor (t0 + debounce_length)) = Some (Stopped, t).
Proof.
  intros moved silence early.
  assert (forall j, j <= debounce_length ->
            (exists t, t <= t0 + j
                       /\ resolution (monitor (t0 + j)) = Some (Stopped, t))
            \/ (j < debounce_length
                /\ resolution (monitor (t0 + j)) = None
                /\ debounce_run (monitor (t0 + j))
                   = Some (t0 + debounce_length))) as progress.
  { induction j as [|j IH]; intros bound.
    - rewrite Nat.add_0_r.
      pose proof (monitor_inv t0) as inv. unfold settle_inv in inv.
      destruct (resolution (monitor t0)) as [[o t]|] eqn:res.
      + left. exists t. destruct inv as (le & _ & timeout).
        split; [lia|]. destruct o; [|reflexivity].
        specialize (timeout eq_refl). lia.
      + right. destruct inv as (_ & _ & live & _).
        split; [unfold debounce_length; lia|]. split; [reflexivity|].
        destruct (monitor_last_step t0) as (m0 & step & _).
        rewrite step in live |- *.
        apply deliver_moving; [|exact moved].
        now rewrite <- (proj1 (proj2 (deliver_keeps t0 (position cameraId t0) m0))).
    - rewrite Nat.add_succ_r. cbn [monitorCameraStoppedPosition].
      unfold millisecond.
      rewrite deliver_at_rest by (intros k; apply silence; lia).
      destruct IH as [(t & le & res) | (_ & res & idle)]; [lia| |].
      + left. exists t. split; [lia|]. now apply fire_due_resolved.
      + pose proof (monitor_inv (t0 + j)) as inv. unfold settle_inv in inv.
        rewrite res in inv. destruct inv as (_ & pending_fs & _).
        unfold fire_due. rewrite pending_fs, idle. cbn [is_due].
        destruct (Nat.leb_spec
                    failsafeDebounceTime_for_MainSourceSetOnCameraRampStop
                    (S (t0 + j))); [lia|].
        destruct (Nat.leb_spec (t0 + debounce_length) (S (t0 + j))).
        * left. exists (S (t0 + j)). split; [lia|]. cbn. now rewrite res.
        * right. repeat split; auto; lia. }
  destruct (progress debounce_length (Nat.le_refl _)) as [done | (absurd & _)];
    [exact done | lia].
Qed.
End SettleFacts.

(** C2, as amended.  The settle wait always resolves, never rejects, and
    resolves one way only: whatever the camera and its position updates, by
    the failsafe length (2500 ms) the promise has settled with one of the
    two outcomes and keeps it.  What counts as movement is read off the
    values of an update: a component that JavaScript counts as true (a
    number other than zero, or a non-empty text, the text [0] included).
    If in every update all three components count as false (the number
    zero, an absent component, the empty text), the wait settles as timed
    out, at the failsafe length.  If an update with a component that counts
    as true is followed by 250 ms in which every update has none, all
    before the failsafe length, the wait settles as stopped, no later than
    the end of those 250 ms and so strictly before the failsafe length. *)
Theorem settle_always_resolves `{D : Doubles} (ff : bool)
    (position : JsVal -> nat -> list Tick) (cameraId : JsVal) :
  (exists o t, t <= 2500 /\
     forall n, 2500 <= n ->
       resolution (monitorCameraStoppedPosition ff position cameraId n)
       = Some (o, t))
  /\ ((forall t k, In k (position cameraId t) -> all_falsy k) ->
      forall n, 2500 <= n ->
        resolution (monitorCameraStoppedPosition ff position cameraId n)
        = Some (TimedOut, 2500))
  /\ (forall t0,
        (exists k, In k (position cameraId t0) /\ some_truthy k) ->
        (forall t k, t0 < t <= t0 + 250 ->
                     In k (position cameraId t) -> all_falsy k) ->
        t0 + 250 < 2500 ->
        exists t, t <= t0 + 250 /\ t < 2500 /\
          forall n, t0 + 250 <= n ->
            resolution (monitorCameraStoppedPosition ff position cameraId n)
            = Some (Stopped, t)).
Proof.
  split; [|split].
  - destruct (monitor_resolves ff position cameraId) as (o & t & le & res).
    exists o, t. split; [exact le|]. intros n late.
    now apply (monitor_stable_le ff position cameraId 2500).
  - intros still n late.
    assert (forall t k, In k (position cameraId t) -> at_rest k = true)
      as rest by (intros t k isin; apply at_rest_all_falsy; eauto).
    now rewrite (monitor_at_rest_late ff position cameraId n rest late).
  - intros t0 (k0 & isin0 & moving) still early.
    assert (exists k, In k (position cameraId t0) /\ at_rest k = false)
      as moved by (exists k0; split; [exact isin0|];
                   now apply at_rest_some_truthy).
    assert (forall t k, t0 < t <= t0 + debounce_length ->
                        In k (position cameraId t) -> at_rest k = true)
      as silence by (intros t k range isin; apply at_rest_all_falsy; eauto).
    destruct (monitor_stops ff position cameraId t0 moved silence early)
      as (t & le & res).
    exists t. unfold debounce_length in *. repeat split; try lia.
    intros n late.
    now apply (monitor_stable_le ff position cameraId (t0 + 250)).
Qed.

Lemma settle_always_resolves_witness :
  resolution (monitorCameraStoppedPosition (D := literal_doubles)
                true zeros (JNum (Int 1)) 3000)
  = Some (TimedOut, 2500)
  /\ exists t, t <= 260 /\
       resolution (monitorCameraStoppedPosition (D := literal_doubles)
                     true nudge (JNum (Int 1)) 300)
       = Some (Stopped, t).
Proof.
  split.
  - apply (proj1 (proj2 (settle_always_resolves (D := literal_doubles)
                           true zeros (JNum (Int 1))))).
    + intros t k [<- | []]. repeat split; apply falsy_zero.
    + lia.
  - destruct (proj2 (proj2 (settle_always_resolves (D := literal_doubles)
                              true nudge (JNum (Int 1)))) 10)
      as (t & le & _ & res).
    + exists moving_tick. split; [now left|].
      left. apply truthy_integer. lia.
    + intros t k range isin. unfold nudge in isin.
      destruct (Nat.eqb_spec t 10); [lia | destruct isin].
    + lia.
    + exists t. split; [exact le | apply res; lia].
Defined.

(** C2, as stated, fails: the camera reports one update whose Pan, Tilt and
    Zoom are all zero, delivered as text, and nothing else for ever.  The
    callback takes it for a movement and the wait settles as stopped, 250 ms
    later, not as timed out. *)
Lemma text_zero_settles_as_stopped :
  (forall t k, In k (text_zero_once (JNum (Int 1)) t) -> k = text_zero_tick)
  /\ resolution (monitorCameraStoppedPosition (D := literal_doubles)
                   true text_zero_once (JNum (Int 1)) 3000)
     = Some (Stopped, 260).
Proof.
  split.
  - intros t k. unfold text_zero_once.
    destruct (t =? 10); [intros [<- | []]; reflexivity | intros []].
  - vm_compute. reflexivity.
Qed.

(** The idle timer's callback does tear the subscription down, once, before
    it resolves. *)
Lemma fire_debounce_tears_down (now : nat) (m : Monitor) :
  subscribed m = true ->
  subscribed (fire_debounce now m) = false
  /\ failsafe_run (fire_debounce now m) = None
  /\ actions (fire_debounce now m)
     = Resolve Stopped :: Unsubscribe :: ClearFailsafe :: actions m.
Proof.
  intros live. unfold fire_debounce. cbn. now rewrite live.
Qed.

(** C5, on the code.  When the failsafe timer is the one that settles the
    wait, the idle timer is cancelled but the position subscription is not
    torn down: at the end of the millisecond in which the promise resolved
    as timed out the subscription is still registered and no unsubscribe
    was ever made; and under updates that are all at rest it stays
    registered for good. *)
Theorem timeout_keeps_subscription `{D : Doubles} (ff : bool)
    (position : JsVal -> nat -> list Tick) (cameraId : JsVal) :
  (resolution (monitorCameraStoppedPosition ff position cameraId 2500)
   = Some (TimedOut, 2500) ->
   subscribed (monitorCameraStoppedPosition ff position cameraId 2500) = true
   /\ ~ In Unsubscribe
          (actions (monitorCameraStoppedPosition ff position cameraId 2500)))
  /\ ((forall t k, In k (position cameraId t) -> at_rest k = true) ->
      forall n, 2500 <= n ->
        let m := monitorCameraStoppedPosition ff position cameraId n in
        resolution m = Some (TimedOut, 2500)
        /\ subscribed m = true
        /\ debounce_run m = None
        /\ ~ In Unsubscribe (actions m)).
Proof.
  split.
  - change (monitorCameraStoppedPosition ff position cameraId 2500)
      with (millisecond ff 2500 (position cameraId 2500)
              (monitorCameraStoppedPosition ff position cameraId 2499)).
    pose proof (monitor_inv ff position cameraId 2499) as inv.
    set (m := monitorCameraStoppedPosition ff position cameraId 2499) in *.
    clearbody m. unfold millisecond, settle_inv in *.
    destruct (deliver_keeps 2500 (position cameraId 2500) (fire_due ff 2500 m))
      as (res & sub & _ & act).
    cbn in res, sub, act. rewrite res, sub, act. clear res sub act.
    destruct (resolution m) as [[o t]|] eqn:before.
    + rewrite (fire_due_resolved ff 2500 m (o, t) before).
      intros [= -> ->]. lia.
    + destruct inv as (_ & pending_fs & live & _ & whole).
      unfold fire_due. rewrite pending_fs. cbn.
      destruct (is_due (debounce_run m) 2500), ff; cbn; rewrite before, ?live;
        cbn; try discriminate; intros _; (split; [reflexivity|]);
        intros [? | [? | ?]]; try discriminate; tauto.
  - intros rest n late m. subst m.
    rewrite (monitor_at_rest_late ff position cameraId n rest late).
    cbn. repeat split; auto. intros [? | [? | []]]; discriminate.
Qed.

Lemma timeout_keeps_subscription_witness :
  let m := monitorCameraStoppedPosition (D := literal_doubles)
             true zeros (JNum (Int 1)) 3000 in
  resolution m = Some (TimedOut, 2500)
  /\ subscribed m = true
  /\ debounce_run m = None
  /\ ~ In Unsubscribe (actions m).
Proof.
  apply (proj2 (timeout_keeps_subscription (D := literal_doubles)
                  true zeros (JNum (Int 1)))).
  - intros t k [<- | []]. reflexivity.
  - lia.
Defined.

Arguments monitorCameraStoppedPosition : simpl never.

(** ** Effects and the fields they leave alone *)

Lemma commands_app (later earlier : list Effect) :
  commands (later ++ earlier) = commands earlier ++ commands later.
Proof.
  unfold commands. rewrite rev_app_distr. apply omap_app.
Qed.

Lemma trace_emits (effects : list Effect) (s : State) :
  trace (emits effects s) = effects ++ trace s.
Proof.
  unfold emits.
  induction effects as [|e effects IH]; cbn; [reflexivity | now rewrite IH].
Qed.

Lemma calls_emits (effects : list Effect) (s : State) :
  calls (emits effects s) = calls s ++ commands effects.
Proof.
  unfold calls. now rewrite trace_emits, commands_app.
Qed.

Lemma emits_fields (effects : list Effect) (s : State) :
  presetPositioningBypass (emits effects s) = presetPositioningBypass s
  /\ presetPositioningBypassHandler (emits effects s)
     = presetPositioningBypassHandler s
  /\ lastPresetSelection (emits effects s) = lastPresetSelection s
  /\ timers (emits effects s) = timers s
  /\ next_handle (emits effects s) = next_handle s
  /\ now (emits effects s) = now s.
Proof.
  unfold emits.
  induction effects as [|e effects IH]; cbn; [repeat split | exact IH].
Qed.

Lemma emits_app (later earlier : list Effect) (s : State) :
  emits (later ++ earlier) s = emits later (emits earlier s).
Proof.
  unfold emits. apply fold_right_app.
Qed.

Lemma elapse_timers (ms : nat) (s : State) (t : nat * nat) :
  In t (timers (elapse ms s)) -> In t (timers s).
Proof.
  cbn. rewrite filter_In. tauto.
Qed.

(** With no timer pending, time alone never moves the gate. *)
Lemma elapse_idle (ms : nat) (s : State) :
  timers s = [] ->
  presetPositioningBypass (elapse ms s) = presetPositioningBypass s.
Proof.
  intros idle. cbn. now rewrite idle.
Qed.

(** ** The command sequencer *)

Section Sequencer.
Context {D : Doubles}.
Variable W : World.

Lemma bind_returned {A B : Type} (m : M A) (k : A -> M B) (s s' : State)
    (a : A) :
  m s = (Returned a, s') -> (m ≫= k) s = k a s'.
Proof.
  intros run. unfold mbind, M_bind. now rewrite run.
Qed.

Lemma bind_threw {A B : Type} (m : M A) (k : A -> M B) (s s' : State) :
  m s = (Threw, s') -> (m ≫= k) s = (Threw, s').
Proof.
  intros run. unfold mbind, M_bind. now rewrite run.
Qed.

(** A command whose rejection is only logged. *)
Lemma catching_logged (c : Cmd) (level : Level) (context : string)
    (s : State) :
  exists effects,
    catching W c (console level context) s = (Returned tt, emits effects s)
    /\ commands effects = [c].
Proof.
  monad_unfold. destruct (accepts W (trace s) c).
  - now exists [Call c].
  - now exists [Console level context; Call c].
Qed.

(** The three deactivations always return, whatever the device answers,
    having issued exactly the three commands. *)
Lemma deactivate_tracking_returns (s : State) :
  exists effects,
    deactivate_tracking W s = (Returned tt, emits effects s)
    /\ commands effects
       = [Cameras_SpeakerTrack_Deactivate;
          Cameras_SpeakerTrack_Frames_Deactivate;
          Cameras_PresenterTrack_Set "Off"].
Proof.
  unfold deactivate_tracking. rewrite !handleError_debug.
  destruct (catching_logged Cameras_SpeakerTrack_Deactivate LDebug
              "Failed to Deactivate Speakertrack" s) as (e1 & run1 & c1).
  destruct (catching_logged Cameras_SpeakerTrack_Frames_Deactivate LDebug
              "Failed to Deactivate Frames" (emits e1 s)) as (e2 & run2 & c2).
  destruct (catching_logged (Cameras_PresenterTrack_Set "Off") LDebug
              "Failed to Deactivate Presentertrack" (emits e2 (emits e1 s)))
    as (e3 & run3 & c3).
  exists (e3 ++ e2 ++ e1). split.
  - rewrite (bind_returned _ _ _ _ _ run1), (bind_returned _ _ _ _ _ run2), run3.
    now rewrite !emits_app.
  - now rewrite !commands_app, c1, c2, c3.
Qed.
Lemma activateCameraPreset_invalid (presetInfo : gmap string JsVal)
    (s : State) :
  is_undefined (get presetInfo "CameraId")
  || is_undefined (get presetInfo "PresetId") = true ->
  exists effects,
    activateCameraPreset W presetInfo s
    = (Threw, emits effects (with_bypass true (cancel s)))
    /\ commands effects
       = [Cameras_SpeakerTrack_Deactivate;
          Cameras_SpeakerTrack_Frames_Deactivate;
          Cameras_PresenterTrack_Set "Off"].
Proof.
  intros invalid.
  destruct (deactivate_tracking_returns (with_bypass true (cancel s)))
    as (effects & run & issued).
  exists effects. split; [|exact issued].
  unfold activateCameraPreset.
  rewrite (bind_returned (update cancel) _ s (cancel s) tt eq_refl).
  rewrite (bind_returned (update (with_bypass true)) _ (cancel s)
             (with_bypass true (cancel s)) tt eq_refl).
  rewrite (bind_returned _ _ _ _ _ run).
  rewrite invalid. reflexivity.
Qed.

(** The wait for the camera always returns: the monitor's promise always
    settles.  It issues no command, creates no timer and leaves the
    remembered selection alone; the clock moves on, so gate timers that
    were pending may have fired. *)
Lemma wait_for_settle_returns (cameraId : JsVal) (s : State) :
  exists s',
    wait_for_settle W cameraId s = (Returned tt, s')
    /\ calls s' = calls s
    /\ next_handle s' = next_handle s
    /\ (forall t, In t (timers s') -> In t (timers s))
    /\ lastPresetSelection s' = lastPresetSelection s
    /\ (timers s = [] ->
        presetPositioningBypass s' = presetPositioningBypass s).
Proof.
  unfold wait_for_settle.
  destruct (MainSourceSetOnCameraRampStop (features W)).
  - destruct (monitor_resolves (failsafe_first W)
                (fun cam t => position W cam (now s + t)) cameraId)
      as (o & t & _ & settled).
    exists (emit (Console LDebug "Camera Position Monitoring Stopped")
              (elapse t (emit (Console LDebug "Waiting for Camera Position to Set") s))).
    split.
    + unfold await_monitor. monad_unfold.
      cbn [emit now]. now rewrite settled.
    + repeat split; auto.
      * change (calls (emits [Console LDebug "Camera Position Monitoring Stopped"]
                        (elapse t (emits [Console LDebug "Waiting for Camera Position to Set"] s)))
                = calls s).
        rewrite calls_emits. unfold calls at 1.
        change (trace (elapse t (emits [Console LDebug "Waiting for Camera Position to Set"] s)))
          with (trace (emits [Console LDebug "Waiting for Camera Position to Set"] s)).
        fold (calls (emits [Console LDebug "Waiting for Camera Position to Set"] s)).
        rewrite calls_emits. cbn. now rewrite !app_nil_r.
      * intros t' isin. cbn in isin. apply filter_In in isin. tauto.
      * cbn. now intros ->.
  - exists s. repeat split; auto.
Qed.

(** Whenever the activation throws, it has created no timer: the pending
    timers are among those that were pending after its own
    [clearTimeout]. *)
Lemma activateCameraPreset_threw (presetInfo : gmap string JsVal)
    (s : State) :
  outcome (activateCameraPreset W presetInfo s) = Threw ->
  next_handle (final (activateCameraPreset W presetInfo s)) = next_handle s
  /\ forall t, In t (timers (final (activateCameraPreset W presetInfo s))) ->
               In t (timers (cancel s)).
Proof.
  destruct (deactivate_tracking_returns (with_bypass true (cancel s)))
    as (effects & run & _).
  unfold activateCameraPreset.
  rewrite (bind_returned (update cancel) _ s (cancel s) tt eq_refl).
  rewrite (bind_returned (update (with_bypass true)) _ (cancel s)
             (with_bypass true (cancel s)) tt eq_refl).
  rewrite (bind_returned _ _ _ _ _ run).
  destruct (emits_fields effects (with_bypass true (cancel s)))
    as (_ & _ & _ & same_timers & same_next & _).
  change (timers (with_bypass true (cancel s))) with (timers (cancel s))
    in same_timers.
  change (next_handle (with_bypass true (cancel s))) with (next_handle s)
    in same_next.
  set (s1 := emits effects (with_bypass true (cancel s))) in *.
  set (before := timers (cancel s)) in *.
  clearbody s1 before. clear run.
  destruct (is_undefined (get presetInfo "CameraId")
            || is_undefined (get presetInfo "PresetId")).
  - intros _. monad_unfold. cbn. rewrite same_timers, same_next. auto.
  - rewrite (bind_returned (mret tt) _ s1 s1 tt eq_refl).
    rewrite (bind_returned (console LDebug "Setting Preset") _ s1 _ tt eq_refl).
    rewrite (bind_returned (fire W _) _ _ _ tt eq_refl).
    match goal with
    | |- context [wait_for_settle W ?cam ≫= _] =>
        match goal with
        | |- context [(wait_for_settle W cam ≫= ?k) ?st] =>
            destruct (wait_for_settle_returns cam st)
              as (s2 & waited & _ & next2 & timers2 & _)
        end
    end.
    rewrite (bind_returned _ _ _ _ _ waited).
    cbn in next2, timers2. rewrite same_next in next2.
    rewrite same_timers in timers2. clear waited.
    monad_unfold. cbn.
    destruct (accepts W _ _); cbn; [discriminate|].
    intros _. split; [exact next2 | exact timers2].
Qed.
(** A catalog without a default preset is scanned to its end without a
    single effect. *)
Lemma activate_first_default_none (catalog : list PresetRecord) (s : State) :
  (forall p, In p catalog -> is_default p = false) ->
  activate_first_default W catalog s = (Returned false, s).
Proof.
  induction catalog as [|p catalog IH]; intros none; cbn.
  - reflexivity.
  - rewrite (none p) by now left. apply IH. intros q ?. apply none. now right.
Qed.
End Sequencer.

(** C1, on the code.  A failed activation does not schedule the gate to
    close.  With CameraId or PresetId missing the call throws after it has
    set the gate and cancelled the pending close timer, and before it
    creates a new one: the gate is left set, with no timer of this call to
    clear it, and if no other timer is pending it stays set however much
    time passes.  More generally, whenever the call throws (a rejected
    source switch included) it has created no timer. *)
Theorem failed_activation_leaves_gate_open `{D : Doubles} (W : World)
    (presetInfo : gmap string JsVal) (s : State) :
  let r := activateCameraPreset W presetInfo s in
  (is_undefined (get presetInfo "CameraId")
   || is_undefined (get presetInfo "PresetId") = true ->
   outcome r = Threw
   /\ presetPositioningBypass (final r) = true
   /\ next_handle (final r) = next_handle s
   /\ timers (final r) = timers (cancel s)
   /\ (timers (cancel s) = [] ->
       forall ms, presetPositioningBypass (elapse ms (final r)) = true))
  /\ (outcome r = Threw ->
      next_handle (final r) = next_handle s
      /\ forall t, In t (timers (final r)) -> In t (timers (cancel s))).
Proof.
  intros r. subst r. split.
  - intros invalid.
    destruct (activateCameraPreset_invalid W presetInfo s invalid)
      as (effects & run & _).
    rewrite run. unfold outcome, final. cbn [fst snd].
    destruct (emits_fields effects (with_bypass true (cancel s)))
      as (gate & _ & _ & pending_timers & next & _).
    repeat split; auto.
    intros idle ms. rewrite elapse_idle; [exact gate|].
    now rewrite pending_timers.
  - apply activateCameraPreset_threw.
Qed.

Lemma failed_activation_leaves_gate_open_witness :
  let r := activateCameraPreset (D := literal_doubles)
             (still_world obliging []) (decode "Type:Preset~PresetId:5")
             init_state in
  outcome r = Threw
  /\ presetPositioningBypass (final r) = true
  /\ next_handle (final r) = next_handle init_state
  /\ timers (final r) = timers (cancel init_state)
  /\ (timers (cancel init_state) = [] ->
      forall ms, presetPositioningBypass (elapse ms (final r)) = true).
Proof.
  apply (proj1 (failed_activation_leaves_gate_open (D := literal_doubles)
                  (still_world obliging []) (decode "Type:Preset~PresetId:5")
                  init_state)).
  reflexivity.
Defined.

(** The same on the later failure: the device rejects the source switch of
    an otherwise valid preset, after the wait has timed out. *)
Lemma rejected_source_switch_leaves_gate_open :
  let r := activateCameraPreset (D := literal_doubles)
             (still_world no_source_switch [])
             (decode "Type:Preset~CameraId:2~PresetId:5~PresetName:Room")
             init_state in
  outcome r = Threw
  /\ presetPositioningBypass (final r) = true
  /\ timers (final r) = []
  /\ now (final r) = 2500.
Proof.
  vm_compute. repeat split.
Qed.

(** C6, as amended.  Over a catalog in which no preset is the default,
    [activateDefaultCameraPreset] issues no preset activation and no source
    switch: the commands it adds are exactly the three tracking
    deactivations followed by the catalog query.  When the catalog query is
    answered it returns, having logged the warning, with the gate set and
    scheduled to close 2600 ms later. *)
Theorem no_default_preset `{D : Doubles} (W : World) (s : State) :
  (forall p, In p (presets W) -> is_default p = false) ->
  let r := activateDefaultCameraPreset W s in
  calls (final r)
  = calls s ++ [Cameras_SpeakerTrack_Deactivate;
                Cameras_SpeakerTrack_Frames_Deactivate;
                Cameras_PresenterTrack_Set "Off";
                Camera_Preset_List]
  /\ ((forall history, accepts W history Camera_Preset_List = true) ->
      outcome r = Returned tt
      /\ head (trace (final r))
         = Some (Console LWarn "Unable to find Default Camera Preset")
      /\ presetPositioningBypass (final r) = true
      /\ presetPositioningBypassHandler (final r) = Some (next_handle s)
      /\ timers (final r) = (next_handle s, now s + 2600) :: timers (cancel s)).
Proof.
  intros none r. subst r.
  destruct (deactivate_tracking_returns W (with_bypass true (cancel s)))
    as (effects & run & issued).
  unfold activateDefaultCameraPreset.
  rewrite (bind_returned (update cancel) _ s (cancel s) tt eq_refl).
  rewrite (bind_returned (update (with_bypass true)) _ (cancel s)
             (with_bypass true (cancel s)) tt eq_refl).
  rewrite (bind_returned _ _ _ _ _ run).
  destruct (emits_fields effects (with_bypass true (cancel s)))
    as (gate & handler & _ & pending_timers & next & clock).
  pose proof (calls_emits effects (with_bypass true (cancel s))) as issued'.
  rewrite issued in issued'.
  change (calls (with_bypass true (cancel s))) with (calls s) in issued'.
  change (timers (with_bypass true (cancel s))) with (timers (cancel s))
    in pending_timers.
  cbn in gate, next, clock.
  set (s1 := emits effects (with_bypass true (cancel s))) in *.
  set (before := timers (cancel s)) in *.
  clearbody s1 before. clear run.
  unfold await. monad_unfold. cbn [emit trace].
  destruct (accepts W (trace s1) Camera_Preset_List) eqn:answered.
  - rewrite activate_first_default_none by exact none. cbn [fst snd].
    split.
    + unfold calls in *. cbn [trace schedule_close emit with_presets].
      change (?a :: ?b :: trace s1) with ([a; b] ++ trace s1).
      rewrite commands_app, issued'. now rewrite <- app_assoc.
    + intros _. cbn. rewrite gate, next, clock, pending_timers. repeat split.
  - cbn [fst snd]. split.
    + unfold calls in *. cbn [trace emit].
      change (?a :: trace s1) with ([a] ++ trace s1).
      rewrite commands_app, issued'. now rewrite <- app_assoc.
    + intros always. rewrite always in answered. discriminate.
Qed.

Lemma no_default_preset_witness :
  let r := activateDefaultCameraPreset (D := literal_doubles)
             (still_world obliging [room_preset]) init_state in
  calls (final r)
  = [Cameras_SpeakerTrack_Deactivate;
     Cameras_SpeakerTrack_Frames_Deactivate;
     Cameras_PresenterTrack_Set "Off";
     Camera_Preset_List]
  /\ outcome r = Returned tt
  /\ head (trace (final r))
     = Some (Console LWarn "Unable to find Default Camera Preset")
  /\ presetPositioningBypass (final r) = true
  /\ presetPositioningBypassHandler (final r) = Some 0
  /\ timers (final r) = [(0, 2600)].
Proof.
  destruct (no_default_preset (D := literal_doubles)
              (still_world obliging [room_preset]) init_state)
    as (issued & returned).
  - intros p [<- | []]. reflexivity.
  - split; [exact issued | apply returned; reflexivity].
Defined.

(** C6, as stated, fails: with no default preset in the catalog (here one
    holding a single non-default preset) the three tracking deactivations
    are still issued. *)
Lemma no_default_preset_still_deactivates :
  forallb (fun p => negb (is_default p)) [room_preset] = true
  /\ List.filter hardware_mutation
       (calls (final (activateDefaultCameraPreset (D := literal_doubles)
                        (still_world obliging [room_preset]) init_state)))
     = [Cameras_SpeakerTrack_Deactivate;
        Cameras_SpeakerTrack_Frames_Deactivate;
        Cameras_PresenterTrack_Set "Off"].
Proof.
  split; reflexivity.
Qed.

(** ** The selection reconciler *)

Lemma error_object_Type : get error_object "Type" = JStr "Error".
Proof. reflexivity. Qed.

Lemma parse_manual_payload :
  parseKeyValuePairs manual_payload = ([], manual_object).
Proof. vm_compute. reflexivity. Qed.

Lemma manual_object_fields :
  get manual_object "Type" = JStr "Automatic"
  /\ get manual_object "Feature" = JStr "Manual".
Proof. split; reflexivity. Qed.

Lemma parse_malformed (Value : string) :
  regex_test Value = false ->
  parseKeyValuePairs Value
  = ([Console LError "Unable to parse data key value pair || Malformed String"],
     error_object).
Proof.
  intros malformed. unfold parseKeyValuePairs. now rewrite malformed.
Qed.

(** C8, on the code.  A payload that does not parse does decode to
    [{Type: 'Error'}] and starts no command, pushes nothing to the control
    and leaves the gate and its timers alone; but unless it contains the
    text Manual, the error object is stored as the remembered selection,
    replacing what was remembered. *)
Theorem malformed_payload_is_remembered `{D : Doubles} (W : World) (s : State)
    (Value : string) :
  regex_test Value = false ->
  includes "Manual" Value = false ->
  decode Value = error_object
  /\ handle W (WidgetAction presets_widget "released" Value) s
     = (Returned tt,
        with_selection error_object
          (emit (Console LError
                   "Unable to parse data key value pair || Malformed String") s)).
Proof.
  intros malformed plain. unfold decode.
  rewrite (parse_malformed Value malformed). split; [reflexivity|].
  cbn [handle]. unfold on_WidgetAction.
  rewrite (parse_malformed Value malformed), plain.
  cbn [fst snd negb]. rewrite error_object_Type.
  reflexivity.
Qed.

Lemma malformed_payload_is_remembered_witness :
  decode "garbage" = error_object
  /\ handle (D := literal_doubles) (still_world obliging [])
       (WidgetAction presets_widget "released" "garbage")
       (with_selection (decode "Type:Automatic~Feature:Speaker") init_state)
     = (Returned tt,
        with_selection error_object
          (emit (Console LError
                   "Unable to parse data key value pair || Malformed String")
             (with_selection (decode "Type:Automatic~Feature:Speaker")
                init_state))).
Proof.
  apply (malformed_payload_is_remembered (D := literal_doubles)); reflexivity.
Defined.

Section Reconciler.
Context {D : Doubles}.
Variable W : World.

(** The handler's run on the Manual payload, step by step. *)
Lemma on_WidgetAction_manual (s : State) :
  on_WidgetAction W presets_widget "released" manual_payload s
  = let s1 := with_dismiss JUndef (with_bypass true (cancel s)) in
    let s2 :=
      emit (Call (Widget_SetValue presets_widget
                    (encode (lastPresetSelection s))))
        (emit (Console LLog
                 "Manual Selection detected, prompting user on Manual Control")
           (emit (Call (Message_Prompt_Display (manualPromptDismiss s))) s1)) in
    (Returned tt,
     schedule_close gate_margin_short
       (if accepts W
             (Console LLog
                "Manual Selection detected, prompting user on Manual Control"
              :: Call (Message_Prompt_Display (manualPromptDismiss s))
              :: trace s)
             (Widget_SetValue presets_widget (encode (lastPresetSelection s)))
        then s2
        else emit (Console LDebug
                     "Failed to Set Widget Value. Cause: WidgetAction>data.Feature Manual")
               (emit (Call (Widget_UnsetValue presets_widget)) s2))).
Proof.
  unfold on_WidgetAction.
  rewrite parse_manual_payload.
  change (String.eqb "released" "released"
          && String.eqb presets_widget presets_widget) with true.
  change (includes "Manual" manual_payload) with true.
  cbn [fst snd negb].
  destruct manual_object_fields as (type & feature).
  unfold activate_feature. rewrite type, feature.
  change (is_str (JStr "Automatic") "Automatic") with true.
  change (is_str (JStr "Manual") "Presenter") with false.
  change (is_str (JStr "Manual") "Speaker") with false.
  change (is_str (JStr "Manual") "Frames") with false.
  change (is_str (JStr "Manual") "Manual") with true.
  cbn [negb].
  monad_unfold. cbn [emits fold_right].
  cbn -[encode gate_margin_short].
  now destruct (accepts W _ _).
Qed.

Lemma on_CameraPresetActivated_calls (PresetId CameraId : JsVal) (s : State) :
  calls (final (on_CameraPresetActivated W PresetId CameraId s))
  = calls s ++
    Camera_Preset_Show PresetId ::
    (if accepts W (trace s) (Camera_Preset_Show PresetId)
     then [Widget_SetValue presets_widget
             ("Type:Preset~CameraId:" +:+ to_string CameraId
              +:+ "~PresetId:" +:+ to_string PresetId
              +:+ "~PresetName:" +:+ to_string (shown_name W PresetId))]
     else []).
Proof.
  unfold on_CameraPresetActivated. monad_unfold.
  cbn [trace with_bypass cancel].
  destruct (accepts W (trace s) (Camera_Preset_Show PresetId)).
  - cbn [trace emit]. destruct (accepts W _ _); cbn [snd]; now read_calls.
  - cbn [snd]. now read_calls.
Qed.

Lemma on_TrackingStatus_calls (element status : string) (s : State) :
  calls (final (on_TrackingStatus W element status s))
  = calls s ++
    (if bool_decide (element ∈ availableCameraTrackingFeatures W)
        && String.eqb (toLowerCase status)
             (if String.eqb element "Presenter" then "follow" else "active")
     then [Widget_SetValue presets_widget
             ("Type:Automatic~Feature:" +:+ element)]
     else []).
Proof.
  unfold on_TrackingStatus.
  destruct (bool_decide _ && _).
  - monad_unfold. cbn [trace with_bypass cancel].
    destruct (accepts W _ _); cbn [snd]; now read_calls.
  - cbn. now rewrite app_nil_r.
Qed.
End Reconciler.

(** C7, as amended.  When the device rejects the values pushed to the
    control: on the raw-movement path and on the Manual reselection of a UI
    action the rejected push is followed by an explicit unset of the
    control; on the external-preset-activation path and on the
    tracking-status path the rejection is only logged, the push is the last
    command and no unset is issued. *)
Theorem rejected_push_recovery `{D : Doubles} (W : World) (s : State) :
  (forall history value,
     accepts W history (Widget_SetValue presets_widget value) = false) ->
  (forall k, presetPositioningBypass s = false -> at_rest k = false ->
     calls (final (handle W (CameraPosition k) s))
     = calls s ++ [Widget_SetValue presets_widget manual_payload;
                   Widget_UnsetValue presets_widget])
  /\ calls (final (handle W (WidgetAction presets_widget "released"
                              manual_payload) s))
     = calls s ++ [Message_Prompt_Display (manualPromptDismiss s);
                   Widget_SetValue presets_widget
                     (encode (lastPresetSelection s));
                   Widget_UnsetValue presets_widget]
  /\ (forall PresetId CameraId,
        ~ In (Widget_UnsetValue presets_widget)
             (drop (length (calls s))
                (calls (final (handle W (CameraPresetActivated PresetId CameraId) s))))
        /\ (accepts W (trace s) (Camera_Preset_Show PresetId) = true ->
            calls (final (handle W (CameraPresetActivated PresetId CameraId) s))
            = calls s ++
              [Camera_Preset_Show PresetId;
               Widget_SetValue presets_widget
                 ("Type:Preset~CameraId:" +:+ to_string CameraId
                  +:+ "~PresetId:" +:+ to_string PresetId
                  +:+ "~PresetName:" +:+ to_string (shown_name W PresetId))]))
  /\ (forall element status,
        calls (final (handle W (TrackingStatus element status) s))
        = calls s ++
          (if bool_decide (element ∈ availableCameraTrackingFeatures W)
              && String.eqb (toLowerCase status)
                   (if String.eqb element "Presenter" then "follow" else "active")
           then [Widget_SetValue presets_widget
                   ("Type:Automatic~Feature:" +:+ element)]
           else [])).
Proof.
  intros rejected. split; [|split; [|split]].
  - intros k gate moving. cbn [handle].
    rewrite on_CameraPosition_moving by assumption.
    cbn zeta. rewrite rejected. cbn [final snd]. now read_calls.
  - cbn [handle]. rewrite on_WidgetAction_manual. cbn zeta.
    rewrite rejected. cbn [final snd]. now read_calls.
  - intros PresetId CameraId. cbn [handle].
    rewrite on_CameraPresetActivated_calls. split.
    + rewrite drop_app_length.
      destruct (accepts W (trace s) (Camera_Preset_Show PresetId));
        cbn; intuition discriminate.
    + now intros ->.
  - intros element status. cbn [handle]. apply on_TrackingStatus_calls.
Qed.

Lemma rejected_push_recovery_witness :
  calls (final (handle (D := literal_doubles) (still_world no_widget_value [])
                  (WidgetAction presets_widget "released" manual_payload)
                  init_state))
  = calls init_state ++
    [Message_Prompt_Display (manualPromptDismiss init_state);
     Widget_SetValue presets_widget
       (encode (D := literal_doubles) (lastPresetSelection init_state));
     Widget_UnsetValue presets_widget].
Proof.
  apply (proj1 (proj2 (rejected_push_recovery (D := literal_doubles)
                         (still_world no_widget_value []) init_state
                         (fun _ _ => eq_refl)))).
Defined.

(** C7, as stated, fails: an external preset activation whose push to the
    control is rejected issues no unset. *)
Lemma rejected_push_after_external_activation :
  no_widget_value
    (Widget_SetValue presets_widget
       "Type:Preset~CameraId:1~PresetId:3~PresetName:Room") = false
  /\ calls (final (handle (D := literal_doubles)
                     (still_world no_widget_value [])
                     (CameraPresetActivated (JStr "3") (JStr "1")) init_state))
     = [Camera_Preset_Show (JStr "3");
        Widget_SetValue presets_widget
          "Type:Preset~CameraId:1~PresetId:3~PresetName:Room"].
Proof.
  split; reflexivity.
Qed.

(** ** The parser's regular expression *)

Lemma span_plain_spec (l run rest : list ascii) :
  span_plain l = (run, rest) ->
  l = run ++ rest
  /\ forallb (fun c => negb (is_separator c)) run = true
  /\ (rest = [] \/ exists c tl, rest = c :: tl /\ is_separator c = true).
Proof.
  revert run rest. induction l as [|c l IH]; intros run rest; cbn [span_plain].
  - intros [= <- <-]. repeat split. now left.
  - destruct (is_separator c) eqn:sep.
    + intros [= <- <-]. repeat split. right. now exists c, l.
    + destruct (span_plain l) as [run' rest'].
      intros [= <- <-]. destruct (IH run' rest' eq_refl) as (-> & ok & stop).
      repeat split; [|exact stop]. cbn. now rewrite sep.
Qed.

Lemma span_plain_run (run rest : list ascii) :
  forallb (fun c => negb (is_separator c)) run = true ->
  (rest = [] \/ exists c tl, rest = c :: tl /\ is_separator c = true) ->
  span_plain (run ++ rest) = (run, rest).
Proof.
  intros ok stop. induction run as [|c run IH]; cbn [app].
  - destruct stop as [-> | (c & tl & -> & sep)]; [reflexivity|].
    cbn. now rewrite sep.
  - cbn in ok |- *. apply andb_true_iff in ok as (here & there).
    apply negb_true_iff in here. now rewrite here, (IH there).
Qed.

Lemma match_here_pair (l : list ascii) :
  match_here l = true <->
  exists key value after,
    l = key ++ ":"%char :: value ++ after
    /\ plain_run key /\ plain_run value
    /\ (after = [] \/ exists rest, after = "~"%char :: rest).
Proof.
  unfold match_here, plain_run. split.
  - destruct (span_plain l) as [key r1] eqn:first.
    destruct (span_plain_spec l key r1 first) as (-> & key_ok & _).
    destruct key as [|k key]; [discriminate|].
    destruct r1 as [|colon r2]; [discriminate|].
    intros found. apply andb_true_iff in found as (is_colon & found).
    apply Nat.eqb_eq in is_colon.
    assert (colon = ":"%char) as ->.
    { rewrite <- (ascii_nat_embedding colon). unfold code in is_colon.
      now rewrite is_colon. }
    destruct (span_plain r2) as [value r3] eqn:second.
    destruct (span_plain_spec r2 value r3 second) as (-> & value_ok & _).
    destruct value as [|v value]; [now destruct r3|].
    exists (k :: key), (v :: value), r3. repeat split; auto; try discriminate.
    destruct r3 as [|next r4]; [now left|]. right. exists r4.
    apply Nat.eqb_eq in found. f_equal.
    rewrite <- (ascii_nat_embedding next). unfold code in found.
    now rewrite found.
  - intros (key & value & after & -> & (key_ne & key_ok) & (value_ne & value_ok)
            & stop).
    rewrite (span_plain_run key (":"%char :: value ++ after) key_ok)
      by (right; now exists ":"%char, (value ++ after)).
    destruct key as [|k key]; [now destruct key_ne|].
    cbn [code nat_of_ascii]. rewrite (span_plain_run value after value_ok).
    + destruct value as [|v value]; [now destruct value_ne|].
      now destruct stop as [-> | (rest & ->)].
    + destruct stop as [-> | (rest & ->)]; [now left|].
      right. now exists "~"%char, rest.
Qed.

(** X13.  What [parseKeyValuePairs] accepts.  The test of its regular
    expression succeeds exactly when the text holds, anywhere, a non-empty
    key and a non-empty value free of [~] and [:], joined by [:] and
    followed by [~] or by the end of the text.  The expression is not
    anchored: one such pair is enough for the whole text to be split and
    assigned, whatever surrounds it; only a text without any such pair is
    answered with [{Type: 'Error'}]. *)
Theorem regex_test_spec (data : string) :
  regex_test data = true <-> has_pair (chars data).
Proof.
  unfold regex_test, has_pair. generalize (chars data). intros l. split.
  - induction l as [|c l IH]; cbn [match_anywhere].
    + rewrite orb_false_r. intros found.
      apply match_here_pair in found as (key & value & after & eq & rest).
      now exists [], key, value, after.
    + intros found. apply orb_true_iff in found as [here | later].
      * apply match_here_pair in here as (key & value & after & eq & rest).
        now exists [], key, value, after.
      * destruct (IH later) as (before & key & value & after & -> & rest).
        now exists (c :: before), key, value, after.
  - intros (before & key & value & after & -> & rest).
    induction before as [|c before IH].
    + assert (match_here (key ++ ":"%char :: value ++ after) = true) as here
        by (apply match_here_pair; now exists key, value, after).
      cbn [app]. destruct (key ++ _); cbn [match_anywhere]; now rewrite here.
    + cbn [app match_anywhere]. rewrite IH. apply orb_true_r.
Qed.

(** ** Pieces of a split are parts of the text *)


Lemma text_chars (s : string) : text (chars s) = s.
Proof. apply String.string_of_list_ascii_of_string. Qed.

Lemma chars_append (a b : string) : chars (a +:+ b) = chars a ++ chars b.
Proof.
  unfold chars. induction a as [|c a IH]; [reflexivity|].
  change (String c a +:+ b) with (String c (a +:+ b)).
  cbn [String.list_ascii_of_string app]. now rewrite IH.
Qed.






Lemma get_insert (m : gmap string JsVal) (key k : string) (v : JsVal) :
  get (<[key := v]> m) k = if decide (key = k) then v else get m k.
Proof.
  unfold get. rewrite lookup_insert. now destruct (decide (key = k)).
Qed.



(** ** The selection encoding round trip *)

Lemma split_chars_plain (sep : ascii) (l : list ascii) :
  forallb (fun c => negb (Ascii.eqb c sep)) l = true ->
  split_chars sep l = [l].
Proof.
  induction l as [|c l IH]; [reflexivity|]. cbn [forallb split_chars].
  intros ok. apply andb_true_iff in ok as (here & there).
  apply negb_true_iff in here. rewrite here, (IH there). reflexivity.
Qed.

Lemma split_chars_app (sep : ascii) (first rest : list ascii) :
  forallb (fun c => negb (Ascii.eqb c sep)) first = true ->
  split_chars sep (first ++ sep :: rest) = first :: split_chars sep rest.
Proof.
  induction first as [|c first IH]; cbn [forallb split_chars app].
  - intros _. now rewrite Ascii.eqb_refl.
  - intros ok. apply andb_true_iff in ok as (here & there).
    apply negb_true_iff in here. rewrite here, (IH there). reflexivity.
Qed.

Lemma plain_value_free (v : string) (sep : ascii) :
  plain_value v = true ->
  is_separator sep = true ->
  forallb (fun c => negb (Ascii.eqb c sep)) (chars v) = true.
Proof.
  unfold plain_value. intros ok is_sep.
  apply andb_true_iff in ok as (_ & free).
  rewrite forallb_forall in *. intros c isin.
  specialize (free c isin). apply negb_true_iff in free.
  apply negb_true_iff. destruct (Ascii.eqb_spec c sep) as [-> | _]; congruence.
Qed.

(** One [key:value] element, split at the colon. *)
Lemma split_pair (key value : string) :
  forallb (fun c => negb (Ascii.eqb c ":")) (chars key) = true ->
  plain_value value = true ->
  split ":" (key +:+ ":" +:+ value) = [key; value].
Proof.
  intros key_ok value_ok. unfold split.
  rewrite chars_append.
  change (chars (":" +:+ value)) with (":"%char :: chars value).
  rewrite (split_chars_app ":" _ _ key_ok).
  rewrite (split_chars_plain ":" (chars value))
    by now apply plain_value_free.
  cbn [map]. now rewrite !text_chars.
Qed.

Lemma assign_pair_key_value (response : gmap string JsVal)
    (key value : string) :
  forallb (fun c => negb (Ascii.eqb c ":")) (chars key) = true ->
  plain_value value = true ->
  assign_pair response (key +:+ ":" +:+ value)
  = <[key := coerce (Some value)]> response.
Proof.
  intros key_ok value_ok. unfold assign_pair.
  now rewrite (split_pair key value key_ok value_ok).
Qed.

(** A text up to the next [~], and the rest. *)
Lemma split_first (label value rest : string) :
  forallb (fun c => negb (Ascii.eqb c "~")) (chars label) = true ->
  plain_value value = true ->
  split "~" (label +:+ value +:+ String "~" rest)
  = (label +:+ value) :: split "~" rest.
Proof.
  intros label_ok value_ok. unfold split.
  rewrite !chars_append.
  change (chars (String "~" rest)) with ("~"%char :: chars rest).
  rewrite app_assoc, split_chars_app.
  - cbn [map]. now rewrite <- chars_append, text_chars.
  - rewrite forallb_app, label_ok. now apply plain_value_free.
Qed.

Lemma split_whole (label value : string) :
  forallb (fun c => negb (Ascii.eqb c "~")) (chars label) = true ->
  plain_value value = true ->
  split "~" (label +:+ value) = [label +:+ value].
Proof.
  intros label_ok value_ok. unfold split.
  rewrite split_chars_plain.
  - cbn [map]. now rewrite text_chars.
  - rewrite chars_append, forallb_app, label_ok. now apply plain_value_free.
Qed.

Lemma split_automatic (feature : string) :
  plain_value feature = true ->
  split "~" (automatic_value feature)
  = ["Type:Automatic"; "Feature:" +:+ feature].
Proof.
  intros ok.
  change (automatic_value feature)
    with ("Type:" +:+ "Automatic" +:+ String "~" ("Feature:" +:+ feature)).
  rewrite split_first by reflexivity.
  now rewrite split_whole.
Qed.

Lemma split_preset (cameraId presetId presetName : string) :
  plain_value cameraId = true ->
  plain_value presetId = true ->
  plain_value presetName = true ->
  split "~" (preset_value cameraId presetId presetName)
  = ["Type:Preset"; "CameraId:" +:+ cameraId; "PresetId:" +:+ presetId;
     "PresetName:" +:+ presetName].
Proof.
  intros c_ok p_ok n_ok.
  change (preset_value cameraId presetId presetName)
    with ("Type:" +:+ "Preset" +:+
          String "~" ("CameraId:" +:+ cameraId +:+
          String "~" ("PresetId:" +:+ presetId +:+
          String "~" ("PresetName:" +:+ presetName)))).
  rewrite split_first by reflexivity.
  rewrite split_first by (reflexivity || assumption).
  rewrite split_first by (reflexivity || assumption).
  now rewrite split_whole.
Qed.

Lemma regex_test_automatic (feature : string) :
  regex_test (automatic_value feature) = true.
Proof. reflexivity. Qed.

Lemma regex_test_preset (cameraId presetId presetName : string) :
  regex_test (preset_value cameraId presetId presetName) = true.
Proof. reflexivity. Qed.

Lemma decode_automatic (feature : string) :
  plain_value feature = true ->
  decode (automatic_value feature)
  = <["Feature" := coerce (Some feature)]> {["Type" := JStr "Automatic"]}.
Proof.
  intros ok. unfold decode, parseKeyValuePairs.
  rewrite regex_test_automatic, split_automatic by exact ok.
  cbn [negb snd fold_left].
  change "Type:Automatic" with ("Type" +:+ ":" +:+ "Automatic").
  change ("Feature:" +:+ feature) with ("Feature" +:+ ":" +:+ feature).
  rewrite !assign_pair_key_value by (reflexivity || assumption).
  reflexivity.
Qed.

Lemma decode_preset (cameraId presetId presetName : string) :
  plain_value cameraId = true ->
  plain_value presetId = true ->
  plain_value presetName = true ->
  decode (preset_value cameraId presetId presetName)
  = <["PresetName" := coerce (Some presetName)]>
      (<["PresetId" := coerce (Some presetId)]>
         (<["CameraId" := coerce (Some cameraId)]>
            {["Type" := JStr "Preset"]})).
Proof.
  intros c_ok p_ok n_ok. unfold decode, parseKeyValuePairs.
  rewrite regex_test_preset, split_preset by assumption.
  cbn [negb snd fold_left].
  change "Type:Preset" with ("Type" +:+ ":" +:+ "Preset").
  change ("CameraId:" +:+ cameraId) with ("CameraId" +:+ ":" +:+ cameraId).
  change ("PresetId:" +:+ presetId) with ("PresetId" +:+ ":" +:+ presetId).
  change ("PresetName:" +:+ presetName)
    with ("PresetName" +:+ ":" +:+ presetName).
  rewrite !assign_pair_key_value by (reflexivity || assumption).
  reflexivity.
Qed.

Lemma values_of_automatic (feature : string) :
  plain_value feature = true ->
  values_of (automatic_value feature) = ["Automatic"; feature].
Proof.
  intros ok. unfold values_of. rewrite split_automatic by exact ok.
  cbn [omap list_omap].
  change "Type:Automatic" with ("Type" +:+ ":" +:+ "Automatic").
  change ("Feature:" +:+ feature) with ("Feature" +:+ ":" +:+ feature).
  now rewrite !split_pair by (reflexivity || assumption).
Qed.

Lemma values_of_preset (cameraId presetId presetName : string) :
  plain_value cameraId = true ->
  plain_value presetId = true ->
  plain_value presetName = true ->
  values_of (preset_value cameraId presetId presetName)
  = ["Preset"; cameraId; presetId; presetName].
Proof.
  intros c_ok p_ok n_ok. unfold values_of.
  rewrite split_preset by assumption.
  cbn [omap list_omap].
  change "Type:Preset" with ("Type" +:+ ":" +:+ "Preset").
  change ("CameraId:" +:+ cameraId) with ("CameraId" +:+ ":" +:+ cameraId).
  change ("PresetId:" +:+ presetId) with ("PresetId" +:+ ":" +:+ presetId).
  change ("PresetName:" +:+ presetName)
    with ("PresetName" +:+ ":" +:+ presetName).
  now rewrite !split_pair by (reflexivity || assumption).
Qed.

(** Texts that [Number] does not read as a number are canonical, whatever
    they are. *)
Lemma canonical_text `{D : Doubles} (v : string) :
  to_number v = None -> canonical v = true.
Proof.
  intros nan. unfold canonical, coerce. rewrite nan. apply String.eqb_refl.
Qed.

Example canonical_values :
  map (canonical (D := literal_doubles))
    ["Room"; "2"; "-12"; "Room 1"; "007"; "1e3"; "+3"; " 5"; "0x1F"]
  = [true; true; true; true; false; false; false; false; false].
Proof. reflexivity. Qed.

(** C3, as amended.  Decoding a well-formed encoded selection and encoding
    the result gives the selection back exactly, provided each of its
    values is canonical: a text that [Number] does not read as a number, or
    the very text its number prints as ([2], [Room], but not [007], which
    comes back as [7]). *)
Theorem roundtrip_canonical `{D : Doubles} (s : string) :
  WellFormed s ->
  forallb canonical (values_of s) = true ->
  encode (decode s) = s.
Proof.
  intros [feature ok | cameraId presetId presetName c_ok p_ok n_ok] canon.
  - rewrite values_of_automatic in canon by exact ok.
    cbn [forallb] in canon.
    apply andb_true_iff in canon as (_ & canon).
    apply andb_true_iff in canon as (canon & _).
    apply String.eqb_eq in canon.
    rewrite decode_automatic by exact ok. unfold encode.
    rewrite !get_insert. cbn [decide]. unfold get.
    rewrite lookup_singleton_eq. cbn [default is_str].
    change (String.eqb "Automatic" "Automatic") with true. cbn match.
    destruct (decide ("Feature" = "Type")) as [absurd|_]; [discriminate|].
    destruct (decide ("Feature" = "Feature")) as [_|absurd]; [|now destruct absurd].
    cbn [default is_str].
    change (String.eqb "Automatic" "Automatic") with true. cbn match.
    now rewrite canon.
  - rewrite values_of_preset in canon by assumption.
    cbn [forallb] in canon.
    apply andb_true_iff in canon as (_ & canon).
    apply andb_true_iff in canon as (canon_c & canon).
    apply andb_true_iff in canon as (canon_p & canon).
    apply andb_true_iff in canon as (canon_n & _).
    apply String.eqb_eq in canon_c, canon_p, canon_n.
    rewrite decode_preset by assumption. unfold encode.
    rewrite !get_insert. unfold get. rewrite !lookup_singleton_eq,
      ?lookup_singleton_ne by discriminate.
    repeat match goal with
           | |- context [decide (?a = ?b)] =>
               destruct (decide (a = b)); try discriminate; try congruence
           end.
    cbn [default is_str].
    change (String.eqb "Preset" "Automatic") with false.
    change (String.eqb "Preset" "Preset") with true. cbn match.
    unfold preset_value. now rewrite canon_c, canon_p, canon_n.
Qed.

Lemma roundtrip_canonical_witness :
  encode (D := literal_doubles)
    (decode "Type:Preset~CameraId:2~PresetId:3~PresetName:Room")
  = "Type:Preset~CameraId:2~PresetId:3~PresetName:Room".
Proof.
  apply (roundtrip_canonical (D := literal_doubles)
           (preset_value "2" "3" "Room")).
  - exact (wf_preset "2" "3" "Room" eq_refl eq_refl eq_refl).
  - reflexivity.
Defined.

(** C3, as stated, fails: a preset named [007] gives a well-formed encoded
    selection whose name decodes to the number 7 and is encoded back as
    [7]. *)
Lemma roundtrip_fails_on_padded_number :
  WellFormed padded_preset
  /\ encode (D := literal_doubles) (decode padded_preset)
     = "Type:Preset~CameraId:2~PresetId:3~PresetName:7"
  /\ encode (D := literal_doubles) (decode padded_preset) <> padded_preset.
Proof.
  split; [|split].
  - exact (wf_preset "2" "3" "007" eq_refl eq_refl eq_refl).
  - reflexivity.
  - discriminate.
Qed.

(** ** The remembered selection *)

Create HintDb keeps.

Lemma keeps_ret {A : Type} (a : A) : keeps_selection (mret a).
Proof. now intros s. Qed.

Lemma keeps_throw {A : Type} : keeps_selection (@throw A).
Proof. now intros s. Qed.

Lemma keeps_bind {A B : Type} (m : M A) (k : A -> M B) :
  keeps_selection m -> (forall a, keeps_selection (k a)) ->
  keeps_selection (m ≫= k).
Proof.
  intros km kk s. specialize (km s). unfold mbind, M_bind, final in *.
  destruct (m s) as [[a| |] s']; cbn in *; try exact km.
  now rewrite <- km, <- (kk a s').
Qed.

Lemma keeps_try_catch {A : Type} (body handler : M A) :
  keeps_selection body -> keeps_selection handler ->
  keeps_selection (try_catch body handler).
Proof.
  intros kb kh s. specialize (kb s). unfold try_catch, final in *.
  destruct (body s) as [[a| |] s']; cbn in *; try exact kb.
  now rewrite <- kb, <- (kh s').
Qed.

Lemma keeps_update (f : State -> State) :
  (forall s, lastPresetSelection (f s) = lastPresetSelection s) ->
  keeps_selection (update f).
Proof. intros same s. apply same. Qed.

Lemma keeps_console (level : Level) (message : string) :
  keeps_selection (console level message).
Proof. now intros s. Qed.

Lemma keeps_handleError (context type : string) :
  keeps_selection (handleError context type).
Proof. unfold handleError. apply keeps_console. Qed.

Lemma keeps_if {A : Type} (b : bool) (m1 m2 : M A) :
  keeps_selection m1 -> keeps_selection m2 ->
  keeps_selection (if b then m1 else m2).
Proof. now destruct b. Qed.

#[local] Hint Resolve keeps_ret keeps_throw keeps_console keeps_handleError
  : keeps.

Ltac keeps_step :=
  first
    [ apply keeps_bind; [|intros ?]
    | apply keeps_try_catch
    | apply keeps_if
    | apply keeps_update; intros ?; reflexivity
    | solve [auto with keeps] ].

Section Memory.
Context {D : Doubles}.
Variable W : World.

Lemma keeps_xapi (c : Cmd) : keeps_selection (xapi W c).
Proof. now intros s. Qed.

Lemma keeps_await (c : Cmd) : keeps_selection (await W c).
Proof.
  unfold await. apply keeps_bind; [apply keeps_xapi|].
  intros []; auto with keeps.
Qed.

Lemma keeps_fire (c : Cmd) : keeps_selection (fire W c).
Proof.
  unfold fire. apply keeps_bind; [apply keeps_xapi | auto with keeps].
Qed.

Lemma keeps_catching (c : Cmd) (handler : M unit) :
  keeps_selection handler -> keeps_selection (catching W c handler).
Proof.
  intros kh. unfold catching. apply keeps_bind; [apply keeps_xapi|].
  intros []; auto with keeps.
Qed.

Hint Resolve keeps_xapi keeps_await keeps_fire keeps_catching : keeps.

Lemma keeps_await_monitor (cameraId : JsVal) :
  keeps_selection (await_monitor W cameraId).
Proof.
  intros s. unfold await_monitor.
  now destruct (resolution _) as [[o t]|].
Qed.

Hint Resolve keeps_await_monitor : keeps.

Lemma keeps_deactivate_tracking : keeps_selection (deactivate_tracking W).
Proof. unfold deactivate_tracking. repeat keeps_step. Qed.

Lemma keeps_wait_for_settle (cameraId : JsVal) :
  keeps_selection (wait_for_settle W cameraId).
Proof. unfold wait_for_settle. repeat keeps_step. Qed.

Hint Resolve keeps_deactivate_tracking keeps_wait_for_settle : keeps.

Lemma keeps_activateCameraPreset (presetInfo : gmap string JsVal) :
  keeps_selection (activateCameraPreset W presetInfo).
Proof. unfold activateCameraPreset. repeat keeps_step. Qed.

Lemma keeps_activate_first_default (catalog : list PresetRecord) :
  keeps_selection (activate_first_default W catalog).
Proof.
  induction catalog as [|p catalog IH]; cbn [activate_first_default].
  - auto with keeps.
  - apply keeps_if; [repeat keeps_step | exact IH].
Qed.

Hint Resolve keeps_activateCameraPreset keeps_activate_first_default : keeps.



Lemma keeps_on_CameraPresetActivated (PresetId CameraId : JsVal) :
  keeps_selection (on_CameraPresetActivated W PresetId CameraId).
Proof. unfold on_CameraPresetActivated. repeat keeps_step. Qed.





End Memory.

(** With nothing remembered, or an error object, the value re-set is empty. *)
Lemma encode_nothing `{D : Doubles} :
  encode ∅ = "" /\ encode error_object = "".
Proof. split; reflexivity. Qed.




(** * Further properties *)

(** ** More on the settle monitor *)

Section SettleTrace.
Context {D : Doubles}.
Variable ff : bool.
Variable position : JsVal -> nat -> list Tick.
Variable cameraId : JsVal.

Local Abbreviation monitor :=
  (monitorCameraStoppedPosition ff position cameraId).

Lemma on_position_trace (now : nat) (m : Monitor) (k : Tick) :
  In k (position cameraId now) ->
  settle_trace_inv position cameraId now m ->
  settle_trace_inv position cameraId now (on_position now m k).
Proof.
  intros isin inv. unfold on_position.
  destruct (subscribed m) eqn:live; cbn [negb]; [|exact inv].
  destruct (at_rest k) eqn:rest; [exact inv|].
  destruct inv as (armed & stopped & count).
  split; [|split]; cbn.
  - intros d [= <-]. exists now. repeat split; auto. now exists k.
  - intros t res. destruct (stopped t res) as (_ & dead & _). congruence.
  - now rewrite live in *.
Qed.

Lemma deliver_trace (now : nat) (updates : list Tick) (m : Monitor) :
  (forall k, In k updates -> In k (position cameraId now)) ->
  settle_trace_inv position cameraId now m ->
  settle_trace_inv position cameraId now
    (fold_left (on_position now) updates m).
Proof.
  revert m. induction updates as [|k updates IH]; intros m sub inv; cbn.
  - exact inv.
  - apply IH; [intros; apply sub; now right|].
    apply on_position_trace; [apply sub; now left | exact inv].
Qed.

Lemma fire_due_trace (n : nat) (m : Monitor) :
  settle_inv n m ->
  settle_trace_inv position cameraId n m ->
  settle_trace_inv position cameraId (S n) (fire_due ff (S n) m).
Proof.
  intros inv (armed & stopped & count).
  assert (settle_trace_inv position cameraId (S n) m) as kept.
  { split; [|split]; auto.
    intros d is_armed. destruct (armed d is_armed) as (t0 & le & rest).
    exists t0. split; [lia | exact rest]. }
  assert (settle_trace_inv position cameraId (S n) (fire_failsafe (S n) m))
    as failsafe.
  { split; [|split]; cbn; [discriminate| |exact count].
    intros t res. unfold settle in res.
    destruct (resolution m) as [[o t']|] eqn:before; [|discriminate].
    injection res as -> ->.
    destruct (stopped t eq_refl) as (origin & dead & _). auto. }
  assert (is_due (debounce_run m) (S n) = true ->
          settle_trace_inv position cameraId (S n) (fire_debounce (S n) m))
    as debounce.
  { intros due. unfold is_due in due.
    destruct (debounce_run m) as [d|] eqn:idle; [|discriminate].
    apply Nat.leb_le in due.
    destruct (armed d eq_refl) as (t0 & le & -> & origin).
    split; [|split]; cbn; [discriminate| |].
    - intros t res. repeat split. unfold settle in res.
      unfold settle_inv in inv.
      destruct (resolution m) as [[o t']|] eqn:before.
      + injection res as -> ->.
        destruct (stopped t eq_refl) as (_ & _ & _ & nodeb). discriminate.
      + injection res as <-. destruct inv as (_ & _ & _ & ahead & _).
        specialize (ahead _ idle). exists t0. split; [lia | exact origin].
    - unfold unsubscribes in *. cbn.
      destruct (subscribed m); cbn; rewrite ?filter_app; cbn;
        rewrite ?length_app; cbn; lia. }
  unfold fire_due.
  destruct (is_due (failsafe_run m) (S n)),
    (is_due (debounce_run m) (S n)) eqn:due, ff; auto.
Qed.

Lemma monitor_trace (n : nat) :
  settle_trace_inv position cameraId n (monitor n).
Proof.
  induction n as [|n IH]; cbn [monitorCameraStoppedPosition].
  - apply deliver_trace; [auto|]. repeat split; cbn; discriminate.
  - unfold millisecond. apply deliver_trace; [auto|].
    apply fire_due_trace; [apply monitor_inv | exact IH].
Qed.
End SettleTrace.

(** X1.  A wait is never reported as stopped unless the camera did move:
    when the promise resolves as stopped at time [t], some position update
    of millisecond [t - 250] showed movement; so that outcome never comes
    earlier than 250 ms into the wait. *)
Theorem stopped_follows_movement `{D : Doubles} (ff : bool)
    (position : JsVal -> nat -> list Tick) (cameraId : JsVal) (n t : nat) :
  resolution (monitorCameraStoppedPosition ff position cameraId n)
  = Some (Stopped, t) ->
  250 <= t /\ moved position cameraId (t - 250).
Proof.
  intros res.
  destruct (monitor_trace ff position cameraId n) as (_ & stopped & _).
  destruct (stopped t res) as ((t0 & -> & origin) & _).
  unfold debounce_length. split; [lia|].
  now replace (t0 + 250 - 250) with t0 by lia.
Qed.

Lemma stopped_follows_movement_witness :
  250 <= 260 /\ moved (D := literal_doubles) nudge (JNum (Int 1)) (260 - 250).
Proof.
  apply (stopped_follows_movement (D := literal_doubles)
           true nudge (JNum (Int 1)) 300 260).
  vm_compute. reflexivity.
Defined.

(** X2.  The stopped path cleans up after itself: once the wait has
    resolved as stopped, the subscription is gone and neither timer is
    pending, at that moment and ever after. *)
Theorem stopped_leaves_nothing `{D : Doubles} (ff : bool)
    (position : JsVal -> nat -> list Tick) (cameraId : JsVal) (n t : nat) :
  resolution (monitorCameraStoppedPosition ff position cameraId n)
  = Some (Stopped, t) ->
  forall later, n <= later ->
    let m := monitorCameraStoppedPosition ff position cameraId later in
    subscribed m = false /\ failsafe_run m = None /\ debounce_run m = None.
Proof.
  intros res later le m. subst m.
  pose proof (monitor_stable_le ff position cameraId n later _ le res) as res'.
  destruct (monitor_trace ff position cameraId later) as (_ & stopped & _).
  now destruct (stopped t res') as (_ & dead & nofs & nodeb).
Qed.

Lemma stopped_leaves_nothing_witness :
  let m := monitorCameraStoppedPosition (D := literal_doubles)
             true nudge (JNum (Int 1)) 3000 in
  subscribed m = false /\ failsafe_run m = None /\ debounce_run m = None.
Proof.
  apply (stopped_leaves_nothing (D := literal_doubles)
           true nudge (JNum (Int 1)) 300 260).
  - vm_compute. reflexivity.
  - lia.
Defined.

(** X3.  The unsubscribe function is effective at most once: whatever the
    updates and however long the monitor runs, it has unsubscribed once if
    the subscription is gone and never if it is still registered. *)
Theorem unsubscribes_at_most_once `{D : Doubles} (ff : bool)
    (position : JsVal -> nat -> list Tick) (cameraId : JsVal) (n : nat) :
  let m := monitorCameraStoppedPosition ff position cameraId n in
  unsubscribes (actions m) = (if subscribed m then 0 else 1).
Proof.
  now destruct (monitor_trace ff position cameraId n) as (_ & _ & count).
Qed.

Section Restless.
Context {D : Doubles}.
Variable ff : bool.
Variable position : JsVal -> nat -> list Tick.
Variable cameraId : JsVal.

Local Abbreviation monitor :=
  (monitorCameraStoppedPosition ff position cameraId).

Lemma moved_dec (t : nat) :
  moved position cameraId t
  \/ forall k, In k (position cameraId t) -> at_rest k = true.
Proof.
  unfold moved. induction (position cameraId t) as [|k l [(k' & isin & mv) | rest]].
  - right. intros k [].
  - left. exists k'. split; [now right | exact mv].
  - destruct (at_rest k) eqn:here.
    + right. intros k' [<- | isin]; auto.
    + left. exists k. split; [now left | exact here].
Qed.

Lemma monitor_zero :
  monitor 0 = fold_left (on_position 0) (position cameraId 0) monitor_start.
Proof. reflexivity. Qed.

Lemma monitor_succ (n : nat) :
  monitor (S n)
  = millisecond ff (S n) (position cameraId (S n)) (monitor n).
Proof. reflexivity. Qed.

(** The updates of millisecond [now], delivered to an unsettled monitor
    whose idle timer, if armed, dates from the latest movement before. *)
Lemma deliver_restless (now : nat) (m : Monitor) :
  resolution m = None ->
  subscribed m = true ->
  (debounce_run m = None
   \/ exists t0, t0 < now
                 /\ debounce_run m = Some (t0 + debounce_length)
                 /\ forall t, t0 < t < now -> ~ moved position cameraId t) ->
  restless_inv position cameraId now
    (fold_left (on_position now) (position cameraId now) m).
Proof.
  intros unsettled live idle.
  destruct (moved_dec now) as [mv | rest].
  - split; [now rewrite (proj1 (deliver_keeps _ _ _))|].
    right. exists now. split; [lia|]. split; [|intros t range; lia].
    now apply deliver_moving.
  - rewrite deliver_at_rest by exact rest.
    assert (~ moved position cameraId now) as still.
    { intros (k & isin & mv). rewrite (rest k isin) in mv. discriminate. }
    split; [exact unsettled|].
    destruct idle as [none | (t0 & le & armed & quiet)]; [now left|].
    right. exists t0. split; [lia|]. split; [exact armed|].
    intros t range.
    assert (t = now \/ t < now) as [-> | before] by lia; [exact still|].
    apply quiet. lia.
Qed.

Lemma monitor_restless (n : nat) :
  (forall t0, moved position cameraId t0 ->
     t0 + 250 <= 2500 ->
     exists t1, t0 < t1 < t0 + 250 /\ moved position cameraId t1) ->
  n < 2500 ->
  restless_inv position cameraId n (monitor n) /\ subscribed (monitor n) = true.
Proof.
  intros restless. induction n as [|n IH]; intros early.
  - rewrite monitor_zero.
    split; [|now rewrite (proj1 (proj2 (deliver_keeps _ _ _)))].
    apply deliver_restless; [reflexivity | reflexivity | now left].
  - rewrite monitor_succ. unfold millisecond.
    destruct (IH ltac:(lia)) as ((res & idle) & live).
    pose proof (monitor_inv ff position cameraId n) as inv.
    pose proof (monitor_trace ff position cameraId n) as (origin & _).
    unfold settle_inv in inv. rewrite res in inv.
    destruct inv as (_ & fs & _ & ahead & _).
    assert (fire_due ff (S n) (monitor n) = monitor n) as ->.
    { unfold fire_due. rewrite fs. cbn [is_due].
      unfold failsafeDebounceTime_for_MainSourceSetOnCameraRampStop.
      destruct (Nat.leb_spec 2500 (S n)); [lia|].
      destruct idle as [-> | (t0 & le & armed & quiet)]; [reflexivity|].
      rewrite armed. cbn [is_due]. unfold debounce_length in *.
      destruct (Nat.leb_spec (t0 + 250) (S n)); [|reflexivity].
      destruct (origin _ armed) as (t0' & _ & same & mv).
      assert (t0' = t0) as -> by lia.
      destruct (restless t0 mv ltac:(lia)) as (t1 & range & mv1).
      destruct (quiet t1 ltac:(lia) mv1). }
    split; [|now rewrite (proj1 (proj2 (deliver_keeps _ _ _)))].
    apply deliver_restless; [exact res | exact live |].
    destruct idle as [none | (t0 & le & armed & quiet)]; [now left|].
    right. exists t0. split; [lia|]. split; [exact armed|].
    intros t range. apply quiet. lia.
Qed.
End Restless.

Lemma moved_moves `{D : Doubles} (position : JsVal -> nat -> list Tick)
    (cameraId : JsVal) (t : nat) :
  moved position cameraId t <-> moves position cameraId t.
Proof.
  unfold moved, moves. split; intros (k & isin & test); exists k;
    (split; [exact isin|]); now apply at_rest_some_truthy.
Qed.

(** X4.  The idle timer is a rolling one.  A movement being an update with
    a component that counts as true: as long as every movement is followed
    by another within less than 250 ms, the idle timer never fires, and if
    that lasts up to the failsafe length the wait is unresolved until then
    and resolves as timed out, at 2500 ms, with the subscription still
    registered and never unsubscribed. *)
Theorem restless_camera_times_out `{D : Doubles} (ff : bool)
    (position : JsVal -> nat -> list Tick) (cameraId : JsVal) :
  (forall t0, moves position cameraId t0 ->
     t0 + 250 <= 2500 ->
     exists t1, t0 < t1 < t0 + 250 /\ moves position cameraId t1) ->
  (forall n, n < 2500 ->
     resolution (monitorCameraStoppedPosition ff position cameraId n) = None)
  /\ (forall n, 2500 <= n ->
        resolution (monitorCameraStoppedPosition ff position cameraId n)
        = Some (TimedOut, 2500))
  /\ forall n, n <= 2500 ->
       subscribed (monitorCameraStoppedPosition ff position cameraId n) = true
       /\ unsubscribes
            (actions (monitorCameraStoppedPosition ff position cameraId n))
          = 0.
Proof.
  intros restless_values.
  assert (forall t0, moved position cameraId t0 ->
            t0 + 250 <= 2500 ->
            exists t1, t0 < t1 < t0 + 250 /\ moved position cameraId t1)
    as restless.
  { intros t0 mv early.
    destruct (restless_values t0 (proj1 (moved_moves _ _ _) mv) early)
      as (t1 & range & mv1).
    exists t1. split; [exact range|]. now apply moved_moves. }
  clear restless_values.
  assert (forall n, n <= 2500 ->
            subscribed (monitorCameraStoppedPosition ff position cameraId n)
            = true) as registered.
  { intros n le. assert (n < 2500 \/ n = 2500) as [early | ->] by lia.
    - now destruct (monitor_restless ff position cameraId n restless early).
    - rewrite (monitor_succ ff position cameraId 2499). unfold millisecond.
      rewrite (proj1 (proj2 (deliver_keeps _ _ _))).
      destruct (monitor_restless ff position cameraId 2499 restless
                  ltac:(lia)) as ((res & idle) & before).
      pose proof (monitor_inv ff position cameraId 2499) as inv.
      pose proof (monitor_trace ff position cameraId 2499) as (origin & _).
      unfold settle_inv in inv. rewrite res in inv.
      destruct inv as (_ & fs & _ & _ & _).
      unfold fire_due. rewrite fs.
      change (is_due
                (Some failsafeDebounceTime_for_MainSourceSetOnCameraRampStop)
                2500) with true.
      assert (is_due (debounce_run (monitorCameraStoppedPosition ff position
                                      cameraId 2499)) 2500 = false) as ->.
      { destruct idle as [-> | (t0 & le0 & armed & quiet)]; [reflexivity|].
        rewrite armed. cbn [is_due]. unfold debounce_length in *.
        destruct (Nat.leb_spec (t0 + 250) 2500); [|reflexivity].
        destruct (origin _ armed) as (t0' & _ & same & mv).
        assert (t0' = t0) as -> by lia.
        destruct (restless t0 mv ltac:(lia)) as (t1 & range & mv1).
        destruct (quiet t1 ltac:(lia) mv1). }
      exact before. }
  split; [|split].
  - intros n early.
    now destruct (monitor_restless ff position cameraId n restless early)
      as ((res & _) & _).
  - intros n late.
    apply (monitor_stable_le ff position cameraId 2500 n _ late).
    rewrite (monitor_succ ff position cameraId 2499). unfold millisecond.
    rewrite (proj1 (deliver_keeps _ _ _)).
    destruct (monitor_restless ff position cameraId 2499 restless ltac:(lia))
      as ((res & idle) & live).
    pose proof (monitor_inv ff position cameraId 2499) as inv.
    pose proof (monitor_trace ff position cameraId 2499) as (origin & _).
    unfold settle_inv in inv. rewrite res in inv.
    destruct inv as (_ & fs & _ & ahead & _).
    unfold fire_due. rewrite fs.
    change (is_due (Some failsafeDebounceTime_for_MainSourceSetOnCameraRampStop)
              2500) with true.
    assert (is_due (debounce_run (monitorCameraStoppedPosition ff position
                                    cameraId 2499)) 2500 = false) as ->.
    { destruct idle as [-> | (t0 & le & armed & quiet)]; [reflexivity|].
      rewrite armed. cbn [is_due]. unfold debounce_length in *.
      destruct (Nat.leb_spec (t0 + 250) 2500); [|reflexivity].
      destruct (origin _ armed) as (t0' & _ & same & mv).
      assert (t0' = t0) as -> by lia.
      destruct (restless t0 mv ltac:(lia)) as (t1 & range & mv1).
      destruct (quiet t1 ltac:(lia) mv1). }
    cbn. now rewrite res.
  - intros n le. split; [now apply registered|].
    pose proof (monitor_trace ff position cameraId n) as (_ & _ & once).
    now rewrite (registered n le) in once.
Qed.

Lemma restless_camera_times_out_witness :
  resolution (monitorCameraStoppedPosition (D := literal_doubles)
                true busy (JNum (Int 1)) 2499) = None
  /\ resolution (monitorCameraStoppedPosition (D := literal_doubles)
                   true busy (JNum (Int 1)) 3000) = Some (TimedOut, 2500)
  /\ subscribed (monitorCameraStoppedPosition (D := literal_doubles)
                   true busy (JNum (Int 1)) 2500) = true
  /\ unsubscribes
       (actions (monitorCameraStoppedPosition (D := literal_doubles)
                   true busy (JNum (Int 1)) 2500)) = 0.
Proof.
  destruct (restless_camera_times_out (D := literal_doubles)
              true busy (JNum (Int 1))) as (early & late & live).
  - intros t0 _ _. exists (S t0). split; [lia|].
    exists moving_tick. split; [now left|].
    left. apply truthy_integer. lia.
  - split; [apply early; lia|]. split; [apply late; lia|].
    apply live. lia.
Defined.

(** ** More on the command sequencer *)

Section SequencerMore.
Context {D : Doubles}.
Variable W : World.

(** The wait moves the clock forward, by the failsafe length at most. *)
Lemma wait_for_settle_clock (cameraId : JsVal) (s : State) :
  now s <= now (final (wait_for_settle W cameraId s))
  <= now s + failsafeDebounceTime_for_MainSourceSetOnCameraRampStop.
Proof.
  unfold wait_for_settle.
  destruct (MainSourceSetOnCameraRampStop (features W)); [|cbn; lia].
  destruct (monitor_resolves (failsafe_first W)
              (fun cam t => position W cam (now s + t)) cameraId)
    as (o & t & le & settled).
  unfold await_monitor. monad_unfold. cbn [emit now].
  rewrite settled. cbn. lia.
Qed.

(** The gate once a single close timer is pending. *)
Lemma elapse_single (ms delay : nat) (s : State) (h : nat) :
  presetPositioningBypass s = true ->
  timers s = [(h, now s + delay)] ->
  presetPositioningBypass (elapse ms s) = (ms <? delay)
  /\ timers (elapse ms s) = (if ms <? delay then timers s else []).
Proof.
  intros gate single. cbn [elapse presetPositioningBypass timers].
  rewrite single, gate. cbn [forallb List.filter]. unfold pending.
  cbn [snd andb].
  destruct (Nat.ltb_spec (now s + ms) (now s + delay)),
    (Nat.ltb_spec ms delay); try lia; cbn; auto.
Qed.

Lemma activateCameraPreset_accepted (presetInfo : gmap string JsVal)
    (s : State) :
  is_undefined (get presetInfo "CameraId") = false ->
  is_undefined (get presetInfo "PresetId") = false ->
  (forall history,
     accepts W history
       (Video_Input_SetMainVideoSource (get presetInfo "CameraId")) = true) ->
  exists s2,
    activateCameraPreset W presetInfo s
    = (Returned tt,
       schedule_close 3000
         (emits [Console LLog "Camera Preset Activated";
                 Call (Video_Input_SetMainVideoSource (get presetInfo "CameraId"));
                 Console LDebug "Setting MainSource for Camera Preset"] s2))
    /\ calls s2
       = calls s ++ [Cameras_SpeakerTrack_Deactivate;
                     Cameras_SpeakerTrack_Frames_Deactivate;
                     Cameras_PresenterTrack_Set "Off";
                     Camera_Preset_Activate (get presetInfo "PresetId")]
    /\ next_handle s2 = next_handle s
    /\ (forall t, In t (timers s2) -> In t (timers (cancel s)))
    /\ (timers (cancel s) = [] -> presetPositioningBypass s2 = true)
    /\ now s <= now s2
       <= now s + failsafeDebounceTime_for_MainSourceSetOnCameraRampStop.
Proof.
  intros has_camera has_preset accepted.
  destruct (deactivate_tracking_returns W (with_bypass true (cancel s)))
    as (effects & run & issued).
  unfold activateCameraPreset.
  rewrite (bind_returned (update cancel) _ s (cancel s) tt eq_refl).
  rewrite (bind_returned (update (with_bypass true)) _ (cancel s)
             (with_bypass true (cancel s)) tt eq_refl).
  rewrite (bind_returned _ _ _ _ _ run).
  destruct (emits_fields effects (with_bypass true (cancel s)))
    as (gate & _ & _ & same_timers & same_next & same_now).
  pose proof (calls_emits effects (with_bypass true (cancel s))) as issued'.
  rewrite issued in issued'.
  change (calls (with_bypass true (cancel s))) with (calls s) in issued'.
  change (timers (with_bypass true (cancel s))) with (timers (cancel s))
    in same_timers.
  cbn in gate, same_next, same_now.
  set (s1 := emits effects (with_bypass true (cancel s))) in *.
  clearbody s1. clear run.
  rewrite has_camera, has_preset. cbn [orb].
  rewrite (bind_returned (mret tt) _ s1 s1 tt eq_refl).
  rewrite (bind_returned (console LDebug "Setting Preset") _ s1 _ tt eq_refl).
  rewrite (bind_returned (fire W _) _ _ _ tt eq_refl).
  set (st := emit (Call (Camera_Preset_Activate (get presetInfo "PresetId")))
               (emit (Console LDebug "Setting Preset") s1)).
  destruct (wait_for_settle_returns W (get presetInfo "CameraId") st)
    as (s2 & waited & calls2 & next2 & timers2 & _ & gate2).
  pose proof (wait_for_settle_clock (get presetInfo "CameraId") st) as clock.
  rewrite waited in clock. cbn [final snd] in clock.
  rewrite (bind_returned _ _ _ _ _ waited).
  exists s2. split; [|split; [|split; [|split; [|split]]]].
  - monad_unfold. cbn [emit trace]. now rewrite accepted.
  - rewrite calls2. subst st. read_calls. fold (calls s1).
    rewrite issued'. now rewrite <- app_assoc.
  - rewrite next2. exact same_next.
  - intros t isin. apply timers2 in isin. cbn in isin.
    now rewrite same_timers in isin.
  - intros idle. rewrite gate2; [exact gate|]. cbn.
    now rewrite same_timers.
  - subst st. cbn in clock. lia.
Qed.

Lemma activate_first_default_skips (before after : list PresetRecord)
    (p : PresetRecord) (s : State) :
  (forall q, In q before -> is_default q = false) ->
  activate_first_default W (before ++ p :: after) s
  = activate_first_default W (p :: after) s.
Proof.
  induction before as [|q before IH]; intros none; [reflexivity|].
  cbn [app activate_first_default]. rewrite (none q) by now left.
  apply IH. intros q' ?. apply none. now right.
Qed.
End SequencerMore.

(** X5.  A preset with both identifiers, on a device that accepts the
    source switch: the activation returns having issued, in this order and
    exactly once each, the three tracking deactivations, the preset
    activation with its PresetId and the source switch with its CameraId.
    With no other timer pending, the gate is then set and one timer is
    pending that clears it 3000 ms after the call ended: the gate is still
    set at any earlier time and cleared from then on.  The call itself
    lasts at most the failsafe length. *)
Theorem preset_activation_sequence `{D : Doubles} (W : World)
    (presetInfo : gmap string JsVal) (s : State) :
  is_undefined (get presetInfo "CameraId") = false ->
  is_undefined (get presetInfo "PresetId") = false ->
  (forall history,
     accepts W history
       (Video_Input_SetMainVideoSource (get presetInfo "CameraId")) = true) ->
  timers (cancel s) = [] ->
  let r := activateCameraPreset W presetInfo s in
  outcome r = Returned tt
  /\ calls (final r)
     = calls s ++ [Cameras_SpeakerTrack_Deactivate;
                   Cameras_SpeakerTrack_Frames_Deactivate;
                   Cameras_PresenterTrack_Set "Off";
                   Camera_Preset_Activate (get presetInfo "PresetId");
                   Video_Input_SetMainVideoSource (get presetInfo "CameraId")]
  /\ now s <= now (final r) <= now s + 2500
  /\ presetPositioningBypass (final r) = true
  /\ timers (final r) = [(next_handle s, now (final r) + 3000)]
  /\ forall ms,
       presetPositioningBypass (elapse ms (final r)) = (ms <? 3000).
Proof.
  intros has_camera has_preset accepted idle r. subst r.
  destruct (activateCameraPreset_accepted W presetInfo s has_camera has_preset
              accepted)
    as (s2 & -> & issued & next & pending_timers & gate & clock).
  unfold outcome, final. cbn [fst snd].
  assert (timers s2 = []) as none.
  { destruct (timers s2) as [|t l]; [reflexivity|].
    specialize (pending_timers t (or_introl eq_refl)).
    rewrite idle in pending_timers. destruct pending_timers. }
  assert (timers (schedule_close 3000
            (emits [Console LLog "Camera Preset Activated";
                    Call (Video_Input_SetMainVideoSource (get presetInfo "CameraId"));
                    Console LDebug "Setting MainSource for Camera Preset"] s2))
          = [(next_handle s, now s2 + 3000)]) as single.
  { cbn. now rewrite none, next. }
  split; [reflexivity|]. split; [|split; [|split; [|split]]].
  - read_calls. fold (calls s2). rewrite issued. now rewrite <- app_assoc.
  - exact clock.
  - cbn. now apply gate.
  - exact single.
  - intros ms.
    apply (elapse_single ms 3000 _ (next_handle s)); [|exact single].
    cbn. now apply gate.
Qed.

Lemma preset_activation_sequence_witness :
  let r := activateCameraPreset (D := literal_doubles)
             (still_world obliging []) (decode room_payload) init_state in
  outcome r = Returned tt
  /\ calls (final r)
     = calls init_state ++
       [Cameras_SpeakerTrack_Deactivate;
        Cameras_SpeakerTrack_Frames_Deactivate;
        Cameras_PresenterTrack_Set "Off";
        Camera_Preset_Activate (get (decode room_payload) "PresetId");
        Video_Input_SetMainVideoSource (get (decode room_payload) "CameraId")]
  /\ now init_state <= now (final r) <= now init_state + 2500
  /\ presetPositioningBypass (final r) = true
  /\ timers (final r) = [(next_handle init_state, now (final r) + 3000)]
  /\ forall ms,
       presetPositioningBypass (elapse ms (final r)) = (ms <? 3000).
Proof.
  apply (preset_activation_sequence (D := literal_doubles)
           (still_world obliging []) (decode room_payload) init_state);
    reflexivity.
Defined.

(** X6.  The default preset is the first record of the catalog, in catalog
    order, whose DefaultPosition reads true in any letter case; later
    defaults are not touched.  On a device that answers the catalog query
    and accepts the activation and the source switch, the call returns
    having issued exactly the three deactivations, the query, that preset's
    activation and the switch to its camera; the refreshed catalog is kept;
    with no other timer pending the gate is set and is cleared 2600 ms
    after the call ended. *)
Theorem first_default_is_activated `{D : Doubles} (W : World) (s : State)
    (before after : list PresetRecord) (p : PresetRecord) :
  presets W = before ++ p :: after ->
  (forall q, In q before -> is_default q = false) ->
  is_default p = true ->
  (forall history, accepts W history Camera_Preset_List = true) ->
  (forall history,
     accepts W history (Camera_Preset_Activate (p_PresetId p)) = true) ->
  (forall history,
     accepts W history (Video_Input_SetMainVideoSource (p_CameraId p)) = true) ->
  timers (cancel s) = [] ->
  let r := activateDefaultCameraPreset W s in
  outcome r = Returned tt
  /\ calls (final r)
     = calls s ++ [Cameras_SpeakerTrack_Deactivate;
                   Cameras_SpeakerTrack_Frames_Deactivate;
                   Cameras_PresenterTrack_Set "Off";
                   Camera_Preset_List;
                   Camera_Preset_Activate (p_PresetId p);
                   Video_Input_SetMainVideoSource (p_CameraId p)]
  /\ availableCameraPresets (final r) = presets W
  /\ presetPositioningBypass (final r) = true
  /\ timers (final r) = [(next_handle s, now (final r) + 2600)]
  /\ forall ms,
       presetPositioningBypass (elapse ms (final r)) = (ms <? 2600).
Proof.
  intros catalog none is_def listed activated switched idle r. subst r.
  destruct (deactivate_tracking_returns W (with_bypass true (cancel s)))
    as (effects & run & issued).
  unfold activateDefaultCameraPreset.
  rewrite (bind_returned (update cancel) _ s (cancel s) tt eq_refl).
  rewrite (bind_returned (update (with_bypass true)) _ (cancel s)
             (with_bypass true (cancel s)) tt eq_refl).
  rewrite (bind_returned _ _ _ _ _ run).
  destruct (emits_fields effects (with_bypass true (cancel s)))
    as (gate & _ & _ & same_timers & same_next & _).
  pose proof (calls_emits effects (with_bypass true (cancel s))) as issued'.
  rewrite issued in issued'.
  change (calls (with_bypass true (cancel s))) with (calls s) in issued'.
  change (timers (with_bypass true (cancel s))) with (timers (cancel s))
    in same_timers.
  rewrite idle in same_timers. cbn in gate, same_next.
  set (s1 := emits effects (with_bypass true (cancel s))) in *.
  clearbody s1. clear run.
  assert (await W Camera_Preset_List s1
          = (Returned tt, emit (Call Camera_Preset_List) s1)) as queried.
  { unfold await. monad_unfold. now rewrite listed. }
  rewrite (bind_returned _ _ _ _ _ queried).
  rewrite (bind_returned (update (with_presets (presets W))) _ _ _ tt eq_refl).
  set (s2 := with_presets (presets W) (emit (Call Camera_Preset_List) s1)).
  set (s3 := emit (Console LDebug
                     "Default Camera Preset Found, setting preset position") s2).
  set (s4 := emit (Call (Camera_Preset_Activate (p_PresetId p))) s3).
  destruct (wait_for_settle_returns W (p_CameraId p) s4)
    as (s5 & waited & calls5 & next5 & timers5 & _ & gate5).
  assert (timers s5 = []) as none5.
  { destruct (timers s5) as [|t l]; [reflexivity|].
    specialize (timers5 t (or_introl eq_refl)).
    cbn in timers5. rewrite same_timers in timers5. destruct timers5. }
  assert (presetPositioningBypass s5 = true) as gate5'.
  { rewrite gate5; [exact gate | exact same_timers]. }
  cbn in next5. rewrite same_next in next5.
  assert (calls s5
          = calls s ++ [Cameras_SpeakerTrack_Deactivate;
                        Cameras_SpeakerTrack_Frames_Deactivate;
                        Cameras_PresenterTrack_Set "Off";
                        Camera_Preset_List;
                        Camera_Preset_Activate (p_PresetId p)]) as issued5.
  { rewrite calls5. subst s4 s3 s2. read_calls. fold (calls s1).
    rewrite issued'. now rewrite <- app_assoc. }
  assert (availableCameraPresets s5 = presets W) as kept.
  { revert waited. unfold wait_for_settle, await_monitor. monad_unfold.
    destruct (MainSourceSetOnCameraRampStop (features W));
      [destruct (resolution _) as [[o t]|]|]; cbn; now intros [= <-]. }
  set (s6 := emit (Console LLog "Default Camera Preset Activated")
               (emit (Call (Video_Input_SetMainVideoSource (p_CameraId p)))
                  (emit (Console LDebug "Setting MainSource for Default Camera Preset")
                     s5))).
  assert (activate_first_default W (presets W) s2 = (Returned true, s6))
    as found.
  { rewrite catalog, (activate_first_default_skips W before after p s2 none).
    cbn [activate_first_default]. rewrite is_def.
    rewrite (bind_returned
               (console LDebug "Default Camera Preset Found, setting preset position")
               _ s2 s3 tt eq_refl).
    assert (await W (Camera_Preset_Activate (p_PresetId p)) s3 = (Returned tt, s4))
      as started.
    { unfold await. monad_unfold. now rewrite activated. }
    rewrite (bind_returned _ _ _ _ _ started).
    rewrite (bind_returned _ _ _ _ _ waited).
    monad_unfold. cbn [emit trace]. now rewrite switched. }
  rewrite (bind_returned _ _ _ _ _ found).
  monad_unfold. cbn [fst snd].
  assert (timers (schedule_close
                    (failsafeDebounceTime_for_MainSourceSetOnCameraRampStop + 100)
                    s6)
          = [(next_handle s, now s6 + 2600)]) as single.
  { subst s6. cbn. now rewrite none5, next5. }
  split; [reflexivity|]. split; [|split; [|split; [|split]]].
  - subst s6. read_calls. fold (calls s5). rewrite issued5.
    now rewrite <- app_assoc.
  - exact kept.
  - exact gate5'.
  - exact single.
  - intros ms.
    apply (elapse_single ms 2600 _ (next_handle s)); [exact gate5' | exact single].
Qed.

Lemma first_default_is_activated_witness :
  let W := still_world obliging [room_preset; default_preset; second_default] in
  let r := activateDefaultCameraPreset (D := literal_doubles) W init_state in
  outcome r = Returned tt
  /\ calls (final r)
     = calls init_state ++
       [Cameras_SpeakerTrack_Deactivate;
        Cameras_SpeakerTrack_Frames_Deactivate;
        Cameras_PresenterTrack_Set "Off";
        Camera_Preset_List;
        Camera_Preset_Activate (p_PresetId default_preset);
        Video_Input_SetMainVideoSource (p_CameraId default_preset)]
  /\ availableCameraPresets (final r) = presets W
  /\ presetPositioningBypass (final r) = true
  /\ timers (final r) = [(next_handle init_state, now (final r) + 2600)]
  /\ forall ms,
       presetPositioningBypass (elapse ms (final r)) = (ms <? 2600).
Proof.
  apply (first_default_is_activated (D := literal_doubles)
           (still_world obliging [room_preset; default_preset; second_default])
           init_state [room_preset] [second_default] default_preset);
    try reflexivity.
  intros q [<- | []]. reflexivity.
Defined.

(** ** More on the event handlers *)

Section HandlersMore.
Context {D : Doubles}.
Variable W : World.

(** Destructs every answer of the device that the goal depends on. *)
Ltac answers :=
  repeat match goal with
         | |- context [accepts W ?h ?c] => destruct (accepts W h c); cbn
         end.

(** The [try]/[catch] around the feature commands always completes, and
    touches neither the gate, its timers nor the clock. *)
Lemma try_activate_feature (data : gmap string JsVal) (s : State) :
  exists s',
    try_catch (activate_feature W data)
      (fire W (Widget_UnsetValue presets_widget);;
       handleError "Failed to activate tracking" "error") s
    = (Returned tt, s')
    /\ presetPositioningBypass s' = presetPositioningBypass s
    /\ presetPositioningBypassHandler s' = presetPositioningBypassHandler s
    /\ timers s' = timers s
    /\ next_handle s' = next_handle s
    /\ now s' = now s.
Proof.
  unfold activate_feature.
  destruct (is_str (get data "Feature") "Presenter");
    [|destruct (is_str (get data "Feature") "Speaker");
      [|destruct (is_str (get data "Feature") "Frames");
        [|destruct (is_str (get data "Feature") "Manual")]]];
    monad_unfold; cbn; answers; eexists; repeat split.
Qed.

Lemma parse_commands (Value : string) :
  commands (parseKeyValuePairs Value).1 = [].
Proof.
  unfold parseKeyValuePairs. now destruct (negb (regex_test Value)).
Qed.

Lemma on_WidgetAction_automatic (Value : string) (s : State) :
  is_str (get (decode Value) "Type") "Automatic" = true ->
  exists s4 s',
    try_catch (activate_feature W (decode Value))
      (fire W (Widget_UnsetValue presets_widget);;
       handleError "Failed to activate tracking" "error") s4
    = (Returned tt, s')
    /\ calls s4 = calls s
    /\ on_WidgetAction W presets_widget "released" Value s
       = (Returned tt, schedule_close gate_margin_short s')
    /\ presetPositioningBypass s' = true
    /\ timers s' = timers (cancel s)
    /\ next_handle s' = next_handle s
    /\ now s' = now s.
Proof.
  intros automatic. unfold on_WidgetAction.
  change (String.eqb "released" "released"
          && String.eqb presets_widget presets_widget) with true.
  cbn match. fold (decode Value). rewrite automatic.
  set (s1 := emits (parseKeyValuePairs Value).1 s).
  rewrite (bind_returned (update (emits (parseKeyValuePairs Value).1)) _ s s1
             tt eq_refl).
  destruct (emits_fields (parseKeyValuePairs Value).1 s)
    as (gate1 & handler1 & _ & timers1 & next1 & now1).
  pose proof (calls_emits (parseKeyValuePairs Value).1 s) as calls1.
  rewrite parse_commands, app_nil_r in calls1.
  fold s1 in gate1, handler1, timers1, next1, now1, calls1.
  set (s2 := if negb (includes "Manual" Value)
             then with_selection (decode Value) s1 else s1).
  assert ((if negb (includes "Manual" Value)
           then update (with_selection (decode Value)) else mret tt) s1
          = (Returned tt, s2)) as remembered
    by (subst s2; now destruct (negb (includes "Manual" Value))).
  rewrite (bind_returned _ _ _ _ _ remembered).
  assert (timers (cancel s2) = timers (cancel s)
          /\ next_handle s2 = next_handle s /\ now s2 = now s
          /\ calls s2 = calls s) as (t2 & n2 & c2 & calls2).
  { subst s2. destruct (negb (includes "Manual" Value)); cbn;
      rewrite ?handler1, ?timers1; auto. }
  rewrite (bind_returned (update cancel) _ s2 (cancel s2) tt eq_refl).
  rewrite (bind_returned (update (with_bypass true)) _ (cancel s2)
             (with_bypass true (cancel s2)) tt eq_refl).
  set (s3 := with_bypass true (cancel s2)).
  set (s4 := if negb (is_str (get (decode Value) "Feature") "Manual")
             then emit (Console LLog "Activating tracking") s3 else s3).
  assert ((if negb (is_str (get (decode Value) "Feature") "Manual")
           then console LLog "Activating tracking" else mret tt) s3
          = (Returned tt, s4)) as logged
    by (subst s4; now destruct (negb (is_str _ "Manual"))).
  rewrite (bind_returned _ _ _ _ _ logged).
  destruct (try_activate_feature (decode Value) s4)
    as (s5 & tried & gate5 & _ & timers5 & next5 & now5).
  rewrite (bind_returned _ _ _ _ _ tried).
  exists s4, s5. split; [exact tried|].
  assert (presetPositioningBypass s4 = true /\ timers s4 = timers (cancel s2)
          /\ next_handle s4 = next_handle s2 /\ now s4 = now s2
          /\ calls s4 = calls s2)
    as (g4 & t4 & n4 & c4 & calls4).
  { subst s4 s3. destruct (negb (is_str _ "Manual")); cbn; repeat split.
    unfold calls. cbn [trace emit]. apply commands_console. }
  split; [congruence|]. split; [reflexivity|].
  repeat split; congruence.
Qed.
End HandlersMore.

(** X7.  A UI action that selects a tracking feature or Manual always
    completes and always re-arms the gate, whatever the device answers to
    the commands: it returns, the gate is set, the previous close timer is
    cancelled and a new one, due 2600 ms from now, is the one the handler
    variable names.  A rejected command never leaves the gate stuck on
    this path. *)
Theorem tracking_action_always_closes `{D : Doubles} (W : World) (s : State)
    (Value : string) :
  is_str (get (decode Value) "Type") "Automatic" = true ->
  let r := handle W (WidgetAction presets_widget "released" Value) s in
  outcome r = Returned tt
  /\ presetPositioningBypass (final r) = true
  /\ presetPositioningBypassHandler (final r) = Some (next_handle s)
  /\ timers (final r) = (next_handle s, now s + 2600) :: timers (cancel s)
  /\ now (final r) = now s.
Proof.
  intros automatic r. subst r. cbn [handle].
  destruct (on_WidgetAction_automatic W Value s automatic)
    as (s4 & s' & _ & _ & -> & gate & pending_timers & next & clock).
  unfold outcome, final. cbn. now rewrite gate, pending_timers, next, clock.
Qed.

Lemma tracking_action_always_closes_witness :
  let r := handle (D := literal_doubles) (still_world (fun _ => false) [])
             (WidgetAction presets_widget "released"
                "Type:Automatic~Feature:Speaker") init_state in
  outcome r = Returned tt
  /\ presetPositioningBypass (final r) = true
  /\ presetPositioningBypassHandler (final r) = Some (next_handle init_state)
  /\ timers (final r)
     = (next_handle init_state, now init_state + 2600)
       :: timers (cancel init_state)
  /\ now (final r) = now init_state.
Proof.
  apply (tracking_action_always_closes (D := literal_doubles)
           (still_world (fun _ => false) []) init_state
           "Type:Automatic~Feature:Speaker").
  reflexivity.
Defined.

(** X8.  Each tracking feature is engaged by a fixed triple of commands,
    issued in order, each awaited before the next: Presenter sets
    PresenterTrack to Follow and turns SpeakerTrack and Frames off; Speaker
    turns PresenterTrack off, SpeakerTrack on and Frames off; Frames turns
    PresenterTrack off and SpeakerTrack and Frames on.  When the device
    accepts them, exactly these are issued; when it rejects the first, the
    other two are never issued and the control is unset. *)
Theorem feature_command_triple `{D : Doubles} (W : World) (s : State)
    (Value feature : string) (first second third : Cmd) :
  get (decode Value) "Type" = JStr "Automatic" ->
  get (decode Value) "Feature" = JStr feature ->
  feature_commands feature = [first; second; third] ->
  let r := handle W (WidgetAction presets_widget "released" Value) s in
  ((forall history c, In c [first; second; third] ->
                      accepts W history c = true) ->
   calls (final r) = calls s ++ [first; second; third])
  /\ ((forall history, accepts W history first = false) ->
      calls (final r)
      = calls s ++ [first; Widget_UnsetValue presets_widget]).
Proof.
  intros type feat triple r. subst r. cbn [handle].
  destruct (on_WidgetAction_automatic W Value s) as
    (s4 & s' & tried & calls4 & -> & _); [now rewrite type|].
  unfold final. cbn [snd].
  change (calls (schedule_close gate_margin_short s')) with (calls s').
  rewrite <- calls4. clear calls4.
  revert tried. unfold activate_feature. rewrite feat.
  unfold feature_commands in triple. cbn [is_str].
  destruct (String.eqb feature "Presenter");
    [|destruct (String.eqb feature "Speaker");
      [|destruct (String.eqb feature "Frames"); [|discriminate]]];
    injection triple as <- <- <-; monad_unfold; cbn [emit trace];
    intros tried; split; intros answer.
  all: try (rewrite !answer in tried by (cbn; auto); cbn in tried;
            injection tried as <-; now read_calls).
Qed.

Lemma feature_command_triple_witness :
  calls (final (handle (D := literal_doubles) (still_world obliging [])
                  (WidgetAction presets_widget "released"
                     "Type:Automatic~Feature:Frames") init_state))
  = calls init_state ++ [Cameras_PresenterTrack_Set "Off";
                         Cameras_SpeakerTrack_Activate;
                         Cameras_SpeakerTrack_Frames_Activate].
Proof.
  apply (proj1 (feature_command_triple (D := literal_doubles)
                  (still_world obliging []) init_state
                  "Type:Automatic~Feature:Frames" "Frames"
                  (Cameras_PresenterTrack_Set "Off")
                  Cameras_SpeakerTrack_Activate
                  Cameras_SpeakerTrack_Frames_Activate
                  eq_refl eq_refl eq_refl)).
  reflexivity.
Defined.

(** X9.  An external preset activation, when the device answers the preset
    lookup: the value pushed to the control is the encoding of the preset
    selection made of the event's CameraId and PresetId and of the name
    looked up, the same encoding the Manual re-set uses; the gate is set and
    re-armed for 3000 ms.  The remembered selection is not updated: a later
    Manual re-set shows what was remembered before, not this preset. *)
Theorem external_activation_push `{D : Doubles} (W : World) (s : State)
    (PresetId CameraId : JsVal) :
  accepts W (trace s) (Camera_Preset_Show PresetId) = true ->
  let r := handle W (CameraPresetActivated PresetId CameraId) s in
  outcome r = Returned tt
  /\ calls (final r)
     = calls s ++
       [Camera_Preset_Show PresetId;
        Widget_SetValue presets_widget
          (encode (preset_object CameraId PresetId (shown_name W PresetId)))]
  /\ lastPresetSelection (final r) = lastPresetSelection s
  /\ presetPositioningBypass (final r) = true
  /\ timers (final r) = (next_handle s, now s + 3000) :: timers (cancel s).
Proof.
  intros shown r. subst r. cbn [handle].
  assert (encode (preset_object CameraId PresetId (shown_name W PresetId))
          = "Type:Preset~CameraId:" +:+ to_string CameraId
            +:+ "~PresetId:" +:+ to_string PresetId
            +:+ "~PresetName:" +:+ to_string (shown_name W PresetId)) as ->.
  { unfold encode, preset_object. rewrite !get_insert. unfold get.
    rewrite !lookup_singleton_eq, ?lookup_singleton_ne by discriminate.
    repeat match goal with
           | |- context [decide (?a = ?b)] =>
               destruct (decide (a = b)); try discriminate; try congruence
           end.
    cbn [default is_str].
    change (String.eqb "Preset" "Automatic") with false.
    change (String.eqb "Preset" "Preset") with true. reflexivity. }
  assert (exists s1,
            on_CameraPresetActivated W PresetId CameraId s
            = (Returned tt, schedule_close gate_margin_long s1)
            /\ presetPositioningBypass s1 = true
            /\ timers s1 = timers (cancel s)
            /\ next_handle s1 = next_handle s
            /\ now s1 = now s) as (s1 & run1 & gate & pending_timers & next & clock).
  { unfold on_CameraPresetActivated. monad_unfold.
    cbn [trace with_bypass cancel].
    destruct (accepts W _ (Camera_Preset_Show PresetId)); [|discriminate].
    cbn [emit trace].
    destruct (accepts W _ _); eexists; (split; [reflexivity|]); now cbn. }
  split; [|split; [|split; [|split]]].
  - now rewrite run1.
  - rewrite on_CameraPresetActivated_calls. now rewrite shown.
  - apply keeps_on_CameraPresetActivated.
  - rewrite run1. exact gate.
  - rewrite run1. unfold final. cbn. now rewrite pending_timers, next, clock.
Qed.

Lemma external_activation_push_witness :
  let r := handle (D := literal_doubles) (still_world obliging [])
             (CameraPresetActivated (JStr "3") (JStr "1"))
             (with_selection (decode "Type:Automatic~Feature:Speaker")
                init_state) in
  outcome r = Returned tt
  /\ calls (final r)
     = [Camera_Preset_Show (JStr "3");
        Widget_SetValue presets_widget room_payload]
  /\ lastPresetSelection (final r) = decode "Type:Automatic~Feature:Speaker"
  /\ presetPositioningBypass (final r) = true
  /\ timers (final r) = [(0, 3000)].
Proof.
  apply (external_activation_push (D := literal_doubles)
           (still_world obliging [])
           (with_selection (decode "Type:Automatic~Feature:Speaker") init_state)
           (JStr "3") (JStr "1")).
  reflexivity.
Defined.

(** X10.  Manual movement is reported tick by tick: with the gate inactive
    and a device that accepts the pushes, every moving update pushes the
    Manual value to the control once more, so [n] moving updates issue [n]
    pushes; the gate stays inactive and Manual is what is remembered. *)
Theorem movement_pushes_every_tick `{D : Doubles} (W : World) (s : State)
    (ticks : list Tick) :
  presetPositioningBypass s = false ->
  (forall k, In k ticks -> at_rest k = false) ->
  (forall history,
     accepts W history (Widget_SetValue presets_widget manual_payload) = true) ->
  let s' := run W (map CameraPosition ticks) s in
  calls s'
  = calls s ++ repeat (Widget_SetValue presets_widget manual_payload)
                      (length ticks)
  /\ presetPositioningBypass s' = false
  /\ (ticks <> [] -> lastPresetSelection s' = manual_object).
Proof.
  intros gate moving accepted. cbn zeta. revert s gate.
  induction ticks as [|k ticks IH]; intros s gate.
  - cbn. rewrite app_nil_r. repeat split; auto. congruence.
  - change (run W (map CameraPosition (k :: ticks)) s)
      with (run W (map CameraPosition ticks)
              (final (handle W (CameraPosition k) s))).
    cbn [handle]. rewrite on_CameraPosition_moving; auto; [|apply moving; now left].
    cbn zeta. unfold manual_payload in accepted. rewrite accepted.
    cbn [final snd].
    set (s1 := emit _ (with_selection manual_object s)).
    destruct (IH (fun k' isin => moving k' (or_intror isin)) s1 gate)
      as (issued & gate' & remembered).
    split; [|split]; auto.
    + rewrite issued. subst s1. read_calls. reflexivity.
    + intros _. destruct ticks as [|k' ticks']; [reflexivity|].
      apply remembered. discriminate.
Qed.

Lemma movement_pushes_every_tick_witness :
  let s' := run (D := literal_doubles) (still_world obliging [])
              (map CameraPosition [moving_tick; moving_tick; moving_tick])
              init_state in
  calls s'
  = calls init_state ++ repeat (Widget_SetValue presets_widget manual_payload) 3
  /\ presetPositioningBypass s' = false
  /\ ([moving_tick; moving_tick; moving_tick] <> [] ->
      lastPresetSelection s' = manual_object).
Proof.
  apply (movement_pushes_every_tick (D := literal_doubles)
           (still_world obliging []) init_state
           [moving_tick; moving_tick; moving_tick]).
  - reflexivity.
  - intros k [<- | [<- | [<- | []]]]; reflexivity.
  - reflexivity.
Defined.

(** X12.  What the handlers ignore, leaving the state exactly as it was: a
    widget event that is not a release, or that comes from another widget;
    a tracking status that is not the engaged one (follow for Presenter,
    active for Speaker and Frames, in any letter case) or that concerns a
    feature the panel does not offer; a call status other than Connected and
    Connecting, and any call status when the default preset on call is
    switched off. *)
Theorem ignored_events `{D : Doubles} (W : World) (s : State) :
  (forall WidgetId Type_ Value,
     Type_ <> "released" \/ WidgetId <> presets_widget ->
     handle W (WidgetAction WidgetId Type_ Value) s = (Returned tt, s))
  /\ (forall element status,
        toLowerCase status
        <> (if String.eqb element "Presenter" then "follow" else "active")
        \/ ~ In element (availableCameraTrackingFeatures W) ->
        handle W (TrackingStatus element status) s = (Returned tt, s))
  /\ (forall Status,
        (Status <> "Connected" /\ Status <> "Connecting")
        \/ OnCallSetDefaultPreset (features W) = false ->
        handle W (CallStatus Status) s = (Returned tt, s)).
Proof.
  split; [|split]; cbn [handle].
  - intros w t v other. unfold on_WidgetAction.
    destruct (String.eqb_spec t "released") as [-> | _];
      destruct (String.eqb_spec w presets_widget) as [-> | _]; cbn [andb];
      try reflexivity.
    now destruct other as [absurd | absurd]; destruct absurd.
  - intros element status other. unfold on_TrackingStatus.
    destruct (bool_decide_reflect
                (element ∈ availableCameraTrackingFeatures W)) as [isin | _];
      cbn [andb]; [|reflexivity].
    destruct (String.eqb_spec (toLowerCase status)
                (if String.eqb element "Presenter" then "follow" else "active"))
      as [engaged | _]; [|reflexivity].
    destruct other as [absurd | absurd]; [now destruct absurd|].
    destruct absurd. now apply list_elem_of_In.
  - intros Status other. unfold on_CallStatus.
    destruct (OnCallSetDefaultPreset (features W)); cbn [andb]; [|reflexivity].
    destruct other as [(nc1 & nc2) | absurd]; [|discriminate].
    destruct (String.eqb_spec Status "Connected") as [-> | _];
      [now destruct nc1|].
    destruct (String.eqb_spec Status "Connecting") as [-> | _];
      [now destruct nc2 | reflexivity].
Qed.

Lemma ignored_events_witness :
  handle (D := literal_doubles) (still_world obliging [])
    (WidgetAction presets_widget "pressed" manual_payload) init_state
  = (Returned tt, init_state)
  /\ handle (D := literal_doubles) (still_world obliging [])
       (TrackingStatus "Speaker" "Active") init_state
     = (Returned tt, init_state)
  /\ handle (D := literal_doubles) (still_world obliging [])
       (CallStatus "Disconnected") init_state
     = (Returned tt, init_state).
Proof.
  destruct (ignored_events (D := literal_doubles) (still_world obliging [])
              init_state) as (widget & tracking & call).
  split; [|split].
  - apply widget. left. discriminate.
  - apply tracking. right. cbn. tauto.
  - apply call. left. split; discriminate.
Defined.

(** ** The gate's timers *)

Lemma triple_bind {A B : Type} (P Q R : State -> Prop) (m : M A)
    (k : A -> M B) :
  triple P m Q -> (forall s, Q s -> R s) -> (forall a, triple Q (k a) R) ->
  triple P (m ≫= k) R.
Proof.
  intros tm weaken tk s pre. specialize (tm s pre).
  unfold mbind, M_bind, final in *.
  destruct (m s) as [[a| |] s']; cbn in *; auto. now apply tk.
Qed.

Lemma triple_keep {A B : Type} (P : State -> Prop) (m : M A) (k : A -> M B) :
  triple P m P -> (forall a, triple P (k a) P) -> triple P (m ≫= k) P.
Proof. intros tm tk. now apply (triple_bind P P P). Qed.

Lemma triple_update (P Q : State -> Prop) (f : State -> State) :
  (forall s, P s -> Q (f s)) -> triple P (update f) Q.
Proof. intros step s pre. now apply step. Qed.

Lemma triple_ret {A : Type} (P : State -> Prop) (a : A) : triple P (mret a) P.
Proof. now intros s. Qed.

Lemma triple_throw {A : Type} (P : State -> Prop) : triple P (@throw A) P.
Proof. now intros s. Qed.

Lemma triple_if {A : Type} (P Q : State -> Prop) (b : bool) (m1 m2 : M A) :
  triple P m1 Q -> triple P m2 Q -> triple P (if b then m1 else m2) Q.
Proof. now destruct b. Qed.

Lemma triple_try_catch {A : Type} (P : State -> Prop) (body handler : M A) :
  triple P body P -> triple P handler P -> triple P (try_catch body handler) P.
Proof.
  intros tb th s pre. specialize (tb s pre). unfold try_catch, final in *.
  destruct (body s) as [[a| |] s']; cbn in *; auto. now apply th.
Qed.

Lemma triple_weaken {A : Type} (P Q R : State -> Prop) (m : M A) :
  triple P m Q -> (forall s, Q s -> R s) -> triple P m R.
Proof. intros tm weaken s pre. apply weaken, tm, pre. Qed.

Lemma idle_tidy (s : State) : idle s -> tidy s.
Proof. intros none. now left. Qed.

Lemma cancel_idle (s : State) : tidy s -> idle (cancel s).
Proof.
  unfold tidy, idle. intros [none | (h & due & single & named)]; cbn.
  - rewrite none. now destruct (presetPositioningBypassHandler s).
  - rewrite named, single. cbn. now rewrite Nat.eqb_refl.
Qed.

Lemma schedule_tidy (delay : nat) (s : State) :
  idle s -> tidy (schedule_close delay s).
Proof.
  unfold idle. intros none. right. exists (next_handle s), (now s + delay).
  cbn. now rewrite none.
Qed.

Lemma elapse_tidy (ms : nat) (s : State) : tidy s -> tidy (elapse ms s).
Proof.
  unfold tidy. intros [none | (h & due & single & named)];
    cbn [elapse timers presetPositioningBypassHandler].
  - left. now rewrite none.
  - rewrite single. cbn [List.filter].
    destruct (pending (now s + ms) (h, due)); [|now left].
    right. now exists h, due.
Qed.

Lemma elapse_idle_kept (ms : nat) (s : State) : idle s -> idle (elapse ms s).
Proof. unfold idle. intros none. cbn. now rewrite none. Qed.

(** The steps that leave the timers and the handler variable alone keep
    both predicates. *)
Lemma frame_tidy (f : State -> State) :
  (forall s, timers (f s) = timers s
             /\ presetPositioningBypassHandler (f s)
                = presetPositioningBypassHandler s) ->
  (forall s, tidy s -> tidy (f s)) /\ (forall s, idle s -> idle (f s)).
Proof.
  intros same. unfold tidy, idle.
  split; intros s; destruct (same s) as (same_timers & same_handler);
    rewrite same_timers, ?same_handler; auto.
Qed.

Section Timers.
Context {D : Doubles}.
Variable W : World.

(** Either predicate, for the steps common to both. *)
Variable P : State -> Prop.
Hypothesis P_frame :
  forall f : State -> State,
    (forall s, timers (f s) = timers s
               /\ presetPositioningBypassHandler (f s)
                  = presetPositioningBypassHandler s) ->
    forall s, P s -> P (f s).
Hypothesis P_elapse : forall ms s, P s -> P (elapse ms s).

Lemma kept_emit (e : Effect) (s : State) : P s -> P (emit e s).
Proof. apply P_frame. now intros s'. Qed.

Lemma kept_console (level : Level) (message : string) :
  triple P (console level message) P.
Proof. intros s. apply kept_emit. Qed.

Lemma kept_handleError (context type : string) :
  triple P (handleError context type) P.
Proof. unfold handleError. apply kept_console. Qed.

Lemma kept_xapi (c : Cmd) : triple P (xapi W c) P.
Proof. intros s. apply kept_emit. Qed.

Lemma kept_await (c : Cmd) : triple P (await W c) P.
Proof.
  unfold await. apply triple_keep; [apply kept_xapi|].
  intros []; [apply triple_ret | apply triple_throw].
Qed.

Lemma kept_fire (c : Cmd) : triple P (fire W c) P.
Proof.
  unfold fire. apply triple_keep; [apply kept_xapi | intros; apply triple_ret].
Qed.

Lemma kept_catching (c : Cmd) (handler : M unit) :
  triple P handler P -> triple P (catching W c handler) P.
Proof.
  intros th. unfold catching. apply triple_keep; [apply kept_xapi|].
  intros []; [apply triple_ret | exact th].
Qed.

Lemma kept_update (f : State -> State) :
  (forall s, timers (f s) = timers s
             /\ presetPositioningBypassHandler (f s)
                = presetPositioningBypassHandler s) ->
  triple P (update f) P.
Proof. intros same. apply triple_update. now apply P_frame. Qed.

Lemma kept_await_monitor (cameraId : JsVal) :
  triple P (await_monitor W cameraId) P.
Proof.
  intros s pre. unfold await_monitor.
  destruct (resolution _) as [[o t]|]; cbn; [now apply P_elapse | exact pre].
Qed.

Ltac kept :=
  repeat first
    [ apply triple_keep; [|intros ?]
    | apply triple_try_catch
    | apply triple_if
    | apply triple_ret
    | apply triple_throw
    | apply kept_console
    | apply kept_handleError
    | apply kept_await
    | apply kept_fire
    | apply kept_catching
    | apply kept_await_monitor
    | apply kept_update; intros ?; split; reflexivity ].

Lemma kept_deactivate_tracking : triple P (deactivate_tracking W) P.
Proof. unfold deactivate_tracking. kept. Qed.

Lemma kept_wait_for_settle (cameraId : JsVal) :
  triple P (wait_for_settle W cameraId) P.
Proof. unfold wait_for_settle. kept. Qed.

Lemma kept_activate_first_default (catalog : list PresetRecord) :
  triple P (activate_first_default W catalog) P.
Proof.
  induction catalog as [|p catalog IH]; cbn [activate_first_default].
  - apply triple_ret.
  - apply triple_if; [|exact IH].
    kept; apply kept_wait_for_settle.
Qed.

Lemma kept_activate_feature (data : gmap string JsVal) :
  triple P (activate_feature W data) P.
Proof.
  unfold activate_feature. kept.
Qed.

Lemma kept_on_CameraPosition (k : Tick) : triple P (on_CameraPosition W k) P.
Proof.
  intros s pre. unfold on_CameraPosition.
  destruct (negb (presetPositioningBypass s)); [|exact pre].
  destruct (truthy (Pan k) || truthy (Tilt k) || truthy (Zoom k)); [|exact pre].
  revert s pre. fold (triple P
    (update (with_selection manual_object);;
     catching W (Widget_SetValue presets_widget "Type:Automatic~Feature:Manual")
       (fire W (Widget_UnsetValue presets_widget);;
        handleError "Failed to Set Widget Value. Cause: CameraPosition change"
          "error")) P).
  kept.
Qed.
End Timers.

Lemma tidy_frame (f : State -> State) :
  (forall s, timers (f s) = timers s
             /\ presetPositioningBypassHandler (f s)
                = presetPositioningBypassHandler s) ->
  forall s, tidy s -> tidy (f s).
Proof. intros same. apply (frame_tidy f same). Qed.

Lemma idle_frame (f : State -> State) :
  (forall s, timers (f s) = timers s
             /\ presetPositioningBypassHandler (f s)
                = presetPositioningBypassHandler s) ->
  forall s, idle s -> idle (f s).
Proof. intros same. apply (frame_tidy f same). Qed.

(** Discharges a goal [triple P m P] for [P] one of the two predicates,
    given its two closure facts. *)
Ltac kept_in F E :=
  repeat first
    [ eapply kept_console; exact F
    | eapply kept_handleError; exact F
    | eapply kept_await; exact F
    | eapply kept_fire; exact F
    | eapply kept_catching; [exact F|]
    | eapply kept_deactivate_tracking; exact F
    | eapply kept_wait_for_settle; first [exact F | exact E]
    | eapply kept_await_monitor; exact E
    | eapply kept_activate_first_default; first [exact F | exact E]
    | eapply kept_activate_feature; exact F
    | eapply kept_update; [exact F | intros ?; split; reflexivity]
    | apply triple_ret
    | apply triple_throw
    | apply triple_keep; [|intros ?]
    | apply triple_try_catch
    | apply triple_if ].

(** A block that runs between [clearTimeout] and the final [setTimeout]. *)
Ltac gated_block :=
  apply (triple_bind tidy idle tidy);
    [apply triple_update; exact cancel_idle | exact idle_tidy | intros _];
  repeat (apply (triple_bind idle idle tidy);
            [kept_in idle_frame elapse_idle_kept | exact idle_tidy | intros ?]);
  apply triple_update; intros ?; apply schedule_tidy.

Section TidyHandlers.
Context {D : Doubles}.
Variable W : World.

Lemma tidy_activateCameraPreset (presetInfo : gmap string JsVal) :
  triple tidy (activateCameraPreset W presetInfo) tidy.
Proof. unfold activateCameraPreset. gated_block. Qed.

Lemma tidy_activateDefaultCameraPreset :
  triple tidy (activateDefaultCameraPreset W) tidy.
Proof. unfold activateDefaultCameraPreset. gated_block. Qed.

Lemma tidy_on_CameraPresetActivated (PresetId CameraId : JsVal) :
  triple tidy (on_CameraPresetActivated W PresetId CameraId) tidy.
Proof. unfold on_CameraPresetActivated. gated_block. Qed.

Lemma tidy_on_TrackingStatus (element status : string) :
  triple tidy (on_TrackingStatus W element status) tidy.
Proof.
  unfold on_TrackingStatus. apply triple_if; [gated_block | apply triple_ret].
Qed.

Lemma tidy_on_CallStatus (Status : string) :
  triple tidy (on_CallStatus W Status) tidy.
Proof.
  unfold on_CallStatus.
  apply triple_if; [apply tidy_activateDefaultCameraPreset | apply triple_ret].
Qed.

Lemma tidy_on_WidgetAction (WidgetId Type_ Value : string) :
  triple tidy (on_WidgetAction W WidgetId Type_ Value) tidy.
Proof.
  unfold on_WidgetAction. apply triple_if; [|apply triple_ret].
  apply triple_keep.
  { apply triple_update. apply tidy_frame. intros s.
    now destruct (emits_fields (parseKeyValuePairs Value).1 s)
      as (_ & ? & _ & ? & _). }
  intros _. apply triple_keep.
  { kept_in tidy_frame elapse_tidy. }
  intros _. apply triple_if; [gated_block|].
  apply triple_if; [apply tidy_activateCameraPreset | apply triple_ret].
Qed.

Lemma tidy_handle (e : Event) : triple tidy (handle W e) tidy.
Proof.
  destruct e; cbn [handle].
  - apply tidy_on_WidgetAction.
  - apply tidy_on_CameraPresetActivated.
  - eapply kept_on_CameraPosition; [exact tidy_frame].
  - apply tidy_on_TrackingStatus.
  - apply tidy_on_CallStatus.
  - apply triple_update. intros s. apply elapse_tidy.
Qed.

Lemma tidy_run (events : list Event) (s : State) :
  tidy s -> tidy (run W events s).
Proof.
  revert s. induction events as [|e events IH]; intros s ok; [exact ok|].
  change (run W (e :: events) s) with (run W events (final (handle W e s))).
  apply IH, tidy_handle, ok.
Qed.
End TidyHandlers.

(** X11.  Close timers are replaced, never stacked.  When the handlers run
    one after the other (none interleaved inside another's wait), a state
    with at most one pending close timer, named by
    [presetPositioningBypassHandler], stays such through any sequence of UI
    actions, preset activations, position updates, tracking and call
    statuses and lapses of time: every opening of the gate first cancels
    the timer of the previous one. *)
Theorem close_timers_never_stack `{D : Doubles} (W : World)
    (events : list Event) (s : State) :
  tidy s ->
  let s' := run W events s in
  length (timers s') <= 1
  /\ forall h due, In (h, due) (timers s') ->
                   presetPositioningBypassHandler s' = Some h.
Proof.
  intros ok s'. subst s'.
  destruct (tidy_run W events s ok) as [none | (h & due & single & named)].
  - rewrite none. split; [cbn; lia | intros h due []].
  - rewrite single. split; [cbn; lia|].
    intros h' due' [[= <- <-] | []]. exact named.
Qed.

Lemma close_timers_never_stack_witness :
  let s' := run (D := literal_doubles) (still_world obliging [])
              [WidgetAction presets_widget "released" room_payload;
               CameraPresetActivated (JStr "3") (JStr "1");
               WidgetAction presets_widget "released" manual_payload]
              init_state in
  length (timers s') <= 1
  /\ forall h due, In (h, due) (timers s') ->
                   presetPositioningBypassHandler s' = Some h.
Proof.
  apply (close_timers_never_stack (D := literal_doubles)).
  now left.
Defined.

(** ** More on the parser *)

Lemma find_snoc {A : Type} (f : A -> bool) (l : list A) (x : A) :
  List.find f (l ++ [x])
  = match List.find f l with
    | Some y => Some y
    | None => if f x then Some x else None
    end.
Proof.
  induction l as [|y l IH]; cbn; [reflexivity|]. now destruct (f y).
Qed.

Lemma fold_assign_lookup (elements : list string) (m : gmap string JsVal)
    (k : string) :
  get (fold_left assign_pair elements m) k
  = match List.find (fun element => String.eqb (key_of element) k) (rev elements) with
    | Some element => coerce (value_of element)
    | None => get m k
    end.
Proof.
  revert m. induction elements as [|element elements IH]; intros m.
  - reflexivity.
  - cbn [fold_left rev]. rewrite IH, find_snoc.
    destruct (List.find _ (rev elements)); [reflexivity|].
    unfold assign_pair. rewrite get_insert.
    fold (key_of element) (value_of element).
    destruct (String.eqb_spec (key_of element) k) as [-> | ne].
    + now destruct (decide (k = k)).
    + now destruct (decide (key_of element = k)).
Qed.

(** X14.  Reading a field of a parsed payload.  For a text the parser
    accepts and a field name [k] that [Object.prototype] does not define,
    the field [k] of the object is decided by the last [~]-element whose
    text before the first [:] is [k]: its text between the first and the
    second [:], as a number when [Number] reads it as one, and [undefined]
    when the element has no [:].  Earlier elements of the same key are
    overwritten, anything after a second [:] is dropped, and a key that no
    element carries reads [undefined].  (The names of [Object.prototype]
    are left out: there a real object answers with the inherited member,
    and an element whose key is [__proto__] creates no field.) *)
Theorem decode_lookup (data k : string) :
  regex_test data = true ->
  prototype_key k = false ->
  get (decode data) k
  = match List.find (fun element => String.eqb (key_of element) k)
               (rev (split "~" data)) with
    | Some element => coerce (value_of element)
    | None => JUndef
    end.
Proof.
  intros accepted _. unfold decode, parseKeyValuePairs. rewrite accepted.
  cbn [negb snd]. now rewrite fold_assign_lookup.
Qed.

Lemma decode_lookup_witness :
  get (decode "Id:1~Name:a:b~Id:007~__proto__:5~loose") "Id" = JNum (Int 7)
  /\ get (decode "Id:1~Name:a:b~Id:007~__proto__:5~loose") "Name" = JStr "a"
  /\ get (decode "Id:1~Name:a:b~Id:007~__proto__:5~loose") "loose" = JUndef
  /\ get (decode "Id:1~Name:a:b~Id:007~__proto__:5~loose") "Type" = JUndef.
Proof.
  rewrite !(decode_lookup "Id:1~Name:a:b~Id:007~__proto__:5~loose")
    by reflexivity.
  repeat split.
Defined.

(** ** The subscription registry *)

Lemma sorted_names_perm (reg : gmap string Starter) :
  sorted_names reg ≡ₚ (map_to_list reg).*1.
Proof. apply merge_sort_Permutation. Qed.

Lemma sorted_names_NoDup (reg : gmap string Starter) :
  NoDup (sorted_names reg).
Proof.
  rewrite sorted_names_perm. apply NoDup_fst_map_to_list.
Qed.

Lemma sorted_names_sorted (reg : gmap string Starter) :
  StronglySorted String.le (sorted_names reg).
Proof. apply StronglySorted_merge_sort; apply _. Qed.

Lemma sorted_names_elem (reg : gmap string Starter) (k : string) :
  k ∈ sorted_names reg <-> is_Some (reg !! k).
Proof.
  rewrite sorted_names_perm, list_elem_of_fmap. split.
  - intros ((k' & f) & -> & found). apply elem_of_map_to_list in found.
    now exists f.
  - intros (f & found). exists (k, f). split; [reflexivity|].
    now apply elem_of_map_to_list.
Qed.

Lemma sorted_names_length (reg : gmap string Starter) :
  length (sorted_names reg) = size reg.
Proof.
  rewrite sorted_names_perm, length_fmap. apply length_map_to_list.
Qed.

Lemma sorted_names_fmap (f : Starter -> Starter) (reg : gmap string Starter) :
  sorted_names (f <$> reg) = sorted_names reg.
Proof.
  unfold sorted_names. rewrite map_to_list_fmap, <- list_fmap_compose.
  f_equal.
Qed.

Lemma flat_map_agree {A B : Type} (f g : A -> list B) (l : list A) :
  (forall a, a ∈ l -> f a = g a) -> flat_map f l = flat_map g l.
Proof.
  induction l as [|x l IH]; intros agree; [reflexivity|]. cbn.
  rewrite (agree x) by apply list_elem_of_here. f_equal.
  apply IH. intros a found. apply agree. now apply list_elem_of_further.
Qed.

(** Running the [forEach] over distinct names: each call sees the function
    the registry had at the start, and every name met ends up spent. *)
Lemma fold_start_element (l : list string) :
  NoDup l ->
  forall (reg : gmap string Starter) (out : list Notice),
    exists reg',
      fold_left start_element l (reg, out)
      = (reg', out ++ flat_map (notice reg) l)
      /\ forall k, reg' !! k
                   = if bool_decide (k ∈ l) then Some Spent else reg !! k.
Proof.
  induction 1 as [|x l fresh distinct IH]; intros reg out.
  - exists reg. cbn. rewrite app_nil_r. split; [reflexivity|].
    intros k. rewrite bool_decide_eq_false_2; [reflexivity|].
    apply not_elem_of_nil.
  - cbn [fold_left start_element flat_map].
    destruct (IH (<[x := Spent]> reg) (out ++ notice reg x))
      as (reg' & run & spent).
    exists reg'. split.
    + rewrite run, <- app_assoc. do 3 f_equal.
      apply flat_map_agree. intros a found.
      unfold notice.
      rewrite lookup_insert_ne; [reflexivity|]. now intros ->.
    + intros k. rewrite spent.
      destruct (decide (k = x)) as [->|other].
      * rewrite (bool_decide_eq_true_2 (x ∈ x :: l))
          by apply list_elem_of_here.
        rewrite lookup_insert_eq. now destruct (bool_decide (x ∈ l)).
      * rewrite lookup_insert_ne by congruence.
        destruct (decide (k ∈ l)) as [found|absent].
        -- rewrite !bool_decide_eq_true_2;
             [reflexivity | now apply list_elem_of_further | exact found].
        -- rewrite !bool_decide_eq_false_2; [reflexivity| |exact absent].
           intros [|]%elem_of_cons; contradiction.
Qed.

(** [StartSubscriptions] on any registry: every function is called once,
    in the order of the names, and replaced. *)
Lemma StartSubscriptions_run (reg : gmap string Starter) :
  StartSubscriptions reg
  = ((fun _ => Spent) <$> reg,
     flat_map (notice reg) (sorted_names reg)
     ++ [SubscriptionsSet (size reg) (join ", " (sorted_names reg))]).
Proof.
  unfold StartSubscriptions.
  destruct (fold_start_element (sorted_names reg) (sorted_names_NoDup reg)
              reg []) as (reg' & -> & spent).
  rewrite sorted_names_length. cbn [app]. f_equal.
  apply map_eq. intros k. rewrite spent, lookup_fmap.
  destruct (decide (k ∈ sorted_names reg)) as [found|absent].
  - rewrite bool_decide_eq_true_2 by exact found.
    apply sorted_names_elem in found as (f & ->). reflexivity.
  - rewrite bool_decide_eq_false_2 by exact absent.
    destruct (reg !! k) as [f|] eqn:lookup; [|reflexivity].
    exfalso. apply absent, sorted_names_elem. now exists f.
Qed.

Lemma notices_fresh (reg : gmap string Starter) (l : list string) :
  (forall k, k ∈ l -> reg !! k = Some Fresh) ->
  flat_map (notice reg) l = map Started l.
Proof.
  induction l as [|x l IH]; intros fresh; [reflexivity|].
  cbn [flat_map map]. unfold notice at 1.
  rewrite (fresh x) by apply list_elem_of_here. cbn [app]. f_equal.
  apply IH. intros k found. apply fresh. now apply list_elem_of_further.
Qed.

Lemma notices_spent (reg : gmap string Starter) (l : list string) :
  (forall k, k ∈ l -> reg !! k = Some Spent) ->
  flat_map (notice reg) l = map AlreadyActive l.
Proof.
  induction l as [|x l IH]; intros spent; [reflexivity|].
  cbn [flat_map map]. unfold notice at 1.
  rewrite (spent x) by apply list_elem_of_here. cbn [app]. f_equal.
  apply IH. intros k found. apply spent. now apply list_elem_of_further.
Qed.

Lemma register_tracking_fresh (tracking : list string) :
  forall reg : gmap string Starter,
    map_Forall (fun _ f => f = Fresh) reg ->
    map_Forall (fun _ f => f = Fresh) (fold_left register_tracking tracking reg).
Proof.
  induction tracking as [|element tracking IH]; intros reg fresh;
    [exact fresh|].
  cbn [fold_left]. apply IH. unfold register_tracking.
  destruct (tracking_subscription element) as [name|]; [|exact fresh].
  now apply map_Forall_insert_2.
Qed.

Lemma register_tracking_names (tracking : list string) (k : string) :
  forall reg : gmap string Starter,
    is_Some (fold_left register_tracking tracking reg !! k)
    <-> is_Some (reg !! k)
        \/ exists element,
             element ∈ tracking /\ tracking_subscription element = Some k.
Proof.
  induction tracking as [|element tracking IH]; intros reg; cbn [fold_left].
  - split; [now left|]. intros [known|(element & []%elem_of_nil & _)].
    exact known.
  - rewrite IH. unfold register_tracking.
    destruct (tracking_subscription element) as [name|] eqn:named.
    + rewrite lookup_insert_is_Some. split.
      * intros [[->|(_ & known)]|(other & found & named')].
        -- right. exists element. split; [apply list_elem_of_here|exact named].
        -- now left.
        -- right. exists other. split; [now apply list_elem_of_further|exact named'].
      * intros [known|(other & [->|found]%elem_of_cons & named')].
        -- left. destruct (decide (name = k)); [now left|now right].
        -- left. left. congruence.
        -- right. now exists other.
    + split.
      * intros [known|(other & found & named')]; [now left|].
        right. exists other. split; [now apply list_elem_of_further|exact named'].
      * intros [known|(other & [->|found]%elem_of_cons & named')].
        -- now left.
        -- congruence.
        -- right. now exists other.
Qed.

Lemma Subscribe_fresh : map_Forall (fun _ f => f = Fresh) Subscribe.
Proof. apply (bool_decide_unpack _). vm_compute. exact I. Qed.

Lemma Subscribe_names (k : string) :
  is_Some (Subscribe !! k)
  <-> k ∈ ["WidgetAction"; "CameraPresetActivated"; "CameraPresetListUpdated";
           "CameraPosition"; "AllConfigurations"].
Proof.
  unfold Subscribe. rewrite <- elem_of_dom, dom_list_to_map_L.
  cbn [fmap list_fmap fst]. rewrite elem_of_list_to_set. reflexivity.
Qed.

(** X15.  On a registry none of whose subscriptions was started yet,
    [StartSubscriptions] starts every subscription exactly once, in
    ascending order of the names, reports their number and their names,
    and leaves every function replaced by the one that only warns. *)
Theorem every_subscription_starts_once (reg : gmap string Starter) :
  map_Forall (fun _ f => f = Fresh) reg ->
  exists subs,
    StartSubscriptions reg
    = ((fun _ => Spent) <$> reg,
       map Started subs ++ [SubscriptionsSet (size reg) (join ", " subs)])
    /\ NoDup subs
    /\ StronglySorted String.le subs
    /\ forall k, k ∈ subs <-> is_Some (reg !! k).
Proof.
  intros fresh. exists (sorted_names reg).
  split; [|split; [|split]].
  - rewrite StartSubscriptions_run, notices_fresh; [reflexivity|].
    intros k (f & found)%sorted_names_elem.
    now rewrite found, (fresh k f found).
  - apply sorted_names_NoDup.
  - apply sorted_names_sorted.
  - apply sorted_names_elem.
Qed.

Lemma every_subscription_starts_once_witness :
  exists subs,
    StartSubscriptions Subscribe
    = ((fun _ => Spent) <$> Subscribe,
       map Started subs
       ++ [SubscriptionsSet (size Subscribe) (join ", " subs)])
    /\ NoDup subs
    /\ StronglySorted String.le subs
    /\ forall k, k ∈ subs <-> is_Some (Subscribe !! k).
Proof.
  apply (every_subscription_starts_once Subscribe).
  apply (bool_decide_unpack _). vm_compute. exact I.
Defined.

(** X16.  Whatever the registry, a second [StartSubscriptions] starts
    nothing: it warns once for every name, that the subscription is
    already active, and leaves the registry as the first call left it. *)
Theorem second_start_only_warns (reg : gmap string Starter) :
  let started := fst (StartSubscriptions reg) in
  StartSubscriptions started
  = (started,
     map AlreadyActive (sorted_names reg)
     ++ [SubscriptionsSet (size reg) (join ", " (sorted_names reg))]).
Proof.
  cbn zeta. rewrite (StartSubscriptions_run reg). cbn [fst].
  rewrite StartSubscriptions_run, sorted_names_fmap, map_size_fmap.
  rewrite <- map_fmap_compose. f_equal. f_equal.
  apply notices_spent. intros k (f & found)%sorted_names_elem.
  now rewrite lookup_fmap, found.
Qed.

(** X17.  The subscriptions [init] starts.  Each is started exactly once
    and none is found already active.  They are the five of the object
    literal, the call status when the configuration sets the default preset
    on calls, and the status of each tracking feature that
    [buildUserInterface] found available: exactly the events the handlers
    react to. *)
Theorem init_subscriptions_spec (W : World) :
  exists subs,
    init_subscriptions W
    = map Started subs ++ [SubscriptionsSet (length subs) (join ", " subs)]
    /\ NoDup subs
    /\ forall k,
         k ∈ subs
         <-> k ∈ ["WidgetAction"; "CameraPresetActivated";
                  "CameraPresetListUpdated"; "CameraPosition";
                  "AllConfigurations"]
             \/ (k = "CallConnected"
                 /\ OnCallSetDefaultPreset (features W) = true)
             \/ exists element,
                  element ∈ availableCameraTrackingFeatures W
                  /\ tracking_subscription element = Some k.
Proof.
  set (reg := init_registry W (availableCameraTrackingFeatures W)).
  assert (fresh : map_Forall (fun _ f => f = Fresh) reg).
  { apply register_tracking_fresh.
    destruct (OnCallSetDefaultPreset (features W));
      [apply map_Forall_insert_2; [reflexivity|] |]; apply Subscribe_fresh. }
  exists (sorted_names reg). split; [|split].
  - unfold init_subscriptions. fold reg.
    rewrite StartSubscriptions_run, sorted_names_length. cbn [snd].
    rewrite notices_fresh; [reflexivity|].
    intros k (f & found)%sorted_names_elem.
    now rewrite found, (fresh k f found).
  - apply sorted_names_NoDup.
  - intros k. rewrite sorted_names_elem. unfold reg, init_registry.
    rewrite register_tracking_names.
    destruct (OnCallSetDefaultPreset (features W)).
    + rewrite lookup_insert_is_Some, Subscribe_names. split.
      * intros [[<-|(_ & known)]|tracked]; auto.
      * intros [known|[(-> & _)|tracked]]; auto.
        left. destruct (decide ("CallConnected" = k)); auto.
    + rewrite Subscribe_names. split.
      * intros [known|tracked]; auto.
      * intros [known|[(_ & [=])|tracked]]; auto.
Qed.

(** ** The tracking features a build leaves *)

Lemma indexOf_app (item : string) (done rest : list string) :
  (indexOf item (done ++ item :: rest) =? length done)
  = bool_decide (item ∉ done).
Proof.
  induction done as [|x done IH]; cbn [app indexOf length].
  - rewrite String.eqb_refl. symmetry. apply bool_decide_eq_true_2.
    apply not_elem_of_nil.
  - destruct (String.eqb_spec x item) as [->|differ].
    + symmetry. apply bool_decide_eq_false_2. intros absent.
      apply absent, list_elem_of_here.
    + change (S ?a =? S ?b) with (a =? b). rewrite IH.
      apply bool_decide_ext. rewrite not_elem_of_cons. intuition congruence.
Qed.

(** The filter, one step at a time: an item is kept when nothing before it
    equals it. *)
Lemma first_occurrences_step (done : list string) (item : string)
    (rest : list string) :
  first_occurrences (done ++ item :: rest) (length done) (item :: rest)
  = (if bool_decide (item ∉ done) then [item] else [])
    ++ first_occurrences ((done ++ [item]) ++ rest) (length (done ++ [item]))
         rest.
Proof.
  cbn [first_occurrences]. rewrite indexOf_app, <- app_assoc, length_app.
  cbn [app length]. replace (length done + 1) with (S (length done)) by lia.
  now destruct (bool_decide (item ∉ done)).
Qed.

Lemma first_occurrences_elem (l : list string) :
  forall (done : list string) (y : string),
    y ∈ first_occurrences (done ++ l) (length done) l
    <-> y ∈ l /\ y ∉ done.
Proof.
  induction l as [|x l IH]; intros done y.
  - cbn. rewrite elem_of_nil. tauto.
  - rewrite first_occurrences_step, elem_of_app, IH, elem_of_cons.
    rewrite not_elem_of_app, list_elem_of_singleton.
    destruct (decide (x ∈ done)) as [seen|unseen].
    + rewrite bool_decide_eq_false_2 by tauto. rewrite elem_of_nil.
      split; [tauto|]. intros ([->|found] & absent); [contradiction|].
      right. split; [exact found|]. split; [exact absent|].
      intros ->. contradiction.
    + rewrite bool_decide_eq_true_2 by exact unseen.
      rewrite list_elem_of_singleton. split.
      * intros [->|(found & absent & _)]; tauto.
      * intros ([->|found] & absent); [now left|].
        destruct (decide (y = x)) as [->|differ]; [now left|]. tauto.
Qed.

Lemma first_occurrences_NoDup (l : list string) :
  forall done : list string,
    NoDup (first_occurrences (done ++ l) (length done) l).
Proof.
  induction l as [|x l IH]; intros done; [constructor|].
  rewrite first_occurrences_step.
  destruct (bool_decide (x ∉ done)); cbn [app]; [|apply IH].
  constructor; [|apply IH].
  rewrite first_occurrences_elem, not_elem_of_app.
  intros (_ & _ & absent). apply absent, list_elem_of_here.
Qed.

Lemma first_occurrences_distinct (l : list string) :
  forall done : list string,
    NoDup (done ++ l) ->
    first_occurrences (done ++ l) (length done) l = l.
Proof.
  induction l as [|x l IH]; intros done distinct; [reflexivity|].
  rewrite first_occurrences_step.
  rewrite IH by now rewrite <- app_assoc.
  apply NoDup_app in distinct as (_ & apart & _).
  rewrite bool_decide_eq_true_2; [reflexivity|].
  intros seen. apply (apart x seen), list_elem_of_here.
Qed.

Lemma first_occurrences_seen (l : list string) :
  forall done : list string,
    (forall x, x ∈ l -> x ∈ done) ->
    first_occurrences (done ++ l) (length done) l = [].
Proof.
  induction l as [|x l IH]; intros done seen; [reflexivity|].
  rewrite first_occurrences_step.
  rewrite bool_decide_eq_false_2
    by (intros absent; apply absent, seen, list_elem_of_here).
  apply IH. intros y found. apply elem_of_app. left.
  apply seen. now apply list_elem_of_further.
Qed.

Lemma first_occurrences_app (l m : list string) :
  forall done : list string,
    first_occurrences (done ++ l ++ m) (length done) (l ++ m)
    = first_occurrences (done ++ l) (length done) l
      ++ first_occurrences ((done ++ l) ++ m) (length (done ++ l)) m.
Proof.
  induction l as [|x l IH]; intros done.
  - cbn [app]. now rewrite app_nil_r.
  - change ((x :: l) ++ m) with (x :: l ++ m).
    rewrite !first_occurrences_step, IH, <- !app_assoc. reflexivity.
Qed.

Lemma pushed_NoDup (W : World) : NoDup (pushed W).
Proof.
  unfold pushed.
  destruct (hasSpeakertrack W), (hasFrames W), (hasPresenterTrack W);
    cbn [app]; apply (bool_decide_unpack _); vm_compute; exact I.
Qed.

(** X18.  The list of tracking features across builds.  A build drops no
    feature of the list, adds those the device reports available when
    the configuration shows tracking options, and nothing else.  With
    tracking options shown the list comes out free of duplicates; without
    them it is left as it was.  A second build under the same availability
    changes nothing, and the first build, from the empty list, leaves the
    features the event handlers go by. *)
Theorem track_features_spec (W : World) (before : list string) :
  let after := track_features W before in
  (forall feature,
     feature ∈ after
     <-> feature ∈ before \/ feature ∈ availableCameraTrackingFeatures W)
  /\ (if ShowTrackingOptions (features W) then NoDup after
      else after = before)
  /\ track_features W after = after
  /\ track_features W [] = availableCameraTrackingFeatures W.
Proof.
  cbn zeta. unfold track_features, availableCameraTrackingFeatures.
  fold (pushed W).
  destruct (ShowTrackingOptions (features W)); cbn zeta.
  - pose proof (first_occurrences_elem (before ++ pushed W) []) as elems.
    pose proof (first_occurrences_NoDup (before ++ pushed W) []) as distinct.
    cbn [app length] in elems, distinct.
    set (after := first_occurrences (before ++ pushed W) 0 (before ++ pushed W))
      in *.
    split; [|split; [|split]].
    + intros feature. rewrite elems, elem_of_app.
      pose proof (not_elem_of_nil feature). tauto.
    + exact distinct.
    + pose proof (first_occurrences_app after (pushed W) []) as again.
      pose proof (first_occurrences_distinct after [] distinct) as kept.
      cbn [app length] in again, kept.
      rewrite again, kept, first_occurrences_seen; [apply app_nil_r|].
      intros x found. apply elems. split; [|apply not_elem_of_nil].
      apply elem_of_app. now right.
    + cbn [app]. apply (first_occurrences_distinct (pushed W) []).
      apply pushed_NoDup.
  - split; [|split; [|split]]; try reflexivity.
    intros feature. rewrite elem_of_nil. tauto.
Qed.

(** ** The entries of the panel *)

Lemma append_assoc (a b c : string) : (a +:+ b) +:+ c = a +:+ b +:+ c.
Proof.
  induction a as [|x a IH]; [reflexivity|].
  change (String x ((a +:+ b) +:+ c) = String x (a +:+ b +:+ c)).
  now rewrite IH.
Qed.

Lemma append_empty (a : string) : a +:+ "" = a.
Proof.
  induction a as [|x a IH]; [reflexivity|].
  change (String x ?a +:+ ?b) with (String x (a +:+ b)). f_equal. exact IH.
Qed.

Lemma fold_values_xml {A : Type} (key label : A -> string) (l : list A) :
  forall x : string,
    fold_left (fun x a => x +:+ value_xml (key a) (label a)) l x
    = x +:+ values_xml (map (fun a => (key a, label a)) l).
Proof.
  unfold values_xml.
  induction l as [|a l IH]; intros x; cbn [fold_left map fold_right].
  - now rewrite append_empty.
  - now rewrite IH, append_assoc.
Qed.

Lemma values_xml_app (l m : list (string * string)) :
  values_xml (l ++ m) = values_xml l +:+ values_xml m.
Proof.
  unfold values_xml.
  induction l as [|e l IH]; cbn [app fold_right]; [reflexivity|].
  now rewrite IH, append_assoc.
Qed.

(** The group is its entries, in their order. *)
Lemma presetGroupButtonXML_entries `{D : Doubles} (config : UserInterface)
    (W : World) :
  presetGroupButtonXML config W = values_xml (panel_entries config W).
Proof.
  unfold presetGroupButtonXML, panel_entries. cbn zeta.
  rewrite (fold_values_xml preset_key (preset_label config)).
  rewrite !values_xml_app. rewrite <- append_assoc. f_equal.
  destruct (ShowTrackingOptions (features W)), (hasSpeakertrack W),
    (hasFrames W), (hasPresenterTrack W);
    unfold values_xml; cbn [app fold_right fst snd];
    rewrite ?append_assoc, ?append_empty;
    reflexivity.
Qed.

Lemma values_xml_entry (entries : list (string * string))
    (entry : string * string) :
  entry ∈ entries ->
  exists front back,
    values_xml entries
    = front +:+ value_xml (fst entry) (snd entry) +:+ back.
Proof.
  intros (l & m & ->)%list_elem_of_split.
  exists (values_xml l), (values_xml m). now rewrite values_xml_app.
Qed.

(** An entry found in a part of a text is found in the text. *)
Lemma entry_further (a x v : string) :
  (exists front back, x = front +:+ v +:+ back) ->
  exists front back, a +:+ x = front +:+ v +:+ back.
Proof.
  intros (front & back & ->). exists (a +:+ front), back.
  now rewrite append_assoc.
Qed.

Lemma entry_before (x c v : string) :
  (exists front back, x = front +:+ v +:+ back) ->
  exists front back, x +:+ c = front +:+ v +:+ back.
Proof.
  intros (front & back & ->). exists front, (back +:+ c).
  now rewrite !append_assoc.
Qed.

Ltac find_entry :=
  repeat match goal with
         | |- exists front back, @group_row _ _ _ +:+ _ = _ =>
             apply entry_before
         | |- exists front back, @presetGroupButtonXML _ _ _ +:+ _ = _ =>
             apply entry_before
         | |- exists front back, _ +:+ _ = _ => apply entry_further
         end.

Lemma parse_accepted (Value : string) :
  regex_test Value = true -> fst (parseKeyValuePairs Value) = [].
Proof. intros accepted. unfold parseKeyValuePairs. now rewrite accepted. Qed.

(** X19.  From the panel to the activation.  With more than one selection
    on offer, every preset of the catalog has its entry in the panel that
    is saved.  When the identifiers and the name of the preset are free of
    [~] and [:], releasing that entry activates the preset: the handler
    runs [activateCameraPreset] on the preset's own identifiers, as
    [Number] reads their texts, neither of which is [undefined]; and the
    selection is remembered unless the key contains the word Manual. *)
Theorem panel_entry_activates `{D : Doubles} (config : UserInterface)
    (W : World) (before : list string) (preset : PresetRecord) (s : State) :
  preset ∈ presets W ->
  1 < length (presets W) + length (track_features W before) ->
  plain_value (to_string (p_CameraId preset)) = true ->
  plain_value (to_string (p_PresetId preset)) = true ->
  plain_value (p_Name preset) = true ->
  let data :=
    preset_object (coerce (Some (to_string (p_CameraId preset))))
      (coerce (Some (to_string (p_PresetId preset))))
      (coerce (Some (p_Name preset))) in
  (exists front back,
     panelXml config W before
     = front +:+ value_xml (preset_key preset) (preset_label config preset)
       +:+ back)
  /\ is_undefined (get data "CameraId") = false
  /\ is_undefined (get data "PresetId") = false
  /\ on_WidgetAction W presets_widget "released" (preset_key preset) s
     = activateCameraPreset W data
         (if includes "Manual" (preset_key preset) then s
          else with_selection data s).
Proof.
  intros listed several camera_ok preset_ok name_ok data.
  split; [|split; [|split]].
  - destruct (values_xml_entry (panel_entries config W)
                (preset_key preset, preset_label config preset))
      as (front & back & found).
    { unfold panel_entries. rewrite !elem_of_app. right. right.
      apply list_elem_of_fmap. now exists preset. }
    cbn [fst snd] in found.
    unfold panelXml, presetRowXml. cbn zeta.
    apply Nat.ltb_lt in several. rewrite several.
    find_entry. unfold group_row. find_entry.
    rewrite presetGroupButtonXML_entries. eauto.
  - subst data. unfold preset_object, get, coerce.
    now destruct (to_number (to_string (p_CameraId preset))).
  - subst data. unfold preset_object, get, coerce.
    now destruct (to_number (to_string (p_PresetId preset))).
  - unfold on_WidgetAction.
    change (String.eqb "released" "released"
            && String.eqb presets_widget presets_widget) with true.
    cbn match. fold (decode (preset_key preset)).
    rewrite parse_accepted by reflexivity.
    change (preset_key preset)
      with (preset_value (to_string (p_CameraId preset))
              (to_string (p_PresetId preset)) (p_Name preset)).
    rewrite decode_preset by assumption. fold data.
    change (is_str (get data "Type") "Automatic") with false.
    change (is_str (get data "Type") "Preset") with true. cbn match.
    rewrite (bind_returned (update (emits [])) _ s s tt eq_refl).
    destruct (includes "Manual" _); cbn [negb].
    + now rewrite (bind_returned (mret tt) _ s s tt eq_refl).
    + now rewrite (bind_returned (update (with_selection data)) _ s
                     (with_selection data s) tt eq_refl).
Qed.

Lemma panel_entry_activates_witness :
  on_WidgetAction (D := literal_doubles) two_presets presets_widget "released"
    "Type:Preset~CameraId:1~PresetId:3~PresetName:Room" init_state
  = activateCameraPreset (D := literal_doubles) two_presets
      (preset_object (JNum (Int 1)) (JNum (Int 3)) (JStr "Room"))
      (with_selection
         (preset_object (JNum (Int 1)) (JNum (Int 3)) (JStr "Room"))
         init_state).
Proof.
  destruct (panel_entry_activates (D := literal_doubles) config_UserInterface
              two_presets [] room_preset init_state)
    as (_ & _ & _ & pressed).
  - apply list_elem_of_here.
  - cbn. lia.
  - reflexivity.
  - reflexivity.
  - reflexivity.
  - exact pressed.
Defined.
